(** * soil_sensor_background_worker: the calibration worker (worker.py)

    A shallow embedding of [worker.py]: the document processor
    ([prepare_input], [process_document]), the change reconciler
    ([get_latest_document_by_timestamp], [on_snapshot],
    [get_current_latest_document], [start_listener]) and the lifecycle
    controller ([start_worker], [stop_worker]).

    Python code that raises is embedded in a state-and-exception monad over
    the module's globals and the Firestore database.  The threads of the
    worker (the listener thread, the snapshot callbacks delivered by the
    Firestore client) are embedded as a small-step system in which every
    statement that reads or writes a module global or the lock is one
    atomic step. *)

From Stdlib Require Import ZArith String List.
From stdpp Require Import base gmap strings list.

Local Open Scope string_scope.
Local Open Scope Z_scope.
Local Open Scope list_scope.

(** ** Values and documents *)

(** Field values of a Firestore document as [DocumentSnapshot.to_dict()]
    returns them.  A Python [float] is carried as its IEEE-754 binary64 bit
    pattern: the worker never computes with one, it only moves them. *)
Inductive value :=
| VNone
| VBool (b : bool)
| VInt (n : Z)
| VFloat (bits : Z)
| VStr (s : string)
| VTimestamp (t : Z).

(** What a write payload may hold for a field: a literal value or the
    [firestore.SERVER_TIMESTAMP] sentinel, which the server replaces by its
    clock when the write is applied. *)
Inductive field_value :=
| Lit (v : value)
| SERVER_TIMESTAMP.

(** A Python [dict] read from the store, and a [dict] handed to a write. *)
Abbreviation dict := (gmap string value).
Abbreviation payload := (gmap string field_value).

(** A collection maps document ids to documents; the database maps
    collection names to collections.  A collection that was never written
    is empty. *)
Abbreviation collection := (gmap string (gmap string value)).

Definition collection_of (d : gmap string collection) (name : string) : collection :=
  default ∅ (d !! name).

(** Python's [x == True] for a value read with [dict.get]: [bool] is a
    subclass of [int], so [1] and [1.0] compare equal to [True]; an absent
    key reads as [None]. *)
Definition float_one_bits : Z := 0x3FF0000000000000.

Definition eq_True (o : option value) : bool :=
  match o with
  | Some (VBool b) => b
  | Some (VInt n) => n =? 1
  | Some (VFloat bits) => bits =? float_one_bits
  | _ => false
  end.

(** ** Exceptions, events, log lines *)

(** The subclasses of [Exception] the worker can meet.  [Error] stands for
    any other one (a network failure of the store client, a failure inside
    the model). *)
Inductive exn :=
| KeyError (msg : string)
| IndexError
| NotFound
| Error (what : string).

Inductive outcome (A : Type) :=
| Ok (a : A)
| Raise (e : exn).
Arguments Ok {A} a.
Arguments Raise {A} e.

(** Calls into the Firestore client. *)
Inductive call :=
| Get (coll id : string)
| Set_ (coll id : string) (p : payload)
| Update (coll id : string) (p : payload)
| Query (coll : string)
| Watch (coll : string).

(** The observable trace: store calls with their result ([None]: the call
    completed), model inferences, entries into the document processor, and
    the operations on [processing_lock]. *)
Inductive event :=
| Store (c : call) (r : option exn)
| Predict (row : list value) (ok : bool)
| Process (doc_id : string) (data : dict)
| Acquire
| Release.

Inductive change_type := ADDED | MODIFIED | REMOVED.

(** One [DocumentChange] of a snapshot batch: its type and the document id. *)
Definition change : Type := change_type * string.

(** The lines the worker prints, by the statement that prints them. *)
Inductive log_msg :=
| LogProcessing (doc_id : string)
| LogAlreadyCalibrated (doc_id : string)
| LogAlreadyProcessed (doc_id : string)
| LogSaved (doc_id : string)
| LogMissingField (doc_id : string) (e : exn)
| LogError (doc_id : string) (e : exn)
| LogQueryError (e : exn)
| LogInitialSnapshot (n : nat)
| LogSkippingInitial
| LogChangeDetected (n : nat)
| LogChange (c : change)
| LogMoreChanges (n : nat)
| LogQuerying
| LogLatest (doc_id : string)
| LogNewLatest
| LogAlreadyLatest (doc_id : string)
| LogWaiting
| LogBaselineError (e : exn)
| LogBanner
| LogBaselineSet (doc_id : string)
| LogNoBaseline
| LogAttaching
| LogListenerActive
| LogAlreadyRunning
| LogWorkerStarted
| LogStopRequested.

(** ** Configuration read when the module is imported *)

(** [RAW_COLLECTION] and [CALIBRATED_COLLECTION] come from the environment,
    [model] from the pickle at [MODEL_PATH].  [model_predict row] is
    [model.predict(X)[0]] for the one-row frame [X] built from [row]: the
    first output row, or the exception the model raised.  [order_leb] is
    the store's ordering of field values, used by [order_by]. *)
Record config := Config {
  RAW_COLLECTION : string;
  CALIBRATED_COLLECTION : string;
  model_predict : list value → outcome (list Z);
  order_leb : value → value → bool;
}.

(** ** Program state *)

(** The module globals of the reconciler, the database behind [db], the
    server clock, the trace and the printed lines.  [faults] is the
    schedule of what the coming store calls do: [Some e] makes the next
    call raise [e], [None] (or an exhausted schedule) lets it complete.
    [watches] counts the snapshot listeners attached to the raw
    collection. *)
Record state := State {
  db : gmap string collection;
  server_time : Z;
  faults : list (option exn);
  watches : nat;
  trace : list event;
  stdout : list log_msg;
  last_processed_doc_id : option string;
  initial_snapshot_received : bool;
}.

Definition set_db (d : gmap string collection) (s : state) : state :=
  State d (server_time s) (faults s) (watches s)
        (trace s) (stdout s) (last_processed_doc_id s) (initial_snapshot_received s).

Definition set_server_time (t : Z) (s : state) : state :=
  State (db s) t (faults s) (watches s)
        (trace s) (stdout s) (last_processed_doc_id s) (initial_snapshot_received s).

Definition set_faults (fs : list (option exn)) (s : state) : state :=
  State (db s) (server_time s) fs (watches s)
        (trace s) (stdout s) (last_processed_doc_id s) (initial_snapshot_received s).

Definition set_watches (n : nat) (s : state) : state :=
  State (db s) (server_time s) (faults s) n
        (trace s) (stdout s) (last_processed_doc_id s) (initial_snapshot_received s).

Definition add_event (e : event) (s : state) : state :=
  State (db s) (server_time s) (faults s) (watches s)
        (trace s ++ [e]) (stdout s) (last_processed_doc_id s) (initial_snapshot_received s).

Definition add_line (l : log_msg) (s : state) : state :=
  State (db s) (server_time s) (faults s) (watches s)
        (trace s) (stdout s ++ [l]) (last_processed_doc_id s) (initial_snapshot_received s).

Definition set_last_processed_doc_id (o : option string) (s : state) : state :=
  State (db s) (server_time s) (faults s) (watches s)
        (trace s) (stdout s) o (initial_snapshot_received s).

Definition set_initial_snapshot_received (b : bool) (s : state) : state :=
  State (db s) (server_time s) (faults s) (watches s)
        (trace s) (stdout s) (last_processed_doc_id s) b.

(** ** The monad of Python statements *)

Definition M (A : Type) : Type := state → outcome A * state.

Definition ret {A} (a : A) : M A := λ s, (Ok a, s).

Definition bind {A B} (m : M A) (k : A → M B) : M B :=
  λ s, match m s with
       | (Ok a, s') => k a s'
       | (Raise e, s') => (Raise e, s')
       end.

Definition raise {A} (e : exn) : M A := λ s, (Raise e, s).

(** [try: body except Exception as e: handler e] *)
Definition try_except {A} (body : M A) (handler : exn → M A) : M A :=
  λ s, match body s with
       | (Ok a, s') => (Ok a, s')
       | (Raise e, s') => handler e s'
       end.

Definition get_state : M state := λ s, (Ok s, s).
Definition modify (f : state → state) : M unit := λ s, (Ok tt, f s).
Definition emit (e : event) : M unit := modify (add_event e).
Definition print (l : log_msg) : M unit := modify (add_line l).

(** A pure computation that may raise, run as a statement. *)
Definition lift {A} (o : outcome A) : M A := λ s, (o, s).

(** The monad notations of stdpp: [x ← c; k] and [c;; k]. *)
#[global] Instance M_ret : MRet M := @ret.
#[global] Instance M_bind : MBind M := λ A B k m, bind m k.

(** ** The store client *)

(** The server applies a payload: sentinels become the server's time. *)
Definition resolve (now : Z) (p : payload) : dict :=
  (λ f, match f with Lit v => v | SERVER_TIMESTAMP => VTimestamp now end) <$> p.

Definition write_doc (coll id : string) (d : dict) (s : state) : state :=
  set_server_time (server_time s + 1)
    (set_db (<[coll := <[id := d]> (collection_of (db s) coll)]> (db s)) s).

(** The next entry of the fault schedule. *)
Definition next_fault : M (option exn) :=
  λ s, match faults s with
       | [] => (Ok None, s)
       | f :: fs => (Ok f, set_faults fs s)
       end.

(** [db.collection(coll).document(id).get()]: the stored fields, [None]
    when the snapshot's [exists] is false. *)
Definition doc_get (coll id : string) : M (option dict) :=
  f ← next_fault;
  match f with
  | Some e => emit (Store (Get coll id) (Some e));; raise e
  | None =>
      emit (Store (Get coll id) None);;
      s ← get_state;
      ret (collection_of (db s) coll !! id)
  end.

(** [db.collection(coll).document(id).set(p)]: creates or replaces. *)
Definition doc_set (coll id : string) (p : payload) : M unit :=
  f ← next_fault;
  match f with
  | Some e => emit (Store (Set_ coll id p) (Some e));; raise e
  | None =>
      emit (Store (Set_ coll id p) None);;
      modify (λ s, write_doc coll id (resolve (server_time s) p) s)
  end.

(** [db.collection(coll).document(id).update(p)]: merges the fields of [p]
    into an existing document, and fails on a missing one. *)
Definition doc_update (coll id : string) (p : payload) : M unit :=
  f ← next_fault;
  match f with
  | Some e => emit (Store (Update coll id p) (Some e));; raise e
  | None =>
      s ← get_state;
      match collection_of (db s) coll !! id with
      | None => emit (Store (Update coll id p) (Some NotFound));; raise NotFound
      | Some old =>
          emit (Store (Update coll id p) None);;
          modify (write_doc coll id (resolve (server_time s) p ∪ old))
      end
  end.

(** Whether [a] comes before [b] in
    [order_by(field, direction=DESCENDING)]: by the field's value, ties by
    document id, both descending. *)
Definition before_desc (leb : value → value → bool)
    (a b : string * dict * value) : bool :=
  let '(ida, _, va) := a in
  let '(idb, _, vb) := b in
  if leb vb va then (if leb va vb then String.leb idb ida else true) else false.

(** [.order_by(field, direction=DESCENDING).limit(1)] on a collection: the
    documents that have the field, the first of them in the order. *)
Definition order_by_desc_limit_1 (leb : value → value → bool) (field : string)
    (c : collection) : option (string * dict) :=
  let with_field :=
    omap (λ '(id, d), (λ v, (id, d, v)) <$> d !! field) (map_to_list c) in
  let best :=
    foldl (λ acc x, match acc with
                    | None => Some x
                    | Some y => if before_desc leb x y then Some x else Some y
                    end) None with_field in
  (λ '(id, d, _), (id, d)) <$> best.

(** Running the query ([.stream()] and the first iteration of the loop
    over it). *)
Definition query_latest (cfg : config) : M (option (string * dict)) :=
  f ← next_fault;
  match f with
  | Some e => emit (Store (Query (RAW_COLLECTION cfg)) (Some e));; raise e
  | None =>
      emit (Store (Query (RAW_COLLECTION cfg)) None);;
      s ← get_state;
      ret (order_by_desc_limit_1 (order_leb cfg) "timestamp"
             (collection_of (db s) (RAW_COLLECTION cfg)))
  end.

(** ** Data processing functions *)

(** [data[key]] *)
Definition subscript (data : dict) (key : string) : outcome value :=
  match data !! key with
  | Some v => Ok v
  | None => Raise (KeyError key)
  end.

Definition required : list string := ["N"; "P"; "K"; "pH"; "Conductivity"].

(** The loop [for key in required: if key not in data: raise KeyError(...)]. *)
Fixpoint check_required (keys : list string) (data : dict) : outcome unit :=
  match keys with
  | [] => Ok tt
  | key :: rest =>
      match data !! key with
      | None => Raise (KeyError (String.append "Missing field: " key))
      | Some _ => check_required rest data
      end
  end.

Definition outcome_bind {A B} (o : outcome A) (k : A → outcome B) : outcome B :=
  match o with
  | Ok a => k a
  | Raise e => Raise e
  end.

(** [prepare_input]: the single row of the frame, in column order. *)
Definition prepare_input (data : dict) : outcome (list value) :=
  outcome_bind (check_required required data) (λ _,
  outcome_bind (subscript data "N") (λ n,
  outcome_bind (subscript data "P") (λ p,
  outcome_bind (subscript data "K") (λ k,
  outcome_bind (subscript data "pH") (λ ph,
  outcome_bind (subscript data "Conductivity") (λ ec,
  Ok [n; p; k; ph; ec])))))).

(** [model.predict(X)[0]] *)
Definition predict (cfg : config) (row : list value) : M (list Z) :=
  match model_predict cfg row with
  | Ok out => emit (Predict row true);; ret out
  | Raise e => emit (Predict row false);; raise e
  end.

(** [calibrated[i]] *)
Definition index (calibrated : list Z) (i : nat) : M Z :=
  match calibrated !! i with
  | Some x => ret x
  | None => raise IndexError
  end.

Definition calibrated_dict (c0 c1 c2 c3 c4 : Z) : payload :=
  <["calibrated_N" := Lit (VFloat c0)]>
  (<["calibrated_P" := Lit (VFloat c1)]>
  (<["calibrated_K" := Lit (VFloat c2)]>
  (<["calibrated_pH" := Lit (VFloat c3)]>
  (<["calibrated_Conductivity" := Lit (VFloat c4)]>
  (<["calibrated_timestamp" := SERVER_TIMESTAMP]> ∅))))).

(** [{**data, **calibrated_dict}]: the later keys win. *)
Definition merge (data : dict) (cal : payload) : payload :=
  cal ∪ (Lit <$> data).

Definition processed_fields : payload :=
  <["processed" := Lit (VBool true)]>
  (<["processed_at" := SERVER_TIMESTAMP]> ∅).

(** The [try] block of [process_document]. *)
Definition process_document_body (cfg : config) (doc_id : string) (data : dict)
    : M bool :=
  print (LogProcessing doc_id);;
  snapshot ← doc_get (CALIBRATED_COLLECTION cfg) doc_id;
  if bool_decide (is_Some snapshot) then
    print (LogAlreadyCalibrated doc_id);;
    ret false
  else if eq_True (data !! "processed") then
    print (LogAlreadyProcessed doc_id);;
    ret false
  else
    X ← lift (prepare_input data);
    calibrated ← predict cfg X;
    c0 ← index calibrated 0;
    c1 ← index calibrated 1;
    c2 ← index calibrated 2;
    c3 ← index calibrated 3;
    c4 ← index calibrated 4;
    let merged := merge data (calibrated_dict c0 c1 c2 c3 c4) in
    doc_set (CALIBRATED_COLLECTION cfg) doc_id merged;;
    doc_update (RAW_COLLECTION cfg) doc_id processed_fields;;
    print (LogSaved doc_id);;
    ret true.

(** [process_document]: the two handlers both print and return [False]. *)
Definition process_document (cfg : config) (doc_id : string) (data : dict)
    : M bool :=
  emit (Process doc_id data);;
  try_except (process_document_body cfg doc_id data)
    (λ e, match e with
          | KeyError _ => print (LogMissingField doc_id e);; ret false
          | _ => print (LogError doc_id e);; ret false
          end).

(** [s] with [ls] printed. *)
Definition add_lines (ls : list log_msg) (s : state) : state :=
  State (db s) (server_time s) (faults s) (watches s) (trace s) (stdout s ++ ls)
        (last_processed_doc_id s) (initial_snapshot_received s).

(** ** The change reconciler *)

(** [get_latest_document_by_timestamp]: the first document of the query,
    [None] when there is none or when the query raised. *)
Definition get_latest_document_by_timestamp (cfg : config)
    : M (option (string * dict)) :=
  try_except
    (latest_doc ← query_latest cfg;
     ret latest_doc)
    (λ e, print (LogQueryError e);; ret None).

Fixpoint print_all (ls : list log_msg) : M unit :=
  match ls with
  | [] => ret tt
  | l :: rest => print l;; print_all rest
  end.

(** [with processing_lock: body], run with the lock free: the lock is
    released on the way out, also when the body raises. *)
Definition release_after {A} (body : M A) : M A :=
  λ s, let '(r, s') := body s in (r, add_event Release s').

Definition with_processing_lock {A} (body : M A) : M A :=
  emit Acquire;;
  release_after body.

(** The body of the [with] block of [on_snapshot]. *)
Definition on_snapshot_locked (cfg : config) (changes : list change) : M unit :=
  print (LogChangeDetected (length changes));;
  print_all (LogChange <$> take 3 changes);;
  (if bool_decide (3 < length changes)%nat
   then print (LogMoreChanges (length changes - 3))
   else ret tt);;
  print LogQuerying;;
  latest_doc ← get_latest_document_by_timestamp cfg;
  match latest_doc with
  | Some (doc_id, data) =>
      print (LogLatest doc_id);;
      s ← get_state;
      if bool_decide (Some doc_id ≠ last_processed_doc_id s) then
        print LogNewLatest;;
        success ← process_document cfg doc_id data;
        if success : bool
        then modify (set_last_processed_doc_id (Some doc_id))
        else ret tt
      else
        print (LogAlreadyLatest doc_id)
  | None => ret tt
  end;;
  print LogWaiting.

(** [on_snapshot(doc_snapshot, changes, read_time)]; only [changes] is
    used. *)
Definition on_snapshot (cfg : config) (changes : list change) : M unit :=
  s ← get_state;
  if negb (initial_snapshot_received s) then
    modify (set_initial_snapshot_received true);;
    print (LogInitialSnapshot (length changes));;
    print LogSkippingInitial;;
    ret tt
  else
    with_processing_lock (on_snapshot_locked cfg changes).

(** [get_current_latest_document] *)
Definition get_current_latest_document (cfg : config)
    : M (option (string * dict)) :=
  try_except
    (docs ← query_latest cfg;
     ret docs)
    (λ e, print (LogBaselineError e);; ret None).

(** [collection_ref.on_snapshot(on_snapshot)] *)
Definition watch (coll : string) : M unit :=
  f ← next_fault;
  match f with
  | Some e => emit (Store (Watch coll) (Some e));; raise e
  | None =>
      emit (Store (Watch coll) None);;
      modify (λ s, set_watches (S (watches s)) s)
  end.

(** [start_listener] up to its [while True: time.sleep(1)] loop, which it
    never leaves in a worker thread ([KeyboardInterrupt] is delivered to
    the main thread only). *)
Definition start_listener_setup (cfg : config) : M unit :=
  print LogBanner;;
  baseline_doc ← get_current_latest_document cfg;
  match baseline_doc with
  | Some (doc_id, data) =>
      modify (set_last_processed_doc_id (Some doc_id));;
      print (LogBaselineSet doc_id)
  | None => print LogNoBaseline
  end;;
  print LogAttaching;;
  watch (RAW_COLLECTION cfg);;
  print LogListenerActive.

(** ** The lifecycle controller and the threads of the worker *)

(** Where a thread stands.  [L_*] are the statements of [start_listener],
    [S_*] those of one call of [on_snapshot]; each reads or writes at most
    one module global or the lock. *)
Inductive pc :=
| L_start                                  (* banner, get_current_latest_document() *)
| L_set_baseline (doc_id : string)         (* last_processed_doc_id = baseline_doc.id *)
| L_attach                                 (* collection_ref.on_snapshot(on_snapshot) *)
| L_loop                                   (* while True: time.sleep(1) *)
| S_check (changes : list change)          (* if not initial_snapshot_received: *)
| S_set_flag (changes : list change)       (* initial_snapshot_received = True; return *)
| S_acquire (changes : list change)        (* with processing_lock: *)
| S_query (changes : list change)          (* get_latest_document_by_timestamp() *)
| S_compare (doc_id : string) (data : dict)  (* if doc_id != last_processed_doc_id: *)
| S_process (doc_id : string) (data : dict)  (* success = process_document(doc_id, data) *)
| S_set_last (doc_id : string)             (* last_processed_doc_id = doc_id *)
| S_release                                (* leaving the with block *)
| Done                                     (* returned *)
| Crashed (e : exn).                       (* ended by an uncaught exception *)

(** The module globals of [worker.py] that the threads share. *)
Inductive gvar :=
| G_last_processed_doc_id
| G_initial_snapshot_received
| G_running
| G_worker_thread.

#[global] Instance gvar_eq_dec : EqDecision gvar.
Proof. solve_decision. Defined.

(** [processing_lock] with its owner, the threads by index, and the
    globals of the controller. *)
Record system := System {
  st : state;
  processing_lock : option nat;
  threads : list pc;
  worker_thread : option nat;
  running : bool;
}.

Definition set_st (s : state) (sys : system) : system :=
  System s (processing_lock sys) (threads sys) (worker_thread sys) (running sys).

Definition set_processing_lock (o : option nat) (sys : system) : system :=
  System (st sys) o (threads sys) (worker_thread sys) (running sys).

Definition set_threads (ts : list pc) (sys : system) : system :=
  System (st sys) (processing_lock sys) ts (worker_thread sys) (running sys).

Definition set_worker_thread (o : option nat) (sys : system) : system :=
  System (st sys) (processing_lock sys) (threads sys) o (running sys).

Definition set_running (b : bool) (sys : system) : system :=
  System (st sys) (processing_lock sys) (threads sys) (worker_thread sys) b.

(** [threading.Thread(target=..., daemon=True).start()]: a new thread,
    which has not run yet. *)
Definition spawn (p : pc) (sys : system) : nat * system :=
  (length (threads sys), set_threads (threads sys ++ [p]) sys).

(** [start_worker] *)
Definition start_worker (sys : system) : string * system :=
  if running sys then
    ("Worker already running",
     set_st (add_line LogAlreadyRunning (st sys)) sys)
  else
    let sys1 := set_running true sys in
    let '(t, sys2) := spawn L_start sys1 in
    let sys3 := set_worker_thread (Some t) sys2 in
    ("Worker started", set_st (add_line LogWorkerStarted (st sys3)) sys3).

(** [stop_worker] *)
Definition stop_worker (sys : system) : string * system :=
  let sys1 := set_running false sys in
  ("Worker stopping", set_st (add_line LogStopRequested (st sys1)) sys1).

(** The statement at [p], as the code of the sequential embedding, and the
    place the thread reaches. *)
Definition step_code (cfg : config) (p : pc) : M pc :=
  match p with
  | L_start =>
      print LogBanner;;
      baseline_doc ← get_current_latest_document cfg;
      match baseline_doc with
      | Some (doc_id, _) => ret (L_set_baseline doc_id)
      | None => print LogNoBaseline;; ret L_attach
      end
  | L_set_baseline doc_id =>
      modify (set_last_processed_doc_id (Some doc_id));;
      print (LogBaselineSet doc_id);;
      ret L_attach
  | L_attach =>
      print LogAttaching;;
      watch (RAW_COLLECTION cfg);;
      print LogListenerActive;;
      ret L_loop
  | L_loop => ret L_loop
  | S_check changes =>
      s ← get_state;
      if negb (initial_snapshot_received s)
      then ret (S_set_flag changes)
      else ret (S_acquire changes)
  | S_set_flag changes =>
      modify (set_initial_snapshot_received true);;
      print (LogInitialSnapshot (length changes));;
      print LogSkippingInitial;;
      ret Done
  | S_acquire changes => emit Acquire;; ret (S_query changes)
  | S_query changes =>
      print (LogChangeDetected (length changes));;
      print_all (LogChange <$> take 3 changes);;
      (if bool_decide (3 < length changes)%nat
       then print (LogMoreChanges (length changes - 3))
       else ret tt);;
      print LogQuerying;;
      latest_doc ← get_latest_document_by_timestamp cfg;
      match latest_doc with
      | Some (doc_id, data) => ret (S_compare doc_id data)
      | None => ret S_release
      end
  | S_compare doc_id data =>
      print (LogLatest doc_id);;
      s ← get_state;
      if bool_decide (Some doc_id ≠ last_processed_doc_id s)
      then print LogNewLatest;; ret (S_process doc_id data)
      else print (LogAlreadyLatest doc_id);; ret S_release
  | S_process doc_id data =>
      success ← process_document cfg doc_id data;
      if success : bool then ret (S_set_last doc_id) else ret S_release
  | S_set_last doc_id =>
      modify (set_last_processed_doc_id (Some doc_id));;
      ret S_release
  | S_release => print LogWaiting;; emit Release;; ret Done
  | Done => ret Done
  | Crashed e => ret (Crashed e)
  end.

(** The globals the statement at [p] assigns. *)
Definition writes_of (p : pc) : list gvar :=
  match p with
  | L_set_baseline _ => [G_last_processed_doc_id]
  | S_set_flag _ => [G_initial_snapshot_received]
  | S_set_last _ => [G_last_processed_doc_id]
  | _ => []
  end.

(** The places inside [with processing_lock:]. *)
Definition in_critical_section (p : pc) : bool :=
  match p with
  | S_query _ | S_compare _ _ | S_process _ _ | S_set_last _ | S_release => true
  | _ => false
  end.

(** Running the statement at [p] in thread [t]: an exception ends the
    thread, and leaves the [with] block if the thread was inside. *)
Definition run_statement (cfg : config) (t : nat) (p : pc) (sys : system) : system :=
  let '(r, s') := step_code cfg p (st sys) in
  match r with
  | Ok p' => set_threads (<[t := p']> (threads sys)) (set_st s' sys)
  | Raise e =>
      let sys' := set_threads (<[t := Crashed e]> (threads sys)) (set_st s' sys) in
      if in_critical_section p
      then set_processing_lock None (set_st (add_event Release s') sys')
      else sys'
  end.

(** One step of thread [t] standing at [p]; [None] when it cannot move: it
    has ended, or it waits for the lock. *)
Definition thread_step (cfg : config) (t : nat) (p : pc) (sys : system)
    : option system :=
  match p with
  | Done | Crashed _ => None
  | S_acquire _ =>
      match processing_lock sys with
      | Some _ => None
      | None => Some (set_processing_lock (Some t) (run_statement cfg t p sys))
      end
  | S_release => Some (set_processing_lock None (run_statement cfg t p sys))
  | _ => Some (run_statement cfg t p sys)
  end.

(** Who moves: a thread of the worker, the Firestore client delivering a
    batch to the callback, a request to the control surface, or the
    ingestion path storing a raw reading. *)
Inductive actor :=
| Thread (t : nat)
| Deliver (changes : list change)
| StartRequest
| StopRequest
| Ingest (doc_id : string) (data : dict).

(** The ingestion path writes a reading into the raw collection. *)
Definition ingest (cfg : config) (doc_id : string) (data : dict) (sys : system)
    : system :=
  set_st (write_doc (RAW_COLLECTION cfg) doc_id data (st sys)) sys.

Inductive step (cfg : config) : system → actor → system → Prop :=
| step_thread sys t p sys' :
    threads sys !! t = Some p →
    thread_step cfg t p sys = Some sys' →
    step cfg sys (Thread t) sys'
| step_deliver sys changes :
    (0 < watches (st sys))%nat →
    step cfg sys (Deliver changes) (spawn (S_check changes) sys).2
| step_start sys :
    step cfg sys StartRequest (start_worker sys).2
| step_stop sys :
    step cfg sys StopRequest (stop_worker sys).2
| step_ingest sys doc_id data :
    step cfg sys (Ingest doc_id data) (ingest cfg doc_id data sys).

(** The module as imported: no thread, the lock free, the globals at their
    initial values, whatever the database holds. *)
Definition initial_state (d : gmap string collection) (now : Z)
    (fs : list (option exn)) : state :=
  State d now fs 0 [] [] None false.

Definition initial_system (d : gmap string collection) (now : Z)
    (fs : list (option exn)) : system :=
  System (initial_state d now fs) None [] None false.

Inductive reachable (cfg : config) : system → Prop :=
| reachable_init d now fs : reachable cfg (initial_system d now fs)
| reachable_step sys a sys' :
    reachable cfg sys → step cfg sys a sys' → reachable cfg sys'.

(** Thread [t] run alone for at most [fuel] steps. *)
Fixpoint run_thread (cfg : config) (fuel : nat) (t : nat) (sys : system) : system :=
  match fuel with
  | O => sys
  | S fuel' =>
      match threads sys !! t with
      | None => sys
      | Some p =>
          match thread_step cfg t p sys with
          | None => sys
          | Some sys' => run_thread cfg fuel' t sys'
          end
      end
  end.

(** The scheduler as a function: what [a] does to [sys], [None] when [a]
    cannot move. *)
Definition exec_actor (cfg : config) (a : actor) (sys : system) : option system :=
  match a with
  | Thread t => p ← threads sys !! t; thread_step cfg t p sys
  | Deliver changes =>
      if bool_decide (0 < watches (st sys))%nat
      then Some (spawn (S_check changes) sys).2
      else None
  | StartRequest => Some (start_worker sys).2
  | StopRequest => Some (stop_worker sys).2
  | Ingest doc_id data => Some (ingest cfg doc_id data sys)
  end.

Fixpoint exec_schedule (cfg : config) (sched : list actor) (sys : system)
    : option system :=
  match sched with
  | [] => Some sys
  | a :: rest => sys' ← exec_actor cfg a sys; exec_schedule cfg rest sys'
  end.

(** ** Sample data *)

(** A model that answers every row with the calibrated vector
    [11.2, 5.4, 8.1, 6.0, 310.5]. *)
Definition sample_model (row : list value) : outcome (list Z) :=
  Ok [0x4026666666666666; 0x401599999999999A; 0x4020333333333333;
      0x4018000000000000; 0x4073680000000000].

(** Timestamps by their time; other values are not told apart. *)
Definition sample_leb (a b : value) : bool :=
  match a, b with
  | VTimestamp x, VTimestamp y => x <=? y
  | _, _ => true
  end.

(** The collection names the module uses when the environment sets none. *)
Definition default_config : config :=
  Config "npk_readings" "calibrated_npk_readings_sensor_1" sample_model sample_leb.

(** [{N: 10, P: 5, K: 8, pH: 6.2, Conductivity: 300, timestamp: 100}] *)
Definition reading_r1 : dict :=
  <["N" := VInt 10]> (<["P" := VInt 5]> (<["K" := VInt 8]>
  (<["pH" := VFloat 0x4018CCCCCCCCCCCD]> (<["Conductivity" := VInt 300]>
  (<["timestamp" := VTimestamp 100]> ∅))))).

(** A reading without [pH] and [Conductivity]. *)
Definition reading_r0 : dict :=
  <["N" := VInt 10]> (<["P" := VInt 5]> (<["K" := VInt 8]>
  (<["timestamp" := VTimestamp 50]> ∅))).

Definition sample_db : gmap string collection :=
  <["npk_readings" := <["r1" := reading_r1]> (<["r0" := reading_r0]> ∅)]> ∅.

(** The module right after import, over [sample_db]. *)
Definition sample_state : state := initial_state sample_db 1000 [].

(** The same once the initial snapshot has been seen. *)
Definition sample_state_listening : state :=
  set_initial_snapshot_received true sample_state.

(** [{N: 12, P: 6, K: 9, pH: 6.0, Conductivity: 310, timestamp: 200}], a
    reading newer than those of [sample_db]. *)
Definition reading_r2 : dict :=
  <["N" := VInt 12]> (<["P" := VInt 6]> (<["K" := VInt 9]>
  (<["pH" := VFloat 0x4018000000000000]> (<["Conductivity" := VInt 310]>
  (<["timestamp" := VTimestamp 200]> ∅))))).

Definition sample_system : system := initial_system sample_db 1000 [].

(** The worker is started and attaches; the initial snapshot arrives. *)
Definition initial_snapshot_schedule : list actor :=
  [StartRequest; Thread 0; Thread 0; Thread 0;
   Deliver [(ADDED, "r0"); (ADDED, "r1")]; Thread 1].

(** ... it is discarded; a new reading is stored and its batch handled up
    to the assignment of [last_processed_doc_id]. *)
Definition new_reading_schedule : list actor :=
  initial_snapshot_schedule ++
  [Thread 1; Ingest "r2" reading_r2; Deliver [(ADDED, "r2")];
   Thread 2; Thread 2; Thread 2; Thread 2; Thread 2].

Definition run_schedule (cfg : config) (sched : list actor) (sys : system)
    : system :=
  default sys (exec_schedule cfg sched sys).


(** ** Properties stated by the specification *)

(** The keys of [calibrated_dict]. *)
Definition calibrated_keys : list string :=
  ["calibrated_N"; "calibrated_P"; "calibrated_K"; "calibrated_pH";
   "calibrated_Conductivity"; "calibrated_timestamp"].

(** The events appended to the trace between [s] and [s']. *)
Definition events_since (s s' : state) : list event :=
  drop (length (trace s)) (trace s').

(** A completed write of a document [doc_id] of the destination
    collection. *)
Definition is_calibrated_write (cfg : config) (doc_id : string) (e : event) : bool :=
  match e with
  | Store (Set_ coll id _) None =>
      bool_decide (coll = CALIBRATED_COLLECTION cfg) && bool_decide (id = doc_id)
  | _ => false
  end.

(** A completed write of any kind. *)
Definition is_write (e : event) : bool :=
  match e with
  | Store (Set_ _ _ _) None | Store (Update _ _ _) None => true
  | _ => false
  end.

(** The next store call completes. *)
Definition next_call_completes (s : state) : Prop :=
  head (faults s) = None ∨ head (faults s) = Some None.

(** Idempotency as the specification words it: two calls in sequence leave
    exactly one calibrated reading written at [doc_id], and the second
    call reports the skip without writing. *)
Definition twice_yields_one_reading (cfg : config) (doc_id : string)
    (data : dict) (s : state) : Prop :=
  ∃ b1 s1 s2,
    process_document cfg doc_id data s = (Ok b1, s1) ∧
    process_document cfg doc_id data s1 = (Ok false, s2) ∧
    is_Some (collection_of (db s2) (CALIBRATED_COLLECTION cfg) !! doc_id) ∧
    length (filter (λ e, is_calibrated_write cfg doc_id e = true)
              (events_since s s2)) = 1%nat ∧
    (stdout s2 = stdout s1 ++ [LogProcessing doc_id; LogAlreadyCalibrated doc_id] ∨
     stdout s2 = stdout s1 ++ [LogProcessing doc_id; LogAlreadyProcessed doc_id]) ∧
    db s2 = db s1 ∧
    filter (λ e, is_write e = true) (events_since s1 s2) = [].

(** The reconciler state is written under the lock only, as the
    specification words it: whoever stands at a statement that assigns
    [last_processed_doc_id] or [initial_snapshot_received] owns
    [processing_lock]. *)
Definition state_written_under_lock_only (cfg : config) : Prop :=
  ∀ sys t p,
    reachable cfg sys →
    threads sys !! t = Some p →
    (G_last_processed_doc_id ∈ writes_of p ∨
     G_initial_snapshot_received ∈ writes_of p) →
    processing_lock sys = Some t.

(** The lock is held by exactly the thread inside the [with] block. *)
Definition lock_discipline (sys : system) : Prop :=
  (∀ t p, threads sys !! t = Some p → in_critical_section p = true →
          processing_lock sys = Some t) ∧
  (∀ t, processing_lock sys = Some t →
        ∃ p, threads sys !! t = Some p ∧ in_critical_section p = true).

(** A statement outside the lock operations. *)
Definition plain_statement (p : pc) : bool :=
  match p with
  | S_acquire _ | S_release | Done | Crashed _ => false
  | _ => true
  end.

(** The system after thread [t] moved to [p'] with state [s']. *)
Definition moved (t : nat) (p' : pc) (s' : state) (sys : system) : system :=
  set_threads (<[t := p']> (threads sys)) (set_st s' sys).

(** ** Further definitions *)

(** The database with document [id] of collection [coll] set to [d]. *)
Definition db_put (d : gmap string collection) (coll id : string) (doc : dict)
    : gmap string collection :=
  <[coll := <[id := doc]> (collection_of d coll)]> d.

(** Whether a call wrote the calibrated reading, seen from outside. *)
Definition created (cfg : config) (doc_id : string) (s s' : state) : Prop :=
  collection_of (db s) (CALIBRATED_COLLECTION cfg) !! doc_id = None ∧
  is_Some (collection_of (db s') (CALIBRATED_COLLECTION cfg) !! doc_id).

(** The database after a call that stored the calibrated reading: with the
    reading, and with the source document updated if the update completed. *)
Definition db_after_writes (cfg : config) (doc_id : string)
    (d d' : gmap string collection) : Prop :=
  ∃ x,
    let d1 := db_put d (CALIBRATED_COLLECTION cfg) doc_id x in
    d' = d1 ∨
    ∃ old t,
      collection_of d1 (RAW_COLLECTION cfg) !! doc_id = Some old ∧
      d' = db_put d1 (RAW_COLLECTION cfg) doc_id
             (resolve t processed_fields ∪ old).

(** The store call that comes after [n] others completes. *)
Definition call_completes (n : nat) (s : state) : Prop :=
  next_call_completes (set_faults (drop n (faults s)) s).

(** What it takes for [process_document doc_id data] in [s] to write the
    calibrated reading: the read of the first guard completes and finds
    nothing, the document is not flagged as processed, it holds the five
    channels, the model answers at least five values, and the store
    completes the write. *)
Definition writes_reading (cfg : config) (doc_id : string) (data : dict)
    (s : state) : Prop :=
  next_call_completes s ∧
  collection_of (db s) (CALIBRATED_COLLECTION cfg) !! doc_id = None ∧
  eq_True (data !! "processed") = false ∧
  (∃ row c0 c1 c2 c3 c4 rest,
     prepare_input data = Ok row ∧
     model_predict cfg row = Ok (c0 :: c1 :: c2 :: c3 :: c4 :: rest)) ∧
  call_completes 1 s.

(** Whether an event is a call of the document processor. *)
Definition is_process (e : event) : bool :=
  match e with
  | Process _ _ => true
  | _ => false
  end.

(** Whether an event is a store call or a model inference. *)
Definition is_store_or_predict (e : event) : bool :=
  match e with
  | Store _ _ | Predict _ _ => true
  | _ => false
  end.

(** The two states agree on everything but the printed lines. *)
Definition same_effects (s1 s2 : state) : Prop :=
  db s1 = db s2 ∧ server_time s1 = server_time s2 ∧ faults s1 = faults s2 ∧
  watches s1 = watches s2 ∧ trace s1 = trace s2 ∧
  last_processed_doc_id s1 = last_processed_doc_id s2 ∧
  initial_snapshot_received s1 = initial_snapshot_received s2.

(** Batches handled one after the other. *)
Fixpoint on_snapshots (cfg : config) (batches : list (list change)) : M unit :=
  match batches with
  | [] => ret tt
  | changes :: rest => on_snapshot cfg changes;; on_snapshots cfg rest
  end.

(** A statement keeps the relation [R] between the state before and the
    state after, however it ends. *)
Definition preserves (R : relation state) {A} (m : M A) : Prop :=
  ∀ s r s', m s = (r, s') → R s s'.

(** Two statements do the same, up to the printed lines, in two states
    that agree up to the printed lines. *)
Definition alike {A} (m1 m2 : M A) : Prop :=
  ∀ s1 s2, same_effects s1 s2 →
    (m1 s1).1 = (m2 s2).1 ∧ same_effects (m1 s1).2 (m2 s2).2.

(** The state after extends the trace of the state before by events of
    class [P]. *)
Definition emits_only (P : event → bool) : relation state :=
  λ s s', ∃ evs, trace s' = trace s ++ evs ∧ Forall (λ e, P e = true) evs.

(** An exhausted fault schedule stays exhausted. *)
Definition no_new_faults : relation state :=
  λ s s', faults s = [] → faults s' = [].

(** The flag stays set and no listener is detached. *)
Definition nothing_undone : relation state :=
  λ s s',
    (initial_snapshot_received s = true → initial_snapshot_received s' = true) ∧
    (watches s ≤ watches s')%nat.

(** An ordering of field values that is total and transitive, as the
    store's is: timestamps by their time, above every other value. *)
Definition timestamp_leb (a b : value) : bool :=
  match a, b with
  | VTimestamp x, VTimestamp y => x <=? y
  | VTimestamp _, _ => false
  | _, _ => true
  end.

Definition ordered_config : config :=
  Config "npk_readings" "calibrated_npk_readings_sensor_1" sample_model
    timestamp_leb.

(** [sample_state_listening] after the batch that announces [r1]. *)
Definition sample_state_calibrated : state :=
  (on_snapshot ordered_config [(ADDED, "r1")] sample_state_listening).2.

(** Both environment variables name the same collection. *)
Definition same_collection_config : config :=
  Config "npk_readings" "npk_readings" sample_model sample_leb.

(** The store fails the call that attaches the listener. *)
Definition sample_system_attach_fails : system :=
  initial_system sample_db 1000 [None; Some (Error "unavailable")].

(** ** main.py: the control surface *)

(** The JSON object a handler returns. *)
Abbreviation response := (gmap string string).

(** The lines [main.py] prints, kept apart from those of the worker. *)
Inductive server_msg :=
| LogServerStarted
| LogServerShuttingDown.

(** The process: the worker module and what [main.py] printed. *)
Record server := Server {
  worker : system;
  console : list server_msg;
}.

(** [startup_event] *)
Definition startup_event (srv : server) : server :=
  Server (start_worker (worker srv)).2 (console srv ++ [LogServerStarted]).

(** [shutdown_event] *)
Definition shutdown_event (srv : server) : server :=
  Server (stop_worker (worker srv)).2 (console srv ++ [LogServerShuttingDown]).

(** [home] *)
Definition home : response :=
  <["status" := "running"]>
  (<["message" := "NPK Calibration Service is active"]> ∅).

(** [start] *)
Definition start (sys : system) : response * system :=
  let '(msg, sys') := start_worker sys in
  (<["status" := msg]> ∅, sys').

(** [stop] *)
Definition stop (sys : system) : response * system :=
  let '(msg, sys') := stop_worker sys in
  (<["status" := msg]> ∅, sys').

(** [health] *)
Definition health : response :=
  <["status" := "ok"]> (<["message" := "Server is healthy"]> ∅).

(** The routes declared by the decorators of [main.py]. *)
Inductive request :=
| GET_root
| POST_start
| POST_stop
| GET_health.

Definition route (r : request) (sys : system) : response * system :=
  match r with
  | GET_root => (home, sys)
  | POST_start => start sys
  | POST_stop => stop sys
  | GET_health => (health, sys)
  end.

(** Requests served one after the other. *)
Fixpoint serve (rs : list request) (sys : system) : list response * system :=
  match rs with
  | [] => ([], sys)
  | r :: rest =>
      let '(resp, sys1) := route r sys in
      let '(resps, sys2) := serve rest sys1 in
      (resp :: resps, sys2)
  end.

(** The answer of [POST /start] that started a listener thread. *)
Definition started_response : response := <["status" := "Worker started"]> ∅.

(** ** worker.py: initialisation of the Firebase app *)

(** What [initialize_firebase] asks of its surroundings. *)
Inductive init_event :=
| GetEnv (name : string)
| JsonLoads (text : string)
| CertificateOfInfo
| CertificateOfFile (path : string)
| InitializeApp.

Inductive init_msg :=
| LogAlreadyInitialized
| LogCredentialsFromEnvironment
| LogCredentialsFromFile
| LogInitialized.

Definition FIREBASE_CREDENTIALS_JSON : string := "FIREBASE_CREDENTIALS_JSON".

Definition LOCAL_CREDENTIALS : string :=
  "esp32sensor-10e27-firebase-adminsdk-u1xzy-56f4449de5.json".

Section Firebase.
(** Parsed JSON and credentials are whatever the libraries make them. *)
Context (J C : Type).

(** [json.loads], [credentials.Certificate] on a parsed object and on a
    path, and [firebase_admin.initialize_app], each with the exception it
    may raise. *)
Record admin_sdk := AdminSdk {
  json_loads : string → outcome J;
  Certificate_info : J → outcome C;
  Certificate_file : string → outcome C;
  initialize_app : C → option exn;
}.

(** The default app of [firebase_admin] ([None]: [get_app] raises
    [ValueError]), the calls made and the lines printed. *)
Record firebase := Firebase {
  default_app : option C;
  init_trace : list init_event;
  init_stdout : list init_msg;
}.

Definition init_call (e : init_event) (fb : firebase) : firebase :=
  Firebase (default_app fb) (init_trace fb ++ [e]) (init_stdout fb).

Definition init_print (l : init_msg) (fb : firebase) : firebase :=
  Firebase (default_app fb) (init_trace fb) (init_stdout fb ++ [l]).

(** [firebase_admin.initialize_app(cred)] and the line after it. *)
Definition initialize_with (sdk : admin_sdk) (cred : C) (fb : firebase)
    : outcome unit * firebase :=
  let fb := init_call InitializeApp fb in
  match initialize_app sdk cred with
  | Some e => (Raise e, fb)
  | None =>
      (Ok tt,
       init_print LogInitialized
         (Firebase (Some cred) (init_trace fb) (init_stdout fb)))
  end.

(** [initialize_firebase]; [if firebase_creds_json:] holds for a string
    that is not empty.  An exception raised inside the handler of
    [ValueError] leaves the function. *)
Definition initialize_firebase (sdk : admin_sdk) (environ : gmap string string)
    (fb : firebase) : outcome unit * firebase :=
  match default_app fb with
  | Some _ => (Ok tt, init_print LogAlreadyInitialized fb)
  | None =>
      let fb := init_call (GetEnv FIREBASE_CREDENTIALS_JSON) fb in
      let firebase_creds_json := environ !! FIREBASE_CREDENTIALS_JSON in
      match firebase_creds_json with
      | Some (String c text) =>
          let fb := init_call (JsonLoads (String c text)) fb in
          match json_loads sdk (String c text) with
          | Raise e => (Raise e, fb)
          | Ok cred_dict =>
              let fb := init_call CertificateOfInfo fb in
              match Certificate_info sdk cred_dict with
              | Raise e => (Raise e, fb)
              | Ok cred =>
                  initialize_with sdk cred
                    (init_print LogCredentialsFromEnvironment fb)
              end
          end
      | _ =>
          let fb := init_call (CertificateOfFile LOCAL_CREDENTIALS) fb in
          match Certificate_file sdk LOCAL_CREDENTIALS with
          | Raise e => (Raise e, fb)
          | Ok cred =>
              initialize_with sdk cred (init_print LogCredentialsFromFile fb)
          end
      end
  end.
End Firebase.

Arguments AdminSdk {J C}.
Arguments json_loads {J C}.
Arguments Certificate_info {J C}.
Arguments Certificate_file {J C}.
Arguments initialize_app {J C}.
Arguments Firebase {C}.
Arguments default_app {C}.
Arguments init_trace {C}.
Arguments init_stdout {C}.
Arguments init_print {C}.
Arguments init_call {C}.
Arguments initialize_with {J C}.
Arguments initialize_firebase {J C}.

(** A process with no app yet. *)
Definition fresh_firebase {C} : firebase C := Firebase None [] [].

(** Libraries that accept everything: the parsed object is the text, the
    credential the object or the path. *)
Definition sample_sdk : admin_sdk string string :=
  AdminSdk (λ text, Ok text) (λ info, Ok info) (λ path, Ok path) (λ _, None).

(** Libraries that refuse the service account. *)
Definition refusing_sdk : admin_sdk string string :=
  AdminSdk (λ text, Ok text) (λ info, Ok info) (λ path, Ok path)
    (λ _, Some (Error "invalid credential")).

(** The environment of the deployment: the credentials are in the variable. *)
Definition sample_environ : gmap string string :=
  <[FIREBASE_CREDENTIALS_JSON := "{}"]> ∅.

(** [reading_r1] flagged as processed by a writer that stores [1]. *)
Definition reading_r1_flagged : dict := <["processed" := VInt 1]> reading_r1.

(** The store fails the third call, the update of the source document. *)
Definition sample_state_update_fails : state :=
  initial_state sample_db 1000 [None; None; Some (Error "unavailable")].

(** A raw collection whose latest reading lacks two channels; the initial
    snapshot has been seen. *)
Definition sample_state_stuck : state :=
  set_initial_snapshot_received true
    (initial_state (<["npk_readings" := <["r0" := reading_r0]> ∅]> ∅) 1000 []).

(** The app after a first initialisation. *)
Definition sample_firebase : firebase string :=
  (initialize_firebase sample_sdk sample_environ fresh_firebase).2.

(** The worker started and attached, before any batch. *)
Definition sample_system_attached : system :=
  run_schedule default_config
    [StartRequest; Thread 0; Thread 0; Thread 0] sample_system.

(** The way out of [process_document] through the check of the channels:
    the read of the first guard completed, no other call was made, and
    the [KeyError] of [prepare_input] was printed. *)
Definition validation_failure (cfg : config) (doc_id : string) (data : dict)
    (s s' : state) : Prop :=
  ∃ k, k ∈ required ∧ data !! k = None ∧
    events_since s s' =
      [Process doc_id data;
       Store (Get (CALIBRATED_COLLECTION cfg) doc_id) None] ∧
    stdout s' = stdout s ++
      [LogProcessing doc_id;
       LogMissingField doc_id (KeyError (String.append "Missing field: " k))].

(** The claim about a reading that lacks a channel, as the specification
    words it: the call fails through the validation and writes nothing. *)
Definition fails_validation_without_write (cfg : config) (doc_id : string)
    (data : dict) (s : state) : Prop :=
  ∃ s',
    process_document cfg doc_id data s = (Ok false, s') ∧
    validation_failure cfg doc_id data s s' ∧
    db s' = db s ∧
    filter (λ e, is_write e = true) (events_since s s') = [].

(** [reading_r0], which lacks [pH], flagged as processed. *)
Definition reading_r0_flagged : dict :=
  <["processed" := VBool true]> reading_r0.

(** ** The listener at work *)

(** What reaches the worker once the listener is attached: a batch of
    changes handed to [on_snapshot], or a reading the ingestion path stores
    in the raw collection (as [ingest] does for the threads). *)
Inductive input :=
| Batch (changes : list change)
| Arrival (doc_id : string) (data : dict).

Definition feed (cfg : config) (i : input) : M unit :=
  match i with
  | Batch changes => on_snapshot cfg changes
  | Arrival doc_id data => modify (write_doc (RAW_COLLECTION cfg) doc_id data)
  end.

Fixpoint feeds (cfg : config) (inputs : list input) : M unit :=
  match inputs with
  | [] => ret tt
  | i :: rest => feed cfg i;; feeds cfg rest
  end.

(** Every reading arrives under an id the raw collection does not hold
    when it arrives. *)
Fixpoint only_new_ids (cfg : config) (inputs : list input) (s : state) : Prop :=
  match inputs with
  | [] => True
  | i :: rest =>
      match i with
      | Arrival doc_id _ =>
          collection_of (db s) (RAW_COLLECTION cfg) !! doc_id = None
      | Batch _ => True
      end ∧ only_new_ids cfg rest (feed cfg i s).2
  end.

(** The ids handed to [process_document], in order. *)
Definition processed_ids (evs : list event) : list string :=
  omap (λ e, match e with Process doc_id _ => Some doc_id | _ => None end) evs.

(** Pre-existing data is never reprocessed, as the specification words
    it: [start_listener] runs in [s], then the listener is fed [inputs],
    and no document the raw collection held in [s] is handed to the
    processor. *)
Definition preexisting_never_reprocessed (cfg : config) (s : state)
    (inputs : list input) : Prop :=
  let s' := (start_listener_setup cfg s).2 in
  ∀ doc_id,
    doc_id ∈ processed_ids (events_since s' (feeds cfg inputs s').2) →
    collection_of (db s) (RAW_COLLECTION cfg) !! doc_id = None.






(** The initial snapshot, then the latest reading is stored again with an
    older timestamp. *)
Definition overwritten_inputs : list input :=
  [Batch [(ADDED, "r0"); (ADDED, "r1")];
   Arrival "r1" (<["timestamp" := VTimestamp 10]> reading_r1);
   Batch [(MODIFIED, "r1")]].

(** * Proofs *)

(** Unfolding the statements of the embedding down to state passing. *)
Ltac unfold_monad :=
  unfold try_except, lift, raise, emit, print, modify, get_state,
    mbind, M_bind, bind, mret, M_ret, ret in *.

Ltac unfold_store :=
  unfold doc_get, doc_set, doc_update, query_latest, watch, next_fault in *.

Ltac unfold_processor :=
  unfold process_document, process_document_body, predict, index in *;
  unfold_store; unfold_monad.

Ltac split_cases := repeat (case_match; simplify_eq/=).

(** ** The document processor *)

Lemma check_required_missing (keys : list string) (data : dict) (key : string) :
  key ∈ keys → data !! key = None →
  ∃ k, k ∈ keys ∧ data !! k = None ∧
       check_required keys data = Raise (KeyError (String.append "Missing field: " k)).
Proof.
  induction keys as [|k0 keys IH]; intros Hin Hnone.
  - by apply elem_of_nil in Hin.
  - simpl. destruct (data !! k0) eqn:Hk0.
    + apply elem_of_cons in Hin as [->|Hin]; [congruence|].
      destruct (IH Hin Hnone) as (k & Hk & Hd & Hc).
      exists k. split; [by apply elem_of_cons; right|done].
    + exists k0. split; [by apply elem_of_cons; left|done].
Qed.

Lemma prepare_input_missing (data : dict) (key : string) :
  key ∈ required → data !! key = None →
  ∃ k, k ∈ required ∧ data !! k = None ∧
       prepare_input data = Raise (KeyError (String.append "Missing field: " k)).
Proof.
  intros Hin Hnone.
  destruct (check_required_missing required data key Hin Hnone) as (k & Hk & Hd & Hc).
  exists k. unfold prepare_input. by rewrite Hc.
Qed.

Ltac finish_state := simpl; rewrite <- ?app_assoc; simpl.
Ltac solve_state := split_and!; try reflexivity; finish_state; try reflexivity.

(** [process_document] always returns; it leaves the globals of the
    reconciler and the listeners alone, and its first event is the call
    itself. *)
Lemma process_document_returns cfg doc_id data s :
  ∃ b s' rest,
    process_document cfg doc_id data s = (Ok b, s') ∧
    last_processed_doc_id s' = last_processed_doc_id s ∧
    initial_snapshot_received s' = initial_snapshot_received s ∧
    watches s' = watches s ∧
    trace s' = trace s ++ Process doc_id data :: rest.
Proof.
  unfold_processor.
  split_cases; do 3 eexists; solve_state.
Qed.

(** Guard A: a calibrated reading is there already. *)
Lemma process_document_already_calibrated cfg doc_id data s :
  next_call_completes s →
  is_Some (collection_of (db s) (CALIBRATED_COLLECTION cfg) !! doc_id) →
  ∃ s',
    process_document cfg doc_id data s = (Ok false, s') ∧
    db s' = db s ∧
    trace s' = trace s ++
      [Process doc_id data; Store (Get (CALIBRATED_COLLECTION cfg) doc_id) None] ∧
    stdout s' = stdout s ++ [LogProcessing doc_id; LogAlreadyCalibrated doc_id].
Proof.
  intros Hnext Hsome. unfold next_call_completes in Hnext.
  unfold_processor. simpl.
  destruct (faults s) as [|[e|] fs] eqn:Hf; simpl in *;
    [|destruct Hnext; discriminate|];
    rewrite bool_decide_eq_true_2 by done;
    eexists; solve_state.
Qed.

(** The successful path, by what it leaves behind. *)
Lemma process_document_success cfg doc_id data s s' :
  process_document cfg doc_id data s = (Ok true, s') →
  ∃ row out c0 c1 c2 c3 c4 old,
    prepare_input data = Ok row ∧ model_predict cfg row = Ok out ∧
    out !! 0%nat = Some c0 ∧ out !! 1%nat = Some c1 ∧ out !! 2%nat = Some c2 ∧
    out !! 3%nat = Some c3 ∧ out !! 4%nat = Some c4 ∧
    collection_of (db s) (CALIBRATED_COLLECTION cfg) !! doc_id = None ∧
    eq_True (data !! "processed") = false ∧
    let merged := merge data (calibrated_dict c0 c1 c2 c3 c4) in
    let db1 := <[CALIBRATED_COLLECTION cfg :=
                   <[doc_id := resolve (server_time s) merged]>
                     (collection_of (db s) (CALIBRATED_COLLECTION cfg))]> (db s) in
    trace s' = trace s ++
      [Process doc_id data;
       Store (Get (CALIBRATED_COLLECTION cfg) doc_id) None;
       Predict row true;
       Store (Set_ (CALIBRATED_COLLECTION cfg) doc_id merged) None;
       Store (Update (RAW_COLLECTION cfg) doc_id processed_fields) None] ∧
    stdout s' = stdout s ++ [LogProcessing doc_id; LogSaved doc_id] ∧
    collection_of db1 (RAW_COLLECTION cfg) !! doc_id = Some old ∧
    db s' = <[RAW_COLLECTION cfg :=
                <[doc_id := resolve (server_time s + 1) processed_fields ∪ old]>
                  (collection_of db1 (RAW_COLLECTION cfg))]> db1.
Proof.
  intros H. unfold_processor.
  split_cases.
  all: do 8 eexists; cbv zeta; finish_state.
  all: repeat (split; [first [eassumption | reflexivity
         | by apply eq_None_not_Some; eapply bool_decide_eq_false_1]|]).
  all: reflexivity.
Qed.

(** A document that lacks a required channel: no write, whatever path the
    call takes. *)
Lemma process_document_missing cfg doc_id data s key :
  key ∈ required → data !! key = None →
  ∃ s' r,
    process_document cfg doc_id data s = (Ok false, s') ∧
    db s' = db s ∧
    trace s' = trace s ++
      [Process doc_id data; Store (Get (CALIBRATED_COLLECTION cfg) doc_id) r] ∧
    (next_call_completes s →
     collection_of (db s) (CALIBRATED_COLLECTION cfg) !! doc_id = None →
     eq_True (data !! "processed") = false →
     ∃ k, k ∈ required ∧ data !! k = None ∧
          stdout s' = stdout s ++
            [LogProcessing doc_id;
             LogMissingField doc_id (KeyError (String.append "Missing field: " k))]).
Proof.
  intros Hin Hnone.
  destruct (prepare_input_missing data key Hin Hnone) as (k & Hk & Hd & Hp).
  unfold next_call_completes.
  unfold_processor. rewrite Hp. simpl.
  destruct (faults s) as [|[e|] fs] eqn:Hf; simpl.
  2: { destruct e; do 2 eexists; solve_state; intros [?|?]; discriminate. }
  all: destruct (collection_of (db s) (CALIBRATED_COLLECTION cfg) !! doc_id) eqn:Hc;
    [rewrite bool_decide_eq_true_2 by eauto
    |rewrite bool_decide_eq_false_2 by (by intros [? ?])];
    simpl; [do 2 eexists; solve_state; intros; discriminate|].
  all: destruct (eq_True (data !! "processed")) eqn:Hpr; simpl;
    do 2 eexists; solve_state; intros; try discriminate.
  all: exists k; split_and!; auto.
Qed.

Lemma events_since_app (s s' : state) (evs : list event) :
  trace s' = trace s ++ evs → events_since s s' = evs.
Proof. intros H. unfold events_since. rewrite H. apply drop_app_length. Qed.

(** ** One call of the processor, statement by statement *)

Lemma bind_ok {A B} (m : M A) (k : A → M B) s a s1 :
  m s = (Ok a, s1) → (m ≫= k) s = k a s1.
Proof. intros H. unfold mbind, M_bind, bind. by rewrite H. Qed.

Lemma bind_raise {A B} (m : M A) (k : A → M B) s e s1 :
  m s = (Raise e, s1) → (m ≫= k) s = (Raise e, s1).
Proof. intros H. unfold mbind, M_bind, bind. by rewrite H. Qed.

(** The three calls of the store client the processor makes: a call that
    raises leaves the database alone. *)
Lemma doc_get_cases coll id s :
  (∃ e s',
     doc_get coll id s = (Raise e, s') ∧ ¬ next_call_completes s ∧
     db s' = db s ∧ stdout s' = stdout s ∧ faults s' = tail (faults s) ∧
     trace s' = trace s ++ [Store (Get coll id) (Some e)]) ∨
  (∃ s',
     doc_get coll id s = (Ok (collection_of (db s) coll !! id), s') ∧
     next_call_completes s ∧
     db s' = db s ∧ stdout s' = stdout s ∧ faults s' = tail (faults s) ∧
     trace s' = trace s ++ [Store (Get coll id) None]).
Proof.
  unfold next_call_completes, doc_get, next_fault. unfold_monad. simpl.
  destruct (faults s) as [|[e|] fs] eqn:Hf; simpl.
  - right. eexists. split_and!; try reflexivity; [by left|]. simpl. by rewrite Hf.
  - left. exists e. eexists. split_and!; try reflexivity.
    intros [?|?]; discriminate.
  - right. eexists. split_and!; try reflexivity. by right.
Qed.

Lemma doc_set_cases coll id p s :
  (∃ e s',
     doc_set coll id p s = (Raise e, s') ∧ ¬ next_call_completes s ∧
     db s' = db s ∧ stdout s' = stdout s ∧ faults s' = tail (faults s) ∧
     trace s' = trace s ++ [Store (Set_ coll id p) (Some e)]) ∨
  (∃ s',
     doc_set coll id p s = (Ok tt, s') ∧ next_call_completes s ∧
     db s' = <[coll := <[id := resolve (server_time s) p]>
                         (collection_of (db s) coll)]> (db s) ∧
     stdout s' = stdout s ∧ faults s' = tail (faults s) ∧
     trace s' = trace s ++ [Store (Set_ coll id p) None]).
Proof.
  unfold next_call_completes, doc_set, next_fault. unfold_monad. simpl.
  destruct (faults s) as [|[e|] fs] eqn:Hf; simpl.
  - right. eexists. split_and!; try reflexivity; [by left|]. simpl. by rewrite Hf.
  - left. exists e. eexists. split_and!; try reflexivity.
    intros [?|?]; discriminate.
  - right. eexists. split_and!; try reflexivity. by right.
Qed.

Lemma doc_update_cases coll id p s :
  (∃ e s',
     doc_update coll id p s = (Raise e, s') ∧
     db s' = db s ∧ stdout s' = stdout s ∧ faults s' = tail (faults s) ∧
     trace s' = trace s ++ [Store (Update coll id p) (Some e)]) ∨
  (∃ old s',
     doc_update coll id p s = (Ok tt, s') ∧
     collection_of (db s) coll !! id = Some old ∧
     db s' = <[coll := <[id := resolve (server_time s) p ∪ old]>
                         (collection_of (db s) coll)]> (db s) ∧
     stdout s' = stdout s ∧ faults s' = tail (faults s) ∧
     trace s' = trace s ++ [Store (Update coll id p) None]).
Proof.
  unfold doc_update, next_fault. unfold_monad. simpl.
  destruct (faults s) as [|[e|] fs] eqn:Hf; simpl.
  2: { left. exists e. eexists. split_and!; reflexivity. }
  all: destruct (collection_of (db s) coll !! id) as [old|] eqn:Hold; simpl.
  all: first [ right; exists old; eexists; split_and!;
               first [reflexivity | by (simpl; rewrite Hf)]
             | left; exists NotFound; eexists; split_and!;
               first [reflexivity | by (simpl; rewrite Hf)] ].
Qed.

(** The model and the five subscripts of its answer: an inference, no
    store call. *)
Lemma predict_five cfg row s :
  (∃ c0 c1 c2 c3 c4 rest,
     model_predict cfg row = Ok (c0 :: c1 :: c2 :: c3 :: c4 :: rest) ∧
     ∀ B (k : Z → Z → Z → Z → Z → M B),
       (calibrated ← predict cfg row;
        c0 ← index calibrated 0; c1 ← index calibrated 1;
        c2 ← index calibrated 2; c3 ← index calibrated 3;
        c4 ← index calibrated 4; k c0 c1 c2 c3 c4) s
       = k c0 c1 c2 c3 c4 (add_event (Predict row true) s)) ∨
  (∃ e ok,
     (∀ c0 c1 c2 c3 c4 rest,
        model_predict cfg row ≠ Ok (c0 :: c1 :: c2 :: c3 :: c4 :: rest)) ∧
     ∀ B (k : Z → Z → Z → Z → Z → M B),
       (calibrated ← predict cfg row;
        c0 ← index calibrated 0; c1 ← index calibrated 1;
        c2 ← index calibrated 2; c3 ← index calibrated 3;
        c4 ← index calibrated 4; k c0 c1 c2 c3 c4) s
       = (Raise e, add_event (Predict row ok) s)).
Proof.
  unfold predict, index. unfold_monad.
  destruct (model_predict cfg row) as [out|e]; simpl.
  - destruct out as [|c0 [|c1 [|c2 [|c3 [|c4 rest]]]]]; simpl;
      try (right; exists IndexError, true; split; [done|reflexivity]).
    left. exists c0, c1, c2, c3, c4, rest. split; reflexivity.
  - right. exists e, false. split; [done|reflexivity].
Qed.

(** A reading that lacks a channel, by the way the call ends: the read of
    the first guard fails, or a guard fires, or the check of the channels
    raises. *)
Lemma process_document_missing_paths cfg doc_id data s key :
  key ∈ required → data !! key = None →
  ∃ s' r line,
    process_document cfg doc_id data s = (Ok false, s') ∧
    db s' = db s ∧
    trace s' = trace s ++
      [Process doc_id data; Store (Get (CALIBRATED_COLLECTION cfg) doc_id) r] ∧
    stdout s' = stdout s ++ [LogProcessing doc_id; line] ∧
    ((is_Some r ∧ ¬ next_call_completes s) ∨
     (r = None ∧ next_call_completes s ∧
      ((is_Some (collection_of (db s) (CALIBRATED_COLLECTION cfg) !! doc_id) ∧
        line = LogAlreadyCalibrated doc_id) ∨
       (collection_of (db s) (CALIBRATED_COLLECTION cfg) !! doc_id = None ∧
        eq_True (data !! "processed") = true ∧
        line = LogAlreadyProcessed doc_id) ∨
       (collection_of (db s) (CALIBRATED_COLLECTION cfg) !! doc_id = None ∧
        eq_True (data !! "processed") = false ∧
        ∃ k, k ∈ required ∧ data !! k = None ∧
             line = LogMissingField doc_id
                      (KeyError (String.append "Missing field: " k)))))).
Proof.
  intros Hin Hnone.
  destruct (prepare_input_missing data key Hin Hnone) as (k & Hk & Hd & Hp).
  unfold process_document.
  rewrite (bind_ok _ _ s tt (add_event (Process doc_id data) s)) by reflexivity.
  unfold try_except, process_document_body.
  rewrite (bind_ok _ _ _ tt
             (add_line (LogProcessing doc_id) (add_event (Process doc_id data) s)))
    by reflexivity.
  destruct (doc_get_cases (CALIBRATED_COLLECTION cfg) doc_id
              (add_line (LogProcessing doc_id)
                 (add_event (Process doc_id data) s)))
    as [(e & s1 & Hget & Hfault & Hdb1 & Hout1 & _ & Htr1)
       |(s1 & Hget & Hnext & Hdb1 & Hout1 & _ & Htr1)]; simpl in *.
  { rewrite (bind_raise _ _ _ _ _ Hget).
    assert (∃ line,
              (match e with
               | KeyError _ => print (LogMissingField doc_id e);; ret false
               | _ => print (LogError doc_id e);; ret false
               end) s1 = (Ok false, add_line line s1)) as [line ->]
      by (destruct e; eexists; reflexivity).
    exists (add_line line s1), (Some e), line. split_and!; try done.
    - simpl. by rewrite Htr1, <- app_assoc.
    - simpl. by rewrite Hout1, <- app_assoc.
    - left. split; [eauto|done]. }
  rewrite (bind_ok _ _ _ _ _ Hget).
  destruct (collection_of (db s) (CALIBRATED_COLLECTION cfg) !! doc_id)
    as [stored|] eqn:Hc.
  { rewrite bool_decide_eq_true_2 by eauto.
    exists (add_line (LogAlreadyCalibrated doc_id) s1), None,
      (LogAlreadyCalibrated doc_id).
    split_and!; try done.
    - simpl. by rewrite Htr1, <- app_assoc.
    - simpl. by rewrite Hout1, <- app_assoc.
    - right. split_and!; try done. left. eauto. }
  rewrite bool_decide_eq_false_2 by (by intros [? ?]).
  destruct (eq_True (data !! "processed")) eqn:Hflag.
  { exists (add_line (LogAlreadyProcessed doc_id) s1), None,
      (LogAlreadyProcessed doc_id).
    split_and!; try done.
    - simpl. by rewrite Htr1, <- app_assoc.
    - simpl. by rewrite Hout1, <- app_assoc.
    - right. split_and!; try done. right. left. done. }
  rewrite Hp.
  rewrite (bind_raise _ _ s1 _ s1) by reflexivity.
  eexists (add_line _ s1), None, _. split_and!; try reflexivity.
  - done.
  - simpl. by rewrite Htr1, <- app_assoc.
  - simpl. by rewrite Hout1, <- app_assoc.
  - right. split_and!; try done. right. right. split_and!; try done.
    exists k. done.
Qed.

(** C4, amended. A document that lacks at least one of the five channels
    [N], [P], [K], [pH], [Conductivity]: [process_document] returns [False]
    and performs no store write (the database is unchanged, so no calibrated
    reading is created and [processed] is not set; no completed write is in
    the trace). The way out is the validation failure, the [KeyError] of
    [prepare_input] printed by its handler, exactly when the store read of
    the first guard completes, no calibrated reading is stored at [doc_id]
    and the document is not flagged as processed; otherwise the call has
    left before, through the handler of the failed read or through one of
    the two guards. *)
Theorem process_document_missing_field cfg doc_id data s key :
  key ∈ required → data !! key = None →
  ∃ s',
    process_document cfg doc_id data s = (Ok false, s') ∧
    db s' = db s ∧
    filter (λ e, is_write e = true) (events_since s s') = [] ∧
    (validation_failure cfg doc_id data s s' ↔
     next_call_completes s ∧
     collection_of (db s) (CALIBRATED_COLLECTION cfg) !! doc_id = None ∧
     eq_True (data !! "processed") = false).
Proof.
  intros Hin Hnone.
  destruct (process_document_missing_paths cfg doc_id data s key Hin Hnone)
    as (s' & r & line & Hrun & Hdb & Htrace & Hout & Hpath).
  exists s'. split_and!; try done.
  { rewrite (events_since_app _ _ _ Htrace). by destruct r. }
  unfold validation_failure. rewrite (events_since_app _ _ _ Htrace), Hout.
  split.
  - intros (k & _ & _ & Hev & Hline).
    injection Hev as ->. apply app_inv_head in Hline. injection Hline as ->.
    destruct Hpath as [[[? [=]] _]|(_ & Hnext & Hguards)].
    destruct Hguards as [[_ [=]]|[(_ & _ & [=])|(? & ? & _)]]. done.
  - intros (Hnext & Hfree & Hflag).
    destruct Hpath as [[_ Hfault]|(-> & _ & Hguards)]; [done|].
    destruct Hguards as [[[? Hsome] _]|[(_ & Htrue & _)|(_ & _ & k & Hk & Hd & ->)]];
      [congruence|congruence|].
    exists k. done.
Qed.

(** C5. [process_document] never propagates an exception: it always
    returns a boolean; whatever exception the body of its [try] raises, at
    whatever step, the call returns [False]; and it returns [True] only
    when the features were built, the model answered five values, and both
    the write to the destination and the update of the source completed,
    in this order. *)
Theorem process_document_never_raises cfg doc_id data s :
  (∃ b s', process_document cfg doc_id data s = (Ok b, s')) ∧
  (∀ e s1,
     process_document_body cfg doc_id data (add_event (Process doc_id data) s)
       = (Raise e, s1) →
     ∃ s', process_document cfg doc_id data s = (Ok false, s') ∧
           db s' = db s1 ∧ trace s' = trace s1) ∧
  (∀ s',
     process_document cfg doc_id data s = (Ok true, s') →
     ∃ row out c0 c1 c2 c3 c4,
       prepare_input data = Ok row ∧
       model_predict cfg row = Ok out ∧
       out !! 0%nat = Some c0 ∧ out !! 1%nat = Some c1 ∧ out !! 2%nat = Some c2 ∧
       out !! 3%nat = Some c3 ∧ out !! 4%nat = Some c4 ∧
       events_since s s' =
         [Process doc_id data;
          Store (Get (CALIBRATED_COLLECTION cfg) doc_id) None;
          Predict row true;
          Store (Set_ (CALIBRATED_COLLECTION cfg) doc_id
                   (merge data (calibrated_dict c0 c1 c2 c3 c4))) None;
          Store (Update (RAW_COLLECTION cfg) doc_id processed_fields) None]).
Proof.
  split_and!.
  - destruct (process_document_returns cfg doc_id data s) as (b & s' & ? & H & _).
    eauto.
  - intros e s1 Hbody.
    unfold process_document. unfold_monad. simpl. rewrite Hbody.
    destruct e; eexists; solve_state.
  - intros s' Hrun.
    destruct (process_document_success _ _ _ _ _ Hrun)
      as (row & out & c0 & c1 & c2 & c3 & c4 & old & Hrow & Hout & H0 & H1 & H2
          & H3 & H4 & _ & _ & Htrace & _).
    exists row, out, c0, c1, c2, c3, c4. split_and!; try done.
    by apply events_since_app.
Qed.

Lemma lookup_resolve (now : Z) (p : payload) (k : string) :
  resolve now p !! k =
  (λ f, match f with Lit v => v | SERVER_TIMESTAMP => VTimestamp now end) <$> p !! k.
Proof. unfold resolve. apply lookup_fmap. Qed.

(** What the server stores for the merged payload. *)
Lemma resolve_merge_calibrated now data c0 c1 c2 c3 c4 :
  let written := resolve now (merge data (calibrated_dict c0 c1 c2 c3 c4)) in
  written !! "calibrated_N" = Some (VFloat c0) ∧
  written !! "calibrated_P" = Some (VFloat c1) ∧
  written !! "calibrated_K" = Some (VFloat c2) ∧
  written !! "calibrated_pH" = Some (VFloat c3) ∧
  written !! "calibrated_Conductivity" = Some (VFloat c4) ∧
  written !! "calibrated_timestamp" = Some (VTimestamp now) ∧
  (∀ k, k ∉ calibrated_keys → written !! k = data !! k).
Proof.
  cbv zeta. unfold merge, calibrated_dict.
  split_and!; try (rewrite lookup_resolve; by simplify_map_eq).
  intros k Hk. unfold calibrated_keys in Hk.
  rewrite !not_elem_of_cons in Hk. destruct Hk as (?&?&?&?&?&?&_).
  rewrite lookup_resolve, lookup_union_r by (by simplify_map_eq).
  rewrite lookup_fmap. by destruct (data !! k).
Qed.

Lemma list_lookup_five {A} (l : list A) (a0 a1 a2 a3 a4 : A) :
  l !! 0%nat = Some a0 → l !! 1%nat = Some a1 → l !! 2%nat = Some a2 →
  l !! 3%nat = Some a3 → l !! 4%nat = Some a4 →
  ∃ rest, l = a0 :: a1 :: a2 :: a3 :: a4 :: rest.
Proof.
  intros. do 5 (destruct l as [|? l]; simplify_eq/=). eauto.
Qed.

Lemma collection_of_insert_eq (d : gmap string collection) name (c : collection) :
  collection_of (<[name := c]> d) name = c.
Proof. unfold collection_of. by rewrite lookup_insert_eq. Qed.

Lemma collection_of_insert_ne (d : gmap string collection) name name' (c : collection) :
  name ≠ name' → collection_of (<[name := c]> d) name' = collection_of d name'.
Proof. intros. unfold collection_of. by rewrite lookup_insert_ne. Qed.

(** C6. On a successful [process_document] the payload written to the
    destination collection at key [doc_id] is the merge of the calibrated
    fields over a copy of the raw fields: the five calibrated channels are
    the model's output row position by position, [calibrated_timestamp] is
    the server's time of the write, and every field of the source reading
    under another key is copied verbatim.  The destination holds this
    document afterwards (extended by [processed] and [processed_at] only
    when both collections are the same one). *)
Theorem process_document_calibrated_reading cfg doc_id data s s' :
  process_document cfg doc_id data s = (Ok true, s') →
  ∃ row c0 c1 c2 c3 c4 rest stored,
    prepare_input data = Ok row ∧
    model_predict cfg row = Ok (c0 :: c1 :: c2 :: c3 :: c4 :: rest) ∧
    let merged := merge data (calibrated_dict c0 c1 c2 c3 c4) in
    let written := resolve (server_time s) merged in
    Store (Set_ (CALIBRATED_COLLECTION cfg) doc_id merged) None ∈ events_since s s' ∧
    written !! "calibrated_N" = Some (VFloat c0) ∧
    written !! "calibrated_P" = Some (VFloat c1) ∧
    written !! "calibrated_K" = Some (VFloat c2) ∧
    written !! "calibrated_pH" = Some (VFloat c3) ∧
    written !! "calibrated_Conductivity" = Some (VFloat c4) ∧
    written !! "calibrated_timestamp" = Some (VTimestamp (server_time s)) ∧
    (∀ k, k ∉ calibrated_keys → written !! k = data !! k) ∧
    collection_of (db s') (CALIBRATED_COLLECTION cfg) !! doc_id = Some stored ∧
    (∀ k, k ≠ "processed" → k ≠ "processed_at" → stored !! k = written !! k) ∧
    (RAW_COLLECTION cfg ≠ CALIBRATED_COLLECTION cfg → stored = written).
Proof.
  intros Hrun.
  destruct (process_document_success _ _ _ _ _ Hrun)
    as (row & out & c0 & c1 & c2 & c3 & c4 & old & Hrow & Hout & H0 & H1 & H2
        & H3 & H4 & Hfree & _ & Htrace & _ & Hold & Hdb).
  destruct (list_lookup_five out c0 c1 c2 c3 c4 H0 H1 H2 H3 H4) as [rest ->].
  set (merged := merge data (calibrated_dict c0 c1 c2 c3 c4)) in *.
  set (written := resolve (server_time s) merged) in *.
  destruct (resolve_merge_calibrated (server_time s) data c0 c1 c2 c3 c4)
    as (?&?&?&?&?&?&?).
  destruct (decide (RAW_COLLECTION cfg = CALIBRATED_COLLECTION cfg)) as [Heq|Hne].
  - (* one collection for both: the update lands on the calibrated reading *)
    rewrite Heq in *. rewrite collection_of_insert_eq in Hold, Hdb.
    rewrite lookup_insert_eq in Hold. injection Hold as <-.
    exists row, c0, c1, c2, c3, c4, rest,
      (resolve (server_time s + 1) processed_fields ∪ written).
    cbv zeta. fold merged written. split_and!; try done.
    + rewrite (events_since_app _ _ _ Htrace).
      do 3 apply list_elem_of_further. apply list_elem_of_here.
    + rewrite Hdb, collection_of_insert_eq. apply lookup_insert_eq.
    + intros k ? ?. apply lookup_union_r. rewrite lookup_resolve.
      unfold processed_fields. by simplify_map_eq.
  - exists row, c0, c1, c2, c3, c4, rest, written.
    cbv zeta. fold merged written. split_and!; try done.
    + rewrite (events_since_app _ _ _ Htrace).
      do 3 apply list_elem_of_further. apply list_elem_of_here.
    + rewrite Hdb, collection_of_insert_ne, collection_of_insert_eq by done.
      apply lookup_insert_eq.
Qed.

Lemma stored_after_writes (d : gmap string collection) cal raw id x y :
  is_Some (collection_of
             (<[raw := <[id := y]>
                         (collection_of (<[cal := <[id := x]> (collection_of d cal)]> d) raw)]>
                (<[cal := <[id := x]> (collection_of d cal)]> d)) cal !! id).
Proof.
  destruct (decide (raw = cal)) as [->|Hne].
  - rewrite !collection_of_insert_eq, lookup_insert_eq. eauto.
  - rewrite collection_of_insert_ne, collection_of_insert_eq, lookup_insert_eq
      by done. eauto.
Qed.

(** The store calls of one call of the processor, counted. *)
Lemma next_call_completes_faults (s s' : state) :
  faults s' = faults s → next_call_completes s' ↔ next_call_completes s.
Proof. unfold next_call_completes. by intros ->. Qed.

Lemma call_completes_after (n : nat) (s s' : state) :
  faults s' = drop n (faults s) → next_call_completes s' ↔ call_completes n s.
Proof. unfold call_completes, next_call_completes. simpl. by intros ->. Qed.

Lemma tail_drop {A} (n : nat) (l : list A) : tail (drop n l) = drop (S n) l.
Proof.
  revert l. induction n as [|n IH]; intros [|x l]; simpl;
    first [done | apply IH].
Qed.

(** The [try] block, by what it leaves.  [lines] is what it printed after
    the first line. *)
Lemma process_document_body_outcome cfg doc_id data s :
  ∃ r s' evs lines,
    process_document_body cfg doc_id data s = (r, s') ∧
    trace s' = trace s ++ evs ∧
    stdout s' = stdout s ++ LogProcessing doc_id :: lines ∧
    ((db s' = db s ∧ filter (λ e, is_write e = true) evs = [] ∧
      ¬ writes_reading cfg doc_id data s ∧
      ((r = Ok false ∧ lines = [LogAlreadyCalibrated doc_id] ∧
        next_call_completes s) ∨
       (r = Ok false ∧ lines = [LogAlreadyProcessed doc_id] ∧
        next_call_completes s) ∨
       (∃ e, r = Raise e ∧ lines = [])))
     ∨
     (created cfg doc_id s s' ∧
      db_after_writes cfg doc_id (db s) (db s') ∧
      length (filter (λ e, is_calibrated_write cfg doc_id e = true) evs) = 1%nat ∧
      writes_reading cfg doc_id data s ∧
      faults s' = drop 3 (faults s) ∧
      ((r = Ok true ∧ lines = [LogSaved doc_id]) ∨
       (∃ e, r = Raise e ∧ lines = [])))).
Proof.
  unfold process_document_body, created, db_after_writes, db_put.
  rewrite (bind_ok _ _ s tt (add_line (LogProcessing doc_id) s)) by reflexivity.
  destruct (doc_get_cases (CALIBRATED_COLLECTION cfg) doc_id
              (add_line (LogProcessing doc_id) s))
    as [(e & s1 & Hget & Hfault & Hdb1 & Hout1 & Hf1 & Htr1)
       |(s1 & Hget & Hnext & Hdb1 & Hout1 & Hf1 & Htr1)]; simpl in *.
  { rewrite (bind_raise _ _ _ _ _ Hget).
    exists (Raise e), s1, [Store (Get (CALIBRATED_COLLECTION cfg) doc_id) (Some e)], [].
    split_and!; try done. left. split_and!; try done.
    - by intros (? & _).
    - right. right. eauto. }
  rewrite (bind_ok _ _ _ _ _ Hget).
  destruct (collection_of (db s) (CALIBRATED_COLLECTION cfg) !! doc_id)
    as [stored|] eqn:Hc.
  { rewrite bool_decide_eq_true_2 by eauto.
    exists (Ok false), (add_line (LogAlreadyCalibrated doc_id) s1),
      [Store (Get (CALIBRATED_COLLECTION cfg) doc_id) None],
      [LogAlreadyCalibrated doc_id].
    split_and!; try done.
    - simpl. by rewrite Hout1, <- app_assoc.
    - left. split_and!; try done.
      + intros (_ & ? & _). congruence.
      + by left. }
  rewrite bool_decide_eq_false_2 by (by intros [? ?]).
  destruct (eq_True (data !! "processed")) eqn:Hflag.
  { exists (Ok false), (add_line (LogAlreadyProcessed doc_id) s1),
      [Store (Get (CALIBRATED_COLLECTION cfg) doc_id) None],
      [LogAlreadyProcessed doc_id].
    split_and!; try done.
    - simpl. by rewrite Hout1, <- app_assoc.
    - left. split_and!; try done.
      + intros (_ & _ & ? & _). congruence.
      + right. by left. }
  destruct (prepare_input data) as [row|e] eqn:Hrow.
  2: { rewrite (bind_raise _ _ s1 e s1) by reflexivity.
       exists (Raise e), s1, [Store (Get (CALIBRATED_COLLECTION cfg) doc_id) None], [].
       split_and!; try done. left. split_and!; try done.
       - intros (_ & _ & _ & (? & ? & ? & ? & ? & ? & ? & ? & _) & _). congruence.
       - right. right. eauto. }
  rewrite (bind_ok _ _ s1 row s1) by reflexivity.
  destruct (predict_five cfg row s1)
    as [(c0 & c1 & c2 & c3 & c4 & rest & Hout & Hk)|(e & ok & Hshort & Hk)];
    rewrite Hk; clear Hk.
  2: { exists (Raise e), (add_event (Predict row ok) s1),
         [Store (Get (CALIBRATED_COLLECTION cfg) doc_id) None; Predict row ok], [].
       split_and!; try done.
       - simpl. by rewrite Htr1, <- app_assoc.
       - left. split_and!; try done.
         + intros (_ & _ & _ & (row' & ? & ? & ? & ? & ? & ? & Hrow' & Hm) & _).
           rewrite Hrow in Hrow'. injection Hrow' as <-. by eapply Hshort.
         + right. right. eauto. }
  cbv zeta.
  set (merged := merge data (calibrated_dict c0 c1 c2 c3 c4)).
  assert (next_call_completes (add_event (Predict row true) s1)
          ↔ call_completes 1 s) as Hone_call.
  { apply call_completes_after. simpl. rewrite Hf1.
    by rewrite <- (tail_drop 0), drop_0. }
  destruct (doc_set_cases (CALIBRATED_COLLECTION cfg) doc_id merged
              (add_event (Predict row true) s1))
    as [(e & s2 & Hset & Hfault2 & Hdb2 & Hout2 & Hf2 & Htr2)
       |(s2 & Hset & Hnext2 & Hdb2 & Hout2 & Hf2 & Htr2)]; simpl in *.
  { rewrite (bind_raise _ _ _ _ _ Hset).
    exists (Raise e), s2,
      [Store (Get (CALIBRATED_COLLECTION cfg) doc_id) None; Predict row true;
       Store (Set_ (CALIBRATED_COLLECTION cfg) doc_id merged) (Some e)], [].
    split_and!.
    - done.
    - rewrite Htr2, Htr1, <- !app_assoc. done.
    - congruence.
    - left. split_and!; [congruence|done| |].
      + intros (_ & _ & _ & _ & ?). by apply Hfault2, Hone_call.
      + right. right. eauto. }
  rewrite (bind_ok _ _ _ _ _ Hset).
  assert (length (filter (λ e, is_calibrated_write cfg doc_id e = true)
            [Store (Set_ (CALIBRATED_COLLECTION cfg) doc_id merged) None]) = 1%nat)
    as Hone.
  { rewrite filter_cons, filter_nil. rewrite decide_True; [done|].
    simpl. by rewrite !bool_decide_eq_true_2. }
  assert (writes_reading cfg doc_id data s) as Hwrites.
  { split_and!; try done.
    - by exists row, c0, c1, c2, c3, c4, rest.
    - by apply Hone_call. }
  destruct (doc_update_cases (RAW_COLLECTION cfg) doc_id processed_fields s2)
    as [(e & s3 & Hupd & Hdb3 & Hout3 & Hf3 & Htr3)
       |(old & s3 & Hupd & Hold & Hdb3 & Hout3 & Hf3 & Htr3)].
  all: assert (faults s3 = drop 3 (faults s)) as Hthree
         by (rewrite Hf3, Hf2, Hf1, <- !tail_drop, drop_0; reflexivity).
  { rewrite (bind_raise _ _ _ _ _ Hupd).
    exists (Raise e), s3,
      ([Store (Get (CALIBRATED_COLLECTION cfg) doc_id) None; Predict row true]
       ++ [Store (Set_ (CALIBRATED_COLLECTION cfg) doc_id merged) None]
       ++ [Store (Update (RAW_COLLECTION cfg) doc_id processed_fields) (Some e)]),
      [].
    split_and!.
    - done.
    - rewrite Htr3, Htr2, Htr1, <- !app_assoc. done.
    - congruence.
    - right. split_and!.
      + done.
      + rewrite Hdb3, Hdb2, collection_of_insert_eq, lookup_insert_eq. eauto.
      + eexists. left. rewrite Hdb3, Hdb2, Hdb1. reflexivity.
      + rewrite !filter_app, !length_app, Hone. reflexivity.
      + done.
      + done.
      + right. eauto. }
  rewrite (bind_ok _ _ _ _ _ Hupd).
  rewrite (bind_ok _ _ s3 tt (add_line (LogSaved doc_id) s3)) by reflexivity.
  exists (Ok true), (add_line (LogSaved doc_id) s3),
    ([Store (Get (CALIBRATED_COLLECTION cfg) doc_id) None; Predict row true]
     ++ [Store (Set_ (CALIBRATED_COLLECTION cfg) doc_id merged) None]
     ++ [Store (Update (RAW_COLLECTION cfg) doc_id processed_fields) None]),
    [LogSaved doc_id].
  split_and!.
  - done.
  - simpl. rewrite Htr3, Htr2, Htr1, <- !app_assoc. done.
  - simpl. rewrite Hout3, Hout2, Hout1, <- !app_assoc. done.
  - right. split_and!.
    + done.
    + simpl. rewrite Hdb3, Hdb2, Hdb1. apply stored_after_writes.
    + eexists. right. exists old. eexists. simpl.
      rewrite Hdb2, Hdb1 in Hold. split; [exact Hold|].
      rewrite Hdb3, Hdb2, Hdb1. reflexivity.
    + rewrite !filter_app, !length_app, Hone. reflexivity.
    + done.
    + done.
    + by left.
Qed.

(** One call, seen from outside: either it wrote nothing, or it stored the
    calibrated reading after three store calls, and only a call that wrote
    nothing prints a skip. *)
Lemma process_document_outcome cfg doc_id data s :
  ∃ b s' evs line,
    process_document cfg doc_id data s = (Ok b, s') ∧
    trace s' = trace s ++ Process doc_id data :: evs ∧
    stdout s' = stdout s ++ [LogProcessing doc_id; line] ∧
    ((db s' = db s ∧ filter (λ e, is_write e = true) evs = [] ∧
      ¬ writes_reading cfg doc_id data s ∧
      (line = LogAlreadyCalibrated doc_id ∨ line = LogAlreadyProcessed doc_id →
       next_call_completes s ∧ b = false))
     ∨
     (created cfg doc_id s s' ∧
      db_after_writes cfg doc_id (db s) (db s') ∧
      length (filter (λ e, is_calibrated_write cfg doc_id e = true) evs) = 1%nat ∧
      writes_reading cfg doc_id data s ∧
      faults s' = drop 3 (faults s) ∧
      line ≠ LogAlreadyCalibrated doc_id ∧ line ≠ LogAlreadyProcessed doc_id)).
Proof.
  destruct (process_document_body_outcome cfg doc_id data
              (add_event (Process doc_id data) s))
    as (r & s1 & evs & lines & Hbody & Htr & Hout & Hcases).
  unfold process_document.
  rewrite (bind_ok _ _ s tt (add_event (Process doc_id data) s)) by reflexivity.
  unfold try_except. rewrite Hbody. simpl in Htr, Hout.
  rewrite <- app_assoc in Htr. simpl in Htr.
  assert (∀ e,
            ∃ line,
              (match e with
               | KeyError _ => print (LogMissingField doc_id e);; ret false
               | _ => print (LogError doc_id e);; ret false
               end) s1 = (Ok false, add_line line s1) ∧
              line ≠ LogAlreadyCalibrated doc_id ∧
              line ≠ LogAlreadyProcessed doc_id) as Hhandler.
  { intros e. destruct e; eexists; (split; [reflexivity|]); by split. }
  unfold created in *.
  destruct Hcases as [(Hdb & Hquiet & Hnot & Hr)
                     |([Hnone Hsome] & Hshape & Hcount & Hwrites & Hthree & Hr)].
  - destruct Hr as [(-> & -> & Hnext)|[(-> & -> & Hnext)|(e & -> & ->)]].
    + exists false, s1, evs, (LogAlreadyCalibrated doc_id).
      split_and!; try done. left. by split_and!.
    + exists false, s1, evs, (LogAlreadyProcessed doc_id).
      split_and!; try done. left. by split_and!.
    + destruct (Hhandler e) as (line & -> & Hl1 & Hl2).
      exists false, (add_line line s1), evs, line.
      split_and!; try done.
      * simpl. by rewrite Hout, <- app_assoc.
      * left. split_and!; try done. by intros [?|?].
  - destruct Hr as [(-> & ->)|(e & -> & ->)].
    + exists true, s1, evs, (LogSaved doc_id).
      split_and!; try done. right. by split_and!.
    + destruct (Hhandler e) as (line & -> & Hl1 & Hl2).
      exists false, (add_line line s1), evs, line.
      split_and!; try done.
      * simpl. by rewrite Hout, <- app_assoc.
      * right. by split_and!.
Qed.

(** A write of the calibrated reading is a write. *)
Lemma no_write_no_calibrated_write cfg doc_id (evs : list event) :
  filter (λ e, is_write e = true) evs = [] →
  filter (λ e, is_calibrated_write cfg doc_id e = true) evs = [].
Proof.
  induction evs as [|e evs IH]; [done|].
  rewrite !filter_cons. intros H.
  destruct (decide (is_write e = true)) as [|Hw]; [done|].
  rewrite decide_False; [by apply IH|].
  intros Hc. apply Hw. destruct e as [[] []| | | |]; try done.
Qed.

(** C3, amended. Two calls [process_document doc_id data] in sequence leave
    exactly one calibrated reading written at [doc_id], the second call
    reporting the skip ([False]) without writing, exactly when the first
    call writes the reading and the second call can read it: no calibrated
    reading is stored at [doc_id], the document is not flagged as processed,
    it holds the five channels, the model answers at least five values, and
    the store completes the read and the write of the first call and the
    read of the second call, which is the fourth store call. The third, the
    update of the source document, may fail: the first call then reports
    [False], and the calibrated reading is written all the same. *)
Theorem process_document_twice cfg doc_id data s :
  twice_yields_one_reading cfg doc_id data s ↔
  writes_reading cfg doc_id data s ∧ call_completes 3 s.
Proof.
  split.
  - intros (b1 & s1 & s2 & H1 & H2 & _ & Hcount & Hskip & _ & Hnow).
    destruct (process_document_outcome cfg doc_id data s)
      as (b & s1' & evs1 & line1 & E1 & Htr1 & _ & Hcase1).
    rewrite H1 in E1. injection E1 as <- <-.
    destruct (process_document_outcome cfg doc_id data s1)
      as (b' & s2' & evs2 & line2 & E2 & Htr2 & Hout2 & Hcase2).
    rewrite H2 in E2. injection E2 as <- <-.
    assert (line2 = LogAlreadyCalibrated doc_id ∨
            line2 = LogAlreadyProcessed doc_id) as Hline.
    { rewrite Hout2 in Hskip.
      destruct Hskip as [Hs|Hs]; apply app_inv_head in Hs;
        injection Hs as ->; auto. }
    rewrite (events_since_app _ _ _ Htr2) in Hnow.
    rewrite filter_cons_False in Hnow by done.
    destruct Hcase2 as [(_ & _ & _ & Hnext)|(_ & _ & _ & _ & _ & Hl1 & Hl2)];
      [|by destruct Hline].
    destruct (Hnext Hline) as [Hnext1 _].
    destruct Hcase1 as [(_ & Hquiet & _)|(_ & _ & _ & Hwrites & Hthree & _)].
    + exfalso.
      rewrite Htr1, <- app_assoc in Htr2. simpl in Htr2.
      rewrite (events_since_app _ _ _ Htr2) in Hcount.
      rewrite filter_cons_False, filter_app, filter_cons_False in Hcount by done.
      rewrite (no_write_no_calibrated_write _ _ _ Hquiet),
        (no_write_no_calibrated_write _ _ _ Hnow) in Hcount.
      discriminate.
    + split; [done|]. by apply (call_completes_after 3 s s1).
  - intros [Hwrites Hthird].
    destruct (process_document_outcome cfg doc_id data s)
      as (b1 & s1 & evs1 & line1 & H1 & Htr1 & _ & Hcase1).
    destruct Hcase1 as [(_ & _ & Hnot & _)
                       |([_ Hsome] & _ & Hcount & _ & Hthree & _)]; [done|].
    assert (next_call_completes s1) as Hnext
      by (by apply (call_completes_after 3 s s1)).
    destruct (process_document_already_calibrated cfg doc_id data s1 Hnext Hsome)
      as (s2 & H2 & Hdb2 & Htr2 & Hout2).
    exists b1, s1, s2. split_and!; try done.
    + by rewrite Hdb2.
    + rewrite Htr1, <- app_assoc in Htr2. simpl in Htr2.
      rewrite (events_since_app _ _ _ Htr2).
      rewrite filter_cons_False, filter_app, length_app, Hcount by done.
      rewrite !filter_cons_False, filter_nil by done. reflexivity.
    + by left.
    + by rewrite (events_since_app _ _ _ Htr2).
Qed.

(** C3 as stated, for every document, fails: for the reading [r0], which
    has no [pH], two calls leave no calibrated reading at all. *)
Lemma process_document_twice_counterexample :
  ¬ twice_yields_one_reading default_config "r0" reading_r0 sample_state.
Proof.
  intros (b1 & s1 & s2 & H1 & H2 & [d Hd] & _).
  assert ("pH" ∈ required) as Hin
    by (unfold required; do 3 apply list_elem_of_further; apply list_elem_of_here).
  assert (reading_r0 !! "pH" = None) as Hnone by reflexivity.
  destruct (process_document_missing default_config "r0" reading_r0 sample_state
              "pH" Hin Hnone) as (s1' & ? & E1 & Hdb1 & _).
  rewrite E1 in H1. injection H1 as <- <-.
  destruct (process_document_missing default_config "r0" reading_r0 s1'
              "pH" Hin Hnone) as (s2' & ? & E2 & Hdb2 & _).
  rewrite E2 in H2. injection H2 as <-.
  rewrite Hdb2, Hdb1 in Hd. vm_compute in Hd. discriminate.
Qed.

(** ** The change reconciler *)

Lemma print_all_eq (ls : list log_msg) (s : state) :
  print_all ls s = (Ok tt, add_lines ls s).
Proof.
  revert s. induction ls as [|l ls IH]; intros s.
  - destruct s. unfold add_lines. simpl. unfold ret. by rewrite app_nil_r.
  - simpl. unfold_monad. simpl. rewrite IH. unfold add_lines. simpl.
    by rewrite <- app_assoc.
Qed.

(** The query behind both lookups of the latest document: it touches
    nothing but the trace and the fault schedule. *)
Lemma query_latest_cases cfg s :
  (∃ e fs s',
     faults s = Some e :: fs ∧
     query_latest cfg s = (Raise e, s') ∧
     db s' = db s ∧ server_time s' = server_time s ∧ watches s' = watches s ∧
     stdout s' = stdout s ∧ faults s' = fs ∧
     last_processed_doc_id s' = last_processed_doc_id s ∧
     initial_snapshot_received s' = initial_snapshot_received s ∧
     trace s' = trace s ++ [Store (Query (RAW_COLLECTION cfg)) (Some e)]) ∨
  (next_call_completes s ∧ ∃ s',
     query_latest cfg s =
       (Ok (order_by_desc_limit_1 (order_leb cfg) "timestamp"
              (collection_of (db s) (RAW_COLLECTION cfg))), s') ∧
     db s' = db s ∧ server_time s' = server_time s ∧ watches s' = watches s ∧
     stdout s' = stdout s ∧ faults s' = tail (faults s) ∧
     last_processed_doc_id s' = last_processed_doc_id s ∧
     initial_snapshot_received s' = initial_snapshot_received s ∧
     trace s' = trace s ++ [Store (Query (RAW_COLLECTION cfg)) None]).
Proof.
  unfold next_call_completes. unfold_store. unfold_monad. simpl.
  destruct (faults s) as [|[e|] fs] eqn:Hf; simpl.
  - right. split; [by left|]. eexists. solve_state. by rewrite Hf.
  - left. exists e, fs. eexists. solve_state.
  - right. split; [by right|]. eexists. solve_state.
Qed.

(** Neither lookup raises. *)
Lemma get_latest_document_by_timestamp_cases cfg s :
  ∃ r q s',
    get_latest_document_by_timestamp cfg s = (Ok r, s') ∧
    db s' = db s ∧ server_time s' = server_time s ∧ watches s' = watches s ∧
    last_processed_doc_id s' = last_processed_doc_id s ∧
    initial_snapshot_received s' = initial_snapshot_received s ∧
    trace s' = trace s ++ [Store (Query (RAW_COLLECTION cfg)) q] ∧
    (next_call_completes s →
     r = order_by_desc_limit_1 (order_leb cfg) "timestamp"
           (collection_of (db s) (RAW_COLLECTION cfg)) ∧
     q = None ∧ stdout s' = stdout s ∧ faults s' = tail (faults s)).
Proof.
  unfold get_latest_document_by_timestamp.
  destruct (query_latest_cases cfg s)
    as [(e & fs & s' & Hf & Hq & ? & ? & ? & ? & ? & ? & ? & ?)
       |(Hnext & s' & Hq & ? & ? & ? & ? & ? & ? & ? & ?)].
  - exists None, (Some e). eexists. unfold_monad. rewrite Hq. simpl.
    split_and!; try done.
    unfold next_call_completes. rewrite Hf. intros [?|?]; discriminate.
  - eexists _, None, s'. unfold_monad. rewrite Hq. simpl. split_and!; done.
Qed.

Lemma get_current_latest_document_cases cfg s :
  ∃ r q s',
    get_current_latest_document cfg s = (Ok r, s') ∧
    db s' = db s ∧ server_time s' = server_time s ∧ watches s' = watches s ∧
    last_processed_doc_id s' = last_processed_doc_id s ∧
    initial_snapshot_received s' = initial_snapshot_received s ∧
    trace s' = trace s ++ [Store (Query (RAW_COLLECTION cfg)) q] ∧
    (next_call_completes s →
     r = order_by_desc_limit_1 (order_leb cfg) "timestamp"
           (collection_of (db s) (RAW_COLLECTION cfg)) ∧
     q = None ∧ stdout s' = stdout s ∧ faults s' = tail (faults s)) ∧
    (r = None ∨ q = None).
Proof.
  unfold get_current_latest_document.
  destruct (query_latest_cases cfg s)
    as [(e & fs & s' & Hf & Hq & ? & ? & ? & ? & ? & ? & ? & ?)
       |(Hnext & s' & Hq & ? & ? & ? & ? & ? & ? & ? & ?)].
  - exists None, (Some e). eexists. unfold_monad. rewrite Hq. simpl.
    split_and!; try done; [|by left].
    unfold next_call_completes. rewrite Hf. intros [?|?]; discriminate.
  - eexists _, None, s'. unfold_monad. rewrite Hq. simpl.
    split_and!; try done. by right.
Qed.

(** A batch after the initial snapshot, statement by statement: the query
    runs in [s_q], which differs from [s] by the lock event and printed
    lines; what follows depends on its answer. *)
Lemma on_snapshot_listening cfg changes s :
  initial_snapshot_received s = true →
  ∃ s_q r q s_r,
    db s_q = db s ∧ faults s_q = faults s ∧ server_time s_q = server_time s ∧
    watches s_q = watches s ∧
    last_processed_doc_id s_q = last_processed_doc_id s ∧
    initial_snapshot_received s_q = true ∧
    trace s_q = trace s ++ [Acquire] ∧
    get_latest_document_by_timestamp cfg s_q = (Ok r, s_r) ∧
    trace s_r = trace s_q ++ [Store (Query (RAW_COLLECTION cfg)) q] ∧
    match r with
    | None =>
        on_snapshot cfg changes s =
          (Ok tt, add_event Release (add_line LogWaiting s_r))
    | Some (doc_id, data) =>
        if bool_decide (Some doc_id ≠ last_processed_doc_id s) then
          ∃ success s_p,
            process_document cfg doc_id data
              (add_line LogNewLatest (add_line (LogLatest doc_id) s_r))
              = (Ok success, s_p) ∧
            on_snapshot cfg changes s =
              (Ok tt, add_event Release (add_line LogWaiting
                 (if success : bool
                  then set_last_processed_doc_id (Some doc_id) s_p
                  else s_p)))
        else
          on_snapshot cfg changes s =
            (Ok tt, add_event Release (add_line LogWaiting
               (add_line (LogAlreadyLatest doc_id)
                  (add_line (LogLatest doc_id) s_r))))
    end.
Proof.
  intros Hflag.
  unfold on_snapshot, with_processing_lock, release_after, on_snapshot_locked.
  unfold_monad. simpl. rewrite Hflag. simpl. rewrite print_all_eq.
  destruct (bool_decide (3 < length changes)%nat); simpl.
  all: match goal with
       | |- context [get_latest_document_by_timestamp _ ?x] => set (s_q := x)
       end.
  all: destruct (get_latest_document_by_timestamp_cases cfg s_q)
         as (r & q & s_r & Hget & Hdb & Htime & Hw & Hlast & Hfl & Htrace & Hok).
  all: exists s_q, r, q, s_r.
  all: split_and!; try done.
  all: rewrite Hget; simpl.
  all: destruct r as [[doc_id data]|]; simpl; [|done].
  all: rewrite Hlast; simpl.
  all: destruct (bool_decide (Some doc_id ≠ last_processed_doc_id s)); simpl; [|done].
  all: destruct (process_document_returns cfg doc_id data
         (add_line LogNewLatest (add_line (LogLatest doc_id) s_r)))
         as (b & s_p & ? & Hp & _).
  all: exists b, s_p; rewrite Hp; by destruct b.
Qed.

(** The latest document is the one processed last: nothing happens. *)
Lemma on_snapshot_same_latest cfg changes s doc_id data :
  initial_snapshot_received s = true →
  next_call_completes s →
  order_by_desc_limit_1 (order_leb cfg) "timestamp"
    (collection_of (db s) (RAW_COLLECTION cfg)) = Some (doc_id, data) →
  last_processed_doc_id s = Some doc_id →
  ∃ s',
    on_snapshot cfg changes s = (Ok tt, s') ∧
    last_processed_doc_id s' = last_processed_doc_id s ∧
    db s' = db s ∧
    trace s' = trace s ++
      [Acquire; Store (Query (RAW_COLLECTION cfg)) None; Release].
Proof.
  intros Hflag Hnext Hlatest Hlast.
  destruct (on_snapshot_listening cfg changes s Hflag)
    as (s_q & r & q & s_r & Hdb & Hf & _ & _ & Hl & _ & Htq & Hget & Htr & Hrun).
  destruct (get_latest_document_by_timestamp_cases cfg s_q)
    as (r' & q' & s_r' & Hget' & Hdb' & _ & _ & Hlast' & _ & Htr' & Hok).
  rewrite Hget in Hget'. injection Hget' as <- <-.
  destruct Hok as (-> & -> & _ & _);
    [unfold next_call_completes in *; by rewrite Hf|].
  rewrite Hdb, Hlatest in Hrun.
  rewrite bool_decide_eq_false_2 in Hrun by (rewrite Hlast; by intros []).
  eexists. split; [exact Hrun|]. simpl.
  rewrite Hlast', Hl, Hdb', Hdb, Htr', Htq, <- !app_assoc. done.
Qed.

(** The latest document is another one: it goes to the processor, in a
    state [s_call] that holds the database of [s]; the outcome decides on
    [last_processed_doc_id]. *)
Lemma on_snapshot_new_latest cfg changes s doc_id data :
  initial_snapshot_received s = true →
  next_call_completes s →
  order_by_desc_limit_1 (order_leb cfg) "timestamp"
    (collection_of (db s) (RAW_COLLECTION cfg)) = Some (doc_id, data) →
  last_processed_doc_id s ≠ Some doc_id →
  ∃ s_call success s_ret rest s',
    db s_call = db s ∧ server_time s_call = server_time s ∧
    faults s_call = tail (faults s) ∧
    trace s_call = trace s ++ [Acquire; Store (Query (RAW_COLLECTION cfg)) None] ∧
    process_document cfg doc_id data s_call = (Ok success, s_ret) ∧
    trace s_ret = trace s_call ++ Process doc_id data :: rest ∧
    on_snapshot cfg changes s = (Ok tt, s') ∧
    db s' = db s_ret ∧
    trace s' = trace s_ret ++ [Release] ∧
    last_processed_doc_id s' =
      (if success : bool then Some doc_id else last_processed_doc_id s).
Proof.
  intros Hflag Hnext Hlatest Hlast.
  destruct (on_snapshot_listening cfg changes s Hflag)
    as (s_q & r & q & s_r & Hdb & Hf & Htime & _ & Hl & _ & Htq & Hget & Htr & Hrun).
  destruct (get_latest_document_by_timestamp_cases cfg s_q)
    as (r' & q' & s_r' & Hget' & Hdb' & Htime' & _ & Hlast' & _ & Htr' & Hok).
  rewrite Hget in Hget'. injection Hget' as <- <-.
  destruct Hok as (-> & -> & _ & Hfaults);
    [unfold next_call_completes in *; by rewrite Hf|].
  rewrite Hdb, Hlatest in Hrun.
  rewrite bool_decide_eq_true_2 in Hrun by congruence.
  destruct Hrun as (success & s_p & Hp & Hrun).
  destruct (process_document_returns cfg doc_id data
              (add_line LogNewLatest (add_line (LogLatest doc_id) s_r)))
    as (b & s_p' & rest & Hp' & Hlp & _ & _ & Htp).
  rewrite Hp in Hp'. injection Hp' as <- <-.
  eexists _, success, s_p, rest, _. split_and!; [..|exact Hp| |exact Hrun| | |].
  all: simpl; try congruence.
  - by rewrite Htr', Htq, <- app_assoc.
  - done.
  - by destruct success.
  - by destruct success.
  - destruct success; simpl; [done|]. simpl in Hlp. congruence.
Qed.

(** A handled batch takes the lock and queries the store, and leaves the
    flag set. *)
Lemma on_snapshot_listening_trace cfg changes s :
  initial_snapshot_received s = true →
  ∃ s' q rest,
    on_snapshot cfg changes s = (Ok tt, s') ∧
    initial_snapshot_received s' = true ∧
    trace s' = trace s ++ Acquire :: Store (Query (RAW_COLLECTION cfg)) q :: rest.
Proof.
  intros Hflag.
  destruct (on_snapshot_listening cfg changes s Hflag)
    as (s_q & r & q & s_r & _ & _ & _ & _ & _ & Hfq & Htq & Hget & Htr & Hrun).
  destruct (get_latest_document_by_timestamp_cases cfg s_q)
    as (r' & q' & s_r' & Hget' & _ & _ & _ & _ & Hfr & _).
  rewrite Hget in Hget'. injection Hget' as <- <-.
  destruct r as [[doc_id data]|].
  - destruct (bool_decide (Some doc_id ≠ last_processed_doc_id s)).
    + destruct Hrun as (success & s_p & Hp & Hrun).
      destruct (process_document_returns cfg doc_id data
                  (add_line LogNewLatest (add_line (LogLatest doc_id) s_r)))
        as (b & s_p' & rest & Hp' & _ & Hfp & _ & Htp).
      rewrite Hp in Hp'. injection Hp' as <- <-.
      eexists _, q, _. split; [exact Hrun|]. simpl in *.
      split; [destruct success; simpl; congruence|].
      replace (trace (if success then set_last_processed_doc_id (Some doc_id) s_p
                      else s_p)) with (trace s_p) by (by destruct success).
      rewrite Htp, Htr, Htq, <- !app_assoc. simpl. reflexivity.
    + eexists _, q, _. split; [exact Hrun|]. simpl.
      split; [congruence|]. rewrite Htr, Htq, <- !app_assoc. simpl. reflexivity.
  - eexists _, q, _. split; [exact Hrun|]. simpl.
    split; [congruence|]. rewrite Htr, Htq, <- !app_assoc. simpl. reflexivity.
Qed.

(** C1. A call of [on_snapshot] while [initial_snapshot_received] is
    false sets the flag and returns: no event is added to the trace (no
    query, no call of the document processor, no lock), the database and
    [last_processed_doc_id] are unchanged, whatever the batch holds.  Any
    batch that comes while the flag is set is handled: the lock is taken
    and the store is queried, and the flag stays set. *)
Theorem on_snapshot_initial_snapshot cfg changes s :
  initial_snapshot_received s = false →
  ∃ s',
    on_snapshot cfg changes s = (Ok tt, s') ∧
    initial_snapshot_received s' = true ∧
    last_processed_doc_id s' = last_processed_doc_id s ∧
    events_since s s' = [] ∧
    db s' = db s ∧ faults s' = faults s ∧ server_time s' = server_time s ∧
    stdout s' = stdout s ++ [LogInitialSnapshot (length changes); LogSkippingInitial] ∧
    ∀ later s1,
      initial_snapshot_received s1 = true →
      ∃ s2 q rest,
        on_snapshot cfg later s1 = (Ok tt, s2) ∧
        initial_snapshot_received s2 = true ∧
        events_since s1 s2 =
          Acquire :: Store (Query (RAW_COLLECTION cfg)) q :: rest.
Proof.
  intros Hflag. unfold on_snapshot. unfold_monad. simpl. rewrite Hflag. simpl.
  eexists. split; [reflexivity|]. simpl. split_and!; try done.
  - unfold events_since. simpl. apply drop_all.
  - by rewrite <- app_assoc.
  - intros later s1 Hflag1.
    destruct (on_snapshot_listening_trace cfg later s1 Hflag1)
      as (s2 & q & rest & Hrun & Hflag2 & Htrace).
    exists s2, q, rest. split_and!; try done. by apply events_since_app.
Qed.

(** C2. A batch after the initial snapshot, when the query for the latest
    document by timestamp answers [(doc_id, data)]: if [doc_id] is
    [last_processed_doc_id], nothing is done; otherwise
    [process_document] is called on [(doc_id, data)], and
    [last_processed_doc_id] becomes [doc_id] exactly when it reports
    success, and is left as it was when it reports failure. *)
Theorem on_snapshot_reconciles cfg changes s doc_id data :
  initial_snapshot_received s = true →
  next_call_completes s →
  order_by_desc_limit_1 (order_leb cfg) "timestamp"
    (collection_of (db s) (RAW_COLLECTION cfg)) = Some (doc_id, data) →
  ∃ s',
    on_snapshot cfg changes s = (Ok tt, s') ∧
    (last_processed_doc_id s = Some doc_id →
     last_processed_doc_id s' = last_processed_doc_id s ∧
     db s' = db s ∧
     events_since s s' =
       [Acquire; Store (Query (RAW_COLLECTION cfg)) None; Release]) ∧
    (last_processed_doc_id s ≠ Some doc_id →
     ∃ s_call success s_ret rest,
       db s_call = db s ∧ server_time s_call = server_time s ∧
       faults s_call = tail (faults s) ∧
       process_document cfg doc_id data s_call = (Ok success, s_ret) ∧
       events_since s s' =
         [Acquire; Store (Query (RAW_COLLECTION cfg)) None; Process doc_id data]
         ++ rest ++ [Release] ∧
       events_since s_call s_ret = Process doc_id data :: rest ∧
       db s' = db s_ret ∧
       last_processed_doc_id s' =
         (if success : bool then Some doc_id else last_processed_doc_id s)).
Proof.
  intros Hflag Hnext Hlatest.
  destruct (decide (last_processed_doc_id s = Some doc_id)) as [Hlast|Hlast].
  - destruct (on_snapshot_same_latest cfg changes s doc_id data
                Hflag Hnext Hlatest Hlast) as (s' & Hrun & ? & ? & Htrace).
    exists s'. split_and!; try done.
    intros _. split_and!; try done. by apply events_since_app.
  - destruct (on_snapshot_new_latest cfg changes s doc_id data
                Hflag Hnext Hlatest Hlast)
      as (s_call & success & s_ret & rest & s' & ? & ? & ? & Htc & Hp & Htp
          & Hrun & ? & Htrace & ?).
    exists s'. split_and!; try done.
    intros _. exists s_call, success, s_ret, rest. split_and!; try done.
    + apply events_since_app.
      rewrite Htrace, Htp, Htc, <- !app_assoc. reflexivity.
    + by apply events_since_app.
Qed.

(** ** The query *)


(** The query answers with a stored document that has the field. *)
Lemma order_by_desc_limit_1_stored leb field (c : collection) doc_id data :
  order_by_desc_limit_1 leb field c = Some (doc_id, data) →
  c !! doc_id = Some data ∧ is_Some (data !! field).
Proof.
  unfold order_by_desc_limit_1.
  set (candidates := omap _ (map_to_list c)).
  assert (∀ x, x ∈ candidates →
               c !! x.1.1 = Some x.1.2 ∧ x.1.2 !! field = Some x.2) as Hcand.
  { intros [[id d] v] Hin. subst candidates.
    apply list_elem_of_omap in Hin as ([id' d'] & Hin & Hv).
    apply elem_of_map_to_list in Hin. simpl in *.
    destruct (d' !! field) eqn:Hf; simplify_eq/=. done. }
  set (pick := λ acc x, _).
  assert (∀ l acc,
            (∀ x, x ∈ l → x ∈ candidates) →
            (∀ y, acc = Some y → y ∈ candidates) →
            ∀ y, foldl pick acc l = Some y → y ∈ candidates) as Hfold.
  { induction l as [|x l IH]; intros acc Hl Hacc y; simpl; [by apply Hacc|].
    apply IH.
    - intros x' Hx'. apply Hl. by apply elem_of_cons; right.
    - intros y' Hy'. subst pick. simpl in Hy'.
      destruct acc as [a|].
      + destruct (before_desc leb x a); simplify_eq.
        * apply Hl. by apply elem_of_cons; left.
        * by apply Hacc.
      + simplify_eq. apply Hl. by apply elem_of_cons; left. }
  intros Hbest.
  destruct (foldl pick None candidates) as [[[id d] v]|] eqn:Hf; simplify_eq/=.
  destruct (Hcand (doc_id, data, v)) as [? ?]; [|by eauto].
  eapply Hfold; [| |exact Hf]; [done|discriminate].
Qed.


(** ** The threads of the worker *)

(** What the statement at [p] does to the globals of the reconciler, and
    where it leads. *)
Ltac frame_solve :=
  split; intros; simpl in *; first [congruence | exfalso; eauto].

Lemma step_code_frame cfg p s r s' :
  step_code cfg p s = (r, s') →
  (G_last_processed_doc_id ∉ writes_of p →
   last_processed_doc_id s' = last_processed_doc_id s) ∧
  (G_initial_snapshot_received ∉ writes_of p →
   initial_snapshot_received s' = initial_snapshot_received s).
Proof.
  intros Hstep.
  assert (∀ g : gvar, g ∉ [g] → False) as Hself
    by (intros g Hg; apply Hg; apply elem_of_cons; by left).
  destruct p; simpl in *; unfold_monad; simpl in *.
  - (* L_start *)
    destruct (get_current_latest_document_cases cfg (add_line LogBanner s))
      as (r0 & q & s1 & Hget & _ & _ & _ & Hlast & Hflag & _).
    rewrite Hget in Hstep. destruct r0 as [[? ?]|]; simplify_eq/=; frame_solve.
  - simplify_eq/=. frame_solve.
  - (* L_attach *)
    unfold_store. unfold_monad. simpl in *.
    destruct (faults s) as [|[e|] fs]; simplify_eq/=; frame_solve.
  - simplify_eq/=. frame_solve.
  - destruct (initial_snapshot_received s) eqn:E; simplify_eq/=; frame_solve.
  - simplify_eq/=. frame_solve.
  - simplify_eq/=. frame_solve.
  - (* S_query *)
    rewrite print_all_eq in Hstep.
    destruct (bool_decide (3 < length changes)%nat); simpl in *.
    all: match type of Hstep with
         | context [get_latest_document_by_timestamp _ ?x] =>
             destruct (get_latest_document_by_timestamp_cases cfg x)
               as (r0 & q & s1 & Hget & _ & _ & _ & Hlast & Hflag & _)
         end.
    all: rewrite Hget in Hstep; destruct r0 as [[? ?]|]; simplify_eq/=; frame_solve.
  - case_bool_decide; simplify_eq/=; frame_solve.
  - (* S_process *)
    destruct (process_document_returns cfg doc_id data s)
      as (b & s1 & rest & Hp & Hlast & Hflag & _).
    rewrite Hp in Hstep. destruct b; simplify_eq/=; frame_solve.
  - simplify_eq/=. frame_solve.
  - simplify_eq/=. frame_solve.
  - simplify_eq/=. frame_solve.
  - simplify_eq/=. frame_solve.
Qed.

(** Inside the [with] block no statement raises, and only [S_release]
    leaves it; only [S_acquire] enters it. *)
Lemma step_code_critical cfg p s r s' :
  step_code cfg p s = (r, s') →
  match r with
  | Ok p' =>
      (in_critical_section p' = true →
       in_critical_section p = true ∨ ∃ changes, p = S_acquire changes) ∧
      (in_critical_section p = true → in_critical_section p' = false →
       p = S_release) ∧
      (∀ changes, p = S_acquire changes → in_critical_section p' = true) ∧
      (p = S_release → in_critical_section p' = false)
  | Raise _ => p = L_attach
  end.
Proof.
  intros Hstep. destruct p; simpl in *.
  - unfold_monad. simpl in *.
    destruct (get_current_latest_document_cases cfg (add_line LogBanner s))
      as (r0 & q & s1 & Hget & _).
    rewrite Hget in Hstep. destruct r0 as [[? ?]|]; simplify_eq/=; naive_solver.
  - unfold_monad. simplify_eq/=. naive_solver.
  - unfold_store. unfold_monad. simpl in *.
    destruct (faults s) as [|[e|] fs]; simplify_eq/=; naive_solver.
  - unfold_monad. simplify_eq/=. naive_solver.
  - unfold_monad. simpl in *.
    destruct (initial_snapshot_received s); simplify_eq/=; naive_solver.
  - unfold_monad. simplify_eq/=. naive_solver.
  - unfold_monad. simplify_eq/=. naive_solver.
  - unfold_monad. simpl in *. rewrite print_all_eq in Hstep.
    destruct (bool_decide (3 < length changes)%nat); simpl in *.
    all: match type of Hstep with
         | context [get_latest_document_by_timestamp _ ?x] =>
             destruct (get_latest_document_by_timestamp_cases cfg x)
               as (r0 & q & s1 & Hget & _)
         end.
    all: rewrite Hget in Hstep; destruct r0 as [[? ?]|]; simplify_eq/=; naive_solver.
  - unfold_monad. simpl in *. case_bool_decide; simplify_eq/=; naive_solver.
  - unfold_monad. simpl in *.
    destruct (process_document_returns cfg doc_id data s)
      as (b & s1 & rest & Hp & _).
    rewrite Hp in Hstep. destruct b; simplify_eq/=; naive_solver.
  - unfold_monad. simplify_eq/=. naive_solver.
  - unfold_monad. simplify_eq/=. naive_solver.
  - unfold_monad. simplify_eq/=. naive_solver.
  - unfold_monad. simplify_eq/=. naive_solver.
Qed.

Lemma run_statement_cases cfg t p sys :
  ∃ r s',
    step_code cfg p (st sys) = (r, s') ∧
    match r with
    | Ok p' =>
        run_statement cfg t p sys =
          set_threads (<[t := p']> (threads sys)) (set_st s' sys)
    | Raise e =>
        p = L_attach ∧
        run_statement cfg t p sys =
          set_threads (<[t := Crashed e]> (threads sys)) (set_st s' sys)
    end.
Proof.
  unfold run_statement.
  destruct (step_code cfg p (st sys)) as [r s'] eqn:Hcode.
  exists r, s'. split; [done|].
  pose proof (step_code_critical _ _ _ _ _ Hcode) as Hcrit.
  destruct r as [p'|e]; [done|]. by subst p.
Qed.

Lemma lookup_insert_thread (ts : list pc) (t t' : nat) (p p' q : pc) :
  ts !! t = Some p →
  <[t := p']> ts !! t' = Some q →
  (t' = t ∧ q = p') ∨ (t' ≠ t ∧ ts !! t' = Some q).
Proof.
  intros Ht Hq. destruct (decide (t' = t)) as [->|Hne].
  - rewrite list_lookup_insert_eq in Hq by (by eapply lookup_lt_Some).
    left. by simplify_eq.
  - rewrite list_lookup_insert_ne in Hq by done. by right.
Qed.

Lemma thread_step_lock_discipline cfg t p sys sys' :
  lock_discipline sys →
  threads sys !! t = Some p →
  thread_step cfg t p sys = Some sys' →
  lock_discipline sys'.
Proof.
  intros [Hin Hown] Ht Hstep.
  destruct (run_statement_cases cfg t p sys) as (r & s' & Hcode & Hrun).
  pose proof (step_code_critical _ _ _ _ _ Hcode) as Hcrit.
  assert (t < length (threads sys))%nat as Hlt by (by eapply lookup_lt_Some).
  unfold thread_step in Hstep.
  assert ((∃ changes, p = S_acquire changes) ∨ ¬ ∃ changes, p = S_acquire changes)
    as [[changes ->]|Hnacq]
    by (destruct p; eauto; right; intros [? ?]; discriminate).
  { (* taking the lock *)
    destruct (processing_lock sys) eqn:Hlock; [done|].
    destruct r as [p'|e]; [|by destruct Hrun].
    destruct Hcrit as (_ & _ & Hcs & _). specialize (Hcs changes eq_refl).
    injection Hstep as <-. rewrite Hrun. split; simpl.
    - intros t' q Hq Hq_cs.
      destruct (lookup_insert_thread _ _ _ _ _ _ Ht Hq) as [[-> ->]|[Hne Hq']];
        [done|].
      pose proof (Hin _ _ Hq' Hq_cs). congruence.
    - intros t' [= <-]. exists p'.
      by rewrite list_lookup_insert_eq. }
  assert (p = S_release ∨ p ≠ S_release) as [->|Hnrel]
    by (destruct p; eauto; right; discriminate).
  { (* leaving the block *)
    destruct r as [p'|e]; [|by destruct Hrun].
    destruct Hcrit as (_ & _ & _ & Hout). specialize (Hout eq_refl).
    injection Hstep as <-. rewrite Hrun. split; simpl; [|done].
    intros t' q Hq Hq_cs.
    destruct (lookup_insert_thread _ _ _ _ _ _ Ht Hq) as [[-> ->]|[Hne Hq']];
      [congruence|].
    pose proof (Hin _ _ Hq' Hq_cs). pose proof (Hin _ _ Ht eq_refl). congruence. }
  assert (sys' = run_statement cfg t p sys) as ->.
  { destruct p; simplify_eq/=; try done. by destruct Hnacq; eauto. }
  destruct r as [p'|e].
  - destruct Hcrit as (Hkeep & Hleave & _ & _). rewrite Hrun. split; simpl.
    + intros t' q Hq Hq_cs.
      destruct (lookup_insert_thread _ _ _ _ _ _ Ht Hq) as [[-> ->]|[Hne Hq']].
      * destruct (Hkeep Hq_cs) as [Hp_cs|[? ->]]; [by eapply Hin|].
        destruct Hnacq; eauto.
      * by eapply Hin.
    + intros t' Hlock. destruct (Hown _ Hlock) as (q & Hq & Hq_cs).
      destruct (decide (t' = t)) as [->|Hne].
      * exists p'. rewrite list_lookup_insert_eq by done. split; [done|].
        rewrite Ht in Hq. injection Hq as <-.
        destruct (in_critical_section p') eqn:Hp'; [done|].
        by destruct Hnrel; apply Hleave.
      * exists q. by rewrite list_lookup_insert_ne.
  - destruct Hrun as [-> Hrun]. rewrite Hrun. split; simpl.
    + intros t' q Hq Hq_cs.
      destruct (lookup_insert_thread _ _ _ _ _ _ Ht Hq) as [[-> ->]|[Hne Hq']];
        [done|]. by eapply Hin.
    + intros t' Hlock. destruct (Hown _ Hlock) as (q & Hq & Hq_cs).
      destruct (decide (t' = t)) as [->|Hne];
        [rewrite Ht in Hq; by simplify_eq|].
      exists q. by rewrite list_lookup_insert_ne.
Qed.

Lemma lookup_spawn (sys : system) (p q : pc) (t : nat) :
  threads (spawn p sys).2 !! t = Some q →
  threads sys !! t = Some q ∨ (t = length (threads sys) ∧ q = p).
Proof.
  simpl. intros [?|[? ?]]%lookup_app_Some; [by left|right].
  destruct (t - length (threads sys))%nat eqn:E; simplify_eq/=.
  split; [lia|done].
Qed.

Lemma spawn_lock_discipline (sys : system) (p : pc) :
  in_critical_section p = false →
  lock_discipline sys → lock_discipline (spawn p sys).2.
Proof.
  intros Hp [Hin Hown]. split.
  - intros t q Hq Hq_cs.
    destruct (lookup_spawn _ _ _ _ Hq) as [Hq'|[-> ->]]; [|congruence].
    by eapply Hin.
  - intros t Hlock. destruct (Hown t Hlock) as (q & Hq & Hq_cs).
    exists q. split; [|done]. simpl. by apply lookup_app_l_Some.
Qed.

Lemma step_lock_discipline cfg sys a sys' :
  lock_discipline sys → step cfg sys a sys' → lock_discipline sys'.
Proof.
  intros Hinv Hstep. destruct Hstep as [sys t p sys' Ht Hstep|sys changes Hw|sys|sys|sys doc_id data].
  - by eapply thread_step_lock_discipline.
  - by apply spawn_lock_discipline.
  - unfold start_worker. destruct (running sys); [done|].
    by apply (spawn_lock_discipline (set_running true sys) L_start).
  - done.
  - done.
Qed.

Lemma reachable_lock_discipline cfg sys :
  reachable cfg sys → lock_discipline sys.
Proof.
  induction 1 as [d now fs|sys a sys' _ IH Hstep].
  - split; simpl; [intros t p Hp; by rewrite lookup_nil in Hp|by intros t].
  - by eapply step_lock_discipline.
Qed.

(** A schedule that runs leads to a reachable system. *)
Lemma exec_actor_step cfg a sys sys' :
  exec_actor cfg a sys = Some sys' → step cfg sys a sys'.
Proof.
  destruct a as [t|changes| | |doc_id data]; simpl.
  - destruct (threads sys !! t) as [p|] eqn:Ht; simpl; [|done].
    intros Hstep. by eapply step_thread.
  - case_bool_decide; [|done]. intros [= <-]. by apply step_deliver.
  - intros [= <-]. apply step_start.
  - intros [= <-]. apply step_stop.
  - intros [= <-]. apply step_ingest.
Qed.

Lemma exec_schedule_reachable cfg sched sys sys' :
  reachable cfg sys → exec_schedule cfg sched sys = Some sys' →
  reachable cfg sys'.
Proof.
  revert sys. induction sched as [|a sched IH]; intros sys Hreach; simpl.
  - by intros [= <-].
  - destruct (exec_actor cfg a sys) as [sys1|] eqn:Ha; simpl; [|done].
    apply IH. eapply reachable_step; [done|]. by apply exec_actor_step.
Qed.

(** ** Who writes the reconciler state *)

(** Only the statements that assign them change the two globals of the
    reconciler. *)
Lemma step_writes cfg sys a sys' :
  step cfg sys a sys' →
  (last_processed_doc_id (st sys') ≠ last_processed_doc_id (st sys) →
   ∃ t p, a = Thread t ∧ threads sys !! t = Some p ∧
          G_last_processed_doc_id ∈ writes_of p) ∧
  (initial_snapshot_received (st sys') ≠ initial_snapshot_received (st sys) →
   ∃ t p, a = Thread t ∧ threads sys !! t = Some p ∧
          G_initial_snapshot_received ∈ writes_of p).
Proof.
  intros Hstep.
  destruct Hstep as [sys t p sys' Ht Hstep|sys changes Hw|sys|sys|sys doc_id data].
  - destruct (run_statement_cases cfg t p sys) as (r & s' & Hcode & Hrun).
    destruct (step_code_frame _ _ _ _ _ Hcode) as [Hlast Hflag].
    assert (st sys' = s') as ->.
    { unfold thread_step in Hstep. destruct r as [p'|e].
      - destruct p; cbn [thread_step] in Hstep; try discriminate;
          try (destruct (processing_lock sys); try discriminate);
          injection Hstep as <-; cbn [st set_processing_lock];
          by rewrite Hrun.
      - destruct Hrun as [-> Hrun]. injection Hstep as <-. by rewrite Hrun. }
    split; intros Hchanged; exists t, p; split_and!; try done.
    + destruct (decide (G_last_processed_doc_id ∈ writes_of p)); [done|].
      by destruct Hchanged; apply Hlast.
    + destruct (decide (G_initial_snapshot_received ∈ writes_of p)); [done|].
      by destruct Hchanged; apply Hflag.
  - by split.
  - unfold start_worker. destruct (running sys); by split.
  - by split.
  - by split.
Qed.

(** C7, amended. In every reachable system: the callback assigns
    [last_processed_doc_id] while it holds [processing_lock]; the
    assignment of [initial_snapshot_received] by the callback and the
    assignment of the baseline by [start_listener] are made without the
    lock; at most one thread is inside the [with] block; and the two
    globals change only by the statements of [on_snapshot] and
    [start_listener] that assign them (no request to the controller, no
    delivery, no other statement changes them). *)
Theorem reconciler_state_writes cfg sys :
  reachable cfg sys →
  (∀ t doc_id,
     threads sys !! t = Some (S_set_last doc_id) → processing_lock sys = Some t) ∧
  (∀ t changes,
     threads sys !! t = Some (S_set_flag changes) → processing_lock sys ≠ Some t) ∧
  (∀ t doc_id,
     threads sys !! t = Some (L_set_baseline doc_id) →
     processing_lock sys ≠ Some t) ∧
  (∀ t1 t2 p1 p2,
     threads sys !! t1 = Some p1 → threads sys !! t2 = Some p2 →
     in_critical_section p1 = true → in_critical_section p2 = true → t1 = t2) ∧
  (∀ a sys',
     step cfg sys a sys' →
     (last_processed_doc_id (st sys') ≠ last_processed_doc_id (st sys) →
      ∃ t p, a = Thread t ∧ threads sys !! t = Some p ∧
             G_last_processed_doc_id ∈ writes_of p) ∧
     (initial_snapshot_received (st sys') ≠ initial_snapshot_received (st sys) →
      ∃ t p, a = Thread t ∧ threads sys !! t = Some p ∧
             G_initial_snapshot_received ∈ writes_of p)).
Proof.
  intros Hreach.
  destruct (reachable_lock_discipline cfg sys Hreach) as [Hin Hown].
  split_and!.
  - intros t doc_id Ht. by eapply Hin.
  - intros t changes Ht Hlock. destruct (Hown t Hlock) as (p & Hp & Hcs).
    rewrite Ht in Hp. by simplify_eq.
  - intros t doc_id Ht Hlock. destruct (Hown t Hlock) as (p & Hp & Hcs).
    rewrite Ht in Hp. by simplify_eq.
  - intros t1 t2 p1 p2 H1 H2 Hcs1 Hcs2.
    pose proof (Hin _ _ H1 Hcs1). pose proof (Hin _ _ H2 Hcs2). congruence.
  - intros a sys'. apply step_writes.
Qed.

Lemma new_reading_schedule_runs :
  exec_schedule default_config new_reading_schedule sample_system
  = Some (run_schedule default_config new_reading_schedule sample_system).
Proof. vm_compute. reflexivity. Qed.

Lemma reconciler_state_writes_witness :
  reachable default_config
    (run_schedule default_config new_reading_schedule sample_system) ∧
  processing_lock (run_schedule default_config new_reading_schedule sample_system)
  = Some 2%nat.
Proof.
  assert (reachable default_config
            (run_schedule default_config new_reading_schedule sample_system))
    as Hreach.
  { eapply exec_schedule_reachable; [apply reachable_init|].
    apply new_reading_schedule_runs. }
  split; [exact Hreach|].
  apply (proj1 (reconciler_state_writes default_config _ Hreach) 2%nat "r2").
  vm_compute. reflexivity.
Defined.

(** C7 as stated fails: after the worker attached and the initial
    snapshot arrived, the callback stands at
    [initial_snapshot_received = True] and the lock is free. *)
Lemma state_written_under_lock_only_counterexample :
  ¬ state_written_under_lock_only default_config.
Proof.
  intros Hall.
  assert (exec_schedule default_config initial_snapshot_schedule sample_system
          = Some (run_schedule default_config initial_snapshot_schedule
                    sample_system)) as Hrun by (vm_compute; reflexivity).
  assert (processing_lock
            (run_schedule default_config initial_snapshot_schedule sample_system)
          = Some 1%nat) as Hlock.
  { eapply (Hall _ 1%nat (S_set_flag [(ADDED, "r0"); (ADDED, "r1")])).
    - eapply exec_schedule_reachable; [apply reachable_init|exact Hrun].
    - vm_compute. reflexivity.
    - right. simpl. apply elem_of_cons. by left. }
  vm_compute in Hlock. discriminate.
Qed.

(** ** The threads run the sequential code *)

Lemma lookup_insert_self (ts : list pc) (t : nat) (p q : pc) :
  ts !! t = Some p → <[t := q]> ts !! t = Some q.
Proof. intros Ht. apply list_lookup_insert_eq. by eapply lookup_lt_Some. Qed.

Lemma moved_lookup t p p' s' sys :
  threads sys !! t = Some p → threads (moved t p' s' sys) !! t = Some p'.
Proof. intros Ht. simpl. by eapply lookup_insert_self. Qed.

Lemma run_thread_plain cfg n t p sys p' s' :
  threads sys !! t = Some p →
  plain_statement p = true →
  step_code cfg p (st sys) = (Ok p', s') →
  run_thread cfg (S n) t sys = run_thread cfg n t (moved t p' s' sys).
Proof.
  intros Ht Hplain Hcode. cbn [run_thread]. rewrite Ht.
  assert (thread_step cfg t p sys = Some (run_statement cfg t p sys)) as ->
    by (by destruct p).
  unfold run_statement. by rewrite Hcode.
Qed.

Lemma run_thread_raise cfg n t p sys e s' :
  threads sys !! t = Some p →
  plain_statement p = true →
  in_critical_section p = false →
  step_code cfg p (st sys) = (Raise e, s') →
  run_thread cfg (S n) t sys = moved t (Crashed e) s' sys.
Proof.
  intros Ht Hplain Hcs Hcode. cbn [run_thread]. rewrite Ht.
  assert (thread_step cfg t p sys = Some (run_statement cfg t p sys)) as ->
    by (by destruct p).
  unfold run_statement. rewrite Hcode, Hcs.
  destruct n; [done|]. cbn [run_thread]. simpl.
  by erewrite lookup_insert_self.
Qed.

Lemma run_thread_acquire cfg n t changes sys :
  threads sys !! t = Some (S_acquire changes) →
  processing_lock sys = None →
  run_thread cfg (S n) t sys =
  run_thread cfg n t
    (set_processing_lock (Some t)
       (moved t (S_query changes) (add_event Acquire (st sys)) sys)).
Proof. intros Ht Hlock. cbn [run_thread]. rewrite Ht. simpl. by rewrite Hlock. Qed.

Lemma run_thread_release cfg n t sys :
  threads sys !! t = Some S_release →
  run_thread cfg (S n) t sys =
  set_processing_lock None
    (moved t Done (add_event Release (add_line LogWaiting (st sys))) sys).
Proof.
  intros Ht. cbn [run_thread]. rewrite Ht. simpl.
  destruct n; [done|]. cbn [run_thread]. simpl.
  by erewrite lookup_insert_self.
Qed.

Lemma run_thread_done cfg n t sys :
  threads sys !! t = Some Done → run_thread cfg n t sys = sys.
Proof. intros Ht. destruct n; [done|]. cbn [run_thread]. by rewrite Ht. Qed.

(** The listener thread run alone does what [start_listener_setup] does,
    and then stays in its loop. *)
Lemma listener_thread_runs_setup cfg t sys :
  threads sys !! t = Some L_start →
  ∃ r s',
    start_listener_setup cfg (st sys) = (r, s') ∧
    st (run_thread cfg 3 t sys) = s' ∧
    threads (run_thread cfg 3 t sys) !! t =
      Some (match r with Ok _ => L_loop | Raise e => Crashed e end) ∧
    processing_lock (run_thread cfg 3 t sys) = processing_lock sys.
Proof.
  intros Ht. unfold start_listener_setup. unfold_monad.
  set (final := run_thread cfg 3 t sys). simpl.
  destruct (get_current_latest_document_cases cfg (add_line LogBanner (st sys)))
    as (r0 & q & s1 & Hget & _).
  rewrite Hget. destruct r0 as [[doc_id data]|]; simpl; subst final.
  - erewrite (run_thread_plain cfg 2 t L_start); [|exact Ht|done|];
      [|cbn [step_code]; unfold_monad; simpl; rewrite Hget; reflexivity].
    erewrite (run_thread_plain cfg 1 t (L_set_baseline doc_id));
      [|by eapply moved_lookup|done|reflexivity].
    destruct (watch (RAW_COLLECTION cfg) _) as [[[]|e] s2] eqn:Hw.
    + erewrite (run_thread_plain cfg 0 t L_attach);
        [|by eapply moved_lookup, moved_lookup|done|];
        [|cbn [step_code]; unfold_monad; simpl; rewrite Hw; reflexivity].
      do 2 eexists. split_and!; try reflexivity.
      eapply moved_lookup, moved_lookup, moved_lookup, Ht.
    + erewrite (run_thread_raise cfg 0 t L_attach);
        [|by eapply moved_lookup, moved_lookup|done|done|];
        [|cbn [step_code]; unfold_monad; simpl; rewrite Hw; reflexivity].
      do 2 eexists. split_and!; try reflexivity.
      eapply moved_lookup, moved_lookup, moved_lookup, Ht.
  - erewrite (run_thread_plain cfg 2 t L_start); [|exact Ht|done|];
      [|cbn [step_code]; unfold_monad; simpl; rewrite Hget; reflexivity].
    destruct (watch (RAW_COLLECTION cfg) _) as [[[]|e] s2] eqn:Hw.
    + erewrite (run_thread_plain cfg 1 t L_attach);
        [|by eapply moved_lookup|done|];
        [|cbn [step_code]; unfold_monad; simpl; rewrite Hw; reflexivity].
      cbn [run_thread]. erewrite moved_lookup by (by eapply moved_lookup).
      cbn [thread_step run_statement step_code]. unfold_monad. simpl.
      do 2 eexists. split_and!; try reflexivity.
      apply list_lookup_insert_eq. rewrite !length_insert.
      by eapply lookup_lt_Some.
    + erewrite (run_thread_raise cfg 1 t L_attach);
        [|by eapply moved_lookup|done|done|];
        [|cbn [step_code]; unfold_monad; simpl; rewrite Hw; reflexivity].
      do 2 eexists. split_and!; try reflexivity.
      eapply moved_lookup, moved_lookup, Ht.
Qed.

Ltac solve_lookup Ht :=
  simpl; repeat first [exact Ht | eapply lookup_insert_self].

(** A callback thread run alone, with the lock free, does what
    [on_snapshot] does. *)
Lemma callback_thread_runs_on_snapshot cfg t changes sys :
  threads sys !! t = Some (S_check changes) →
  processing_lock sys = None →
  on_snapshot cfg changes (st sys) = (Ok tt, st (run_thread cfg 7 t sys)) ∧
  threads (run_thread cfg 7 t sys) !! t = Some Done ∧
  processing_lock (run_thread cfg 7 t sys) = None.
Proof.
  intros Ht Hlock.
  unfold on_snapshot, with_processing_lock, release_after, on_snapshot_locked.
  unfold_monad. set (final := run_thread cfg 7 t sys). simpl.
  destruct (initial_snapshot_received (st sys)) eqn:Hflag; simpl.
  - (* the batch is handled *)
    rewrite print_all_eq.
    assert (final = run_thread cfg 5 t
              (set_processing_lock (Some t)
                 (moved t (S_query changes) (add_event Acquire (st sys))
                    (moved t (S_acquire changes) (st sys) sys)))) as Hfinal.
    { subst final.
      erewrite (run_thread_plain cfg 6 t (S_check changes));
        [|exact Ht|done|cbn [step_code]; unfold_monad; simpl; by rewrite Hflag].
      erewrite (run_thread_acquire cfg 5 t changes);
        [done|solve_lookup Ht|done]. }
    clearbody final.
    destruct (bool_decide (3 < length changes)%nat) eqn:Hmore; simpl.
    all: match goal with
         | |- context [get_latest_document_by_timestamp _ ?x] =>
             destruct (get_latest_document_by_timestamp_cases cfg x)
               as (r & q & s_r & Hget & _ & _ & _ & Hlast & _)
         end.
    all: rewrite Hget; simpl.
    all: destruct r as [[doc_id data]|]; simpl.
    all: erewrite (run_thread_plain cfg 4 t (S_query changes)) in Hfinal;
           [|solve_lookup Ht|done
            |cbn [step_code]; unfold_monad; simpl; rewrite print_all_eq, Hmore;
             simpl; rewrite Hget; reflexivity].
    all: try (erewrite run_thread_release in Hfinal by solve_lookup Ht;
              subst final;
              split_and!; [reflexivity|solve_lookup Ht|reflexivity]).
    all: destruct (bool_decide (Some doc_id ≠ last_processed_doc_id s_r)) eqn:Hne;
           simpl.
    all: erewrite (run_thread_plain cfg 3 t (S_compare doc_id data)) in Hfinal;
           [|solve_lookup Ht|done
            |cbn [step_code]; unfold_monad; simpl; rewrite Hne; reflexivity].
    all: try (erewrite run_thread_release in Hfinal by solve_lookup Ht;
              subst final;
              split_and!; [reflexivity|solve_lookup Ht|reflexivity]).
    all: destruct (process_document_returns cfg doc_id data
                     (add_line LogNewLatest (add_line (LogLatest doc_id) s_r)))
           as (b & s_p & ? & Hp & _).
    all: rewrite Hp; simpl.
    all: destruct b; simpl.
    all: erewrite (run_thread_plain cfg 2 t (S_process doc_id data)) in Hfinal;
           [|solve_lookup Ht|done
            |cbn [step_code]; unfold_monad; simpl; rewrite Hp; reflexivity].
    all: try (erewrite run_thread_release in Hfinal by solve_lookup Ht;
              subst final;
              split_and!; [reflexivity|solve_lookup Ht|reflexivity]).
    all: erewrite (run_thread_plain cfg 1 t (S_set_last doc_id)) in Hfinal;
           [|solve_lookup Ht|done|reflexivity].
    all: erewrite run_thread_release in Hfinal by solve_lookup Ht;
           subst final;
           split_and!; [reflexivity|solve_lookup Ht|reflexivity].
  - (* the initial snapshot *)
    subst final.
    erewrite (run_thread_plain cfg 6 t (S_check changes));
      [|exact Ht|done|cbn [step_code]; unfold_monad; simpl; by rewrite Hflag].
    erewrite (run_thread_plain cfg 5 t (S_set_flag changes));
      [|solve_lookup Ht|done|reflexivity].
    erewrite run_thread_done by solve_lookup Ht.
    split_and!; [reflexivity|solve_lookup Ht|done].
Qed.

(** ** The lifecycle controller *)

(** No statement of a thread reads [running]. *)
Lemma thread_step_running cfg t p b sys :
  thread_step cfg t p (set_running b sys)
  = set_running b <$> thread_step cfg t p sys.
Proof.
  assert (run_statement cfg t p (set_running b sys)
          = set_running b (run_statement cfg t p sys)) as Hrun.
  { unfold run_statement. simpl.
    destruct (step_code cfg p (st sys)) as [[p'|e] s']; [done|].
    by destruct (in_critical_section p). }
  destruct p; simpl; rewrite ?Hrun; try done.
  by destruct (processing_lock sys).
Qed.

(** C9. [start_worker] on a running worker returns the already-running
    message and changes nothing but the printed lines.  Otherwise it sets
    [running], adds a thread that stands at the start of [start_listener]
    and has not run (no store call was made, no listener is attached),
    and returns the started message; that thread, when it runs, does what
    [start_listener] does up to its loop. *)
Theorem start_worker_lifecycle cfg sys :
  (running sys = true →
   (start_worker sys).1 = "Worker already running" ∧
   running (start_worker sys).2 = true ∧
   threads (start_worker sys).2 = threads sys ∧
   worker_thread (start_worker sys).2 = worker_thread sys ∧
   processing_lock (start_worker sys).2 = processing_lock sys ∧
   st (start_worker sys).2 = add_line LogAlreadyRunning (st sys)) ∧
  (running sys = false →
   (start_worker sys).1 = "Worker started" ∧
   running (start_worker sys).2 = true ∧
   threads (start_worker sys).2 = threads sys ++ [L_start] ∧
   worker_thread (start_worker sys).2 = Some (length (threads sys)) ∧
   processing_lock (start_worker sys).2 = processing_lock sys ∧
   st (start_worker sys).2 = add_line LogWorkerStarted (st sys) ∧
   watches (st (start_worker sys).2) = watches (st sys) ∧
   events_since (st sys) (st (start_worker sys).2) = [] ∧
   ∃ r s',
     start_listener_setup cfg (st (start_worker sys).2) = (r, s') ∧
     st (run_thread cfg 3 (length (threads sys)) (start_worker sys).2) = s' ∧
     threads (run_thread cfg 3 (length (threads sys)) (start_worker sys).2)
       !! length (threads sys)
     = Some (match r with Ok _ => L_loop | Raise e => Crashed e end)).
Proof.
  split; intros Hrunning; unfold start_worker; rewrite Hrunning; simpl.
  - done.
  - split_and!; try done.
    + unfold events_since. simpl. apply drop_all.
    + destruct (listener_thread_runs_setup cfg (length (threads sys))
                  (start_worker sys).2) as (r & s' & Hsetup & Hst & Hpc & _).
      { unfold start_worker. rewrite Hrunning. simpl.
        by rewrite lookup_app_r, Nat.sub_diag. }
      unfold start_worker in Hsetup, Hst, Hpc. rewrite Hrunning in Hsetup, Hst, Hpc.
      exists r, s'. done.
Qed.

(** C10. [stop_worker] clears [running] and prints; the threads, the lock,
    [worker_thread], the listeners and the reconciler state are as
    before.  No statement of a thread reads [running].  A [start_worker]
    after it returns the started message and adds one more listener
    thread, while a previous listener in its loop is still there and
    still runs. *)
Theorem stop_worker_only_clears_running cfg sys :
  (stop_worker sys).1 = "Worker stopping" ∧
  running (stop_worker sys).2 = false ∧
  threads (stop_worker sys).2 = threads sys ∧
  processing_lock (stop_worker sys).2 = processing_lock sys ∧
  worker_thread (stop_worker sys).2 = worker_thread sys ∧
  st (stop_worker sys).2 = add_line LogStopRequested (st sys) ∧
  watches (st (stop_worker sys).2) = watches (st sys) ∧
  (start_worker (stop_worker sys).2).1 = "Worker started" ∧
  running (start_worker (stop_worker sys).2).2 = true ∧
  threads (start_worker (stop_worker sys).2).2 = threads sys ++ [L_start] ∧
  (∀ t p b,
     thread_step cfg t p (set_running b sys)
     = set_running b <$> thread_step cfg t p sys) ∧
  (∀ t,
     threads sys !! t = Some L_loop →
     threads (start_worker (stop_worker sys).2).2 !! t = Some L_loop ∧
     ∃ sys',
       thread_step cfg t L_loop (start_worker (stop_worker sys).2).2 = Some sys' ∧
       threads sys' = threads sys ++ [L_start] ∧
       st sys' = st (start_worker (stop_worker sys).2).2).
Proof.
  split_and!; try done.
  - intros t p b. apply thread_step_running.
  - intros t Ht. simpl. split; [by apply lookup_app_l_Some|].
    eexists. split; [reflexivity|]. simpl. split; [|done].
    apply list_insert_id. by apply lookup_app_l_Some.
Qed.

(** ** The embedding at the sample data *)

Example eq_True_bool : eq_True (Some (VBool true)) = true.
Proof. reflexivity. Qed.

Example eq_True_int_one : eq_True (Some (VInt 1)) = true.
Proof. reflexivity. Qed.

Example eq_True_float_one : eq_True (Some (VFloat float_one_bits)) = true.
Proof. reflexivity. Qed.

Example eq_True_absent : eq_True (reading_r1 !! "processed") = false.
Proof. reflexivity. Qed.

Example prepare_input_r1 :
  prepare_input reading_r1
  = Ok [VInt 10; VInt 5; VInt 8; VFloat 0x4018CCCCCCCCCCCD; VInt 300].
Proof. reflexivity. Qed.

Example prepare_input_r0 :
  prepare_input reading_r0 = Raise (KeyError "Missing field: pH").
Proof. reflexivity. Qed.

Example process_document_r1_prints :
  stdout (process_document default_config "r1" reading_r1 sample_state).2
  = [LogProcessing "r1"; LogSaved "r1"].
Proof. vm_compute. reflexivity. Qed.

Example process_document_r1_marks_source :
  (collection_of
     (db (process_document default_config "r1" reading_r1 sample_state).2)
     "npk_readings" !! "r1") ≫= (.!! "processed")
  = Some (VBool true).
Proof. vm_compute. reflexivity. Qed.

Example process_document_r0_prints :
  stdout (process_document default_config "r0" reading_r0 sample_state).2
  = [LogProcessing "r0";
     LogMissingField "r0" (KeyError "Missing field: pH")].
Proof. vm_compute. reflexivity. Qed.

(** A store that fails the first read: the call ends in the generic
    handler. *)
Example process_document_r1_read_fails :
  (λ '(r, s), (r, stdout s))
    (process_document default_config "r1" reading_r1
       (set_faults [Some (Error "unavailable")] sample_state))
  = (Ok false, [LogProcessing "r1"; LogError "r1" (Error "unavailable")]).
Proof. vm_compute. reflexivity. Qed.

Example start_listener_sets_baseline :
  (λ s, (last_processed_doc_id s, watches s))
    (start_listener_setup default_config sample_state).2
  = (Some "r1", 1%nat).
Proof. vm_compute. reflexivity. Qed.

Example start_listener_empty_collection :
  last_processed_doc_id
    (start_listener_setup default_config (initial_state ∅ 1000 [])).2
  = None.
Proof. vm_compute. reflexivity. Qed.

(** The whole run of [new_reading_schedule] and two more steps of the
    callback: [r2] is calibrated, the lock is free again. *)
Example new_reading_run :
  (λ sys, (processing_lock sys, last_processed_doc_id (st sys),
           bool_decide
             (is_Some (collection_of (db (st sys))
                         "calibrated_npk_readings_sensor_1" !! "r2")),
           threads sys))
    (run_schedule default_config (new_reading_schedule ++ [Thread 2; Thread 2])
       sample_system)
  = (None, Some "r2", true, [L_loop; Done; Done]).
Proof. vm_compute. reflexivity. Qed.

(** ** The theorems at the sample data *)

Lemma required_pH : "pH" ∈ required.
Proof. unfold required. do 3 apply list_elem_of_further. apply list_elem_of_here. Qed.

Lemma sample_latest :
  order_by_desc_limit_1 (order_leb default_config) "timestamp"
    (collection_of (db sample_state_listening) (RAW_COLLECTION default_config))
  = Some ("r1", reading_r1).
Proof. vm_compute. reflexivity. Qed.

Lemma sample_process_r1 :
  process_document default_config "r1" reading_r1 sample_state
  = (Ok true, (process_document default_config "r1" reading_r1 sample_state).2).
Proof. vm_compute. reflexivity. Qed.

Lemma on_snapshot_initial_snapshot_witness :
  initial_snapshot_received sample_state = false ∧
  ∃ s',
    on_snapshot default_config [(ADDED, "r0"); (ADDED, "r1")] sample_state
    = (Ok tt, s') ∧
    initial_snapshot_received s' = true ∧
    last_processed_doc_id s' = last_processed_doc_id sample_state ∧
    events_since sample_state s' = [].
Proof.
  split; [reflexivity|].
  destruct (on_snapshot_initial_snapshot default_config
              [(ADDED, "r0"); (ADDED, "r1")] sample_state eq_refl)
    as (s' & Hrun & Hflag & Hlast & Hevents & _).
  exists s'. split_and!; assumption.
Defined.

Lemma on_snapshot_reconciles_witness :
  ∃ s',
    on_snapshot default_config [(ADDED, "r1")] sample_state_listening
    = (Ok tt, s') ∧
    (last_processed_doc_id sample_state_listening ≠ Some "r1" →
     ∃ success,
       last_processed_doc_id s' =
         (if success : bool then Some "r1"
          else last_processed_doc_id sample_state_listening)).
Proof.
  destruct (on_snapshot_reconciles default_config [(ADDED, "r1")]
              sample_state_listening "r1" reading_r1
              eq_refl (or_introl eq_refl) sample_latest)
    as (s' & Hrun & _ & Hnew).
  exists s'. split; [exact Hrun|].
  intros Hne.
  destruct (Hnew Hne)
    as (s_call & success & s_ret & rest & _ & _ & _ & _ & _ & _ & _ & Hlast).
  exists success. exact Hlast.
Defined.

Lemma sample_update_fails_run :
  process_document default_config "r1" reading_r1 sample_state_update_fails
  = (Ok false,
     (process_document default_config "r1" reading_r1
        sample_state_update_fails).2).
Proof. vm_compute. reflexivity. Qed.

Lemma sample_update_fails_writes :
  writes_reading default_config "r1" reading_r1 sample_state_update_fails.
Proof.
  split; [by right|]. split; [reflexivity|]. split; [reflexivity|]. split.
  - eexists _, _, _, _, _, _, []. split; [exact prepare_input_r1|reflexivity].
  - by right.
Qed.

Lemma process_document_twice_witness :
  process_document default_config "r1" reading_r1 sample_state_update_fails
  = (Ok false,
     (process_document default_config "r1" reading_r1
        sample_state_update_fails).2) ∧
  twice_yields_one_reading default_config "r1" reading_r1
    sample_state_update_fails.
Proof.
  split; [exact sample_update_fails_run|].
  apply (proj2 (process_document_twice default_config "r1" reading_r1
                  sample_state_update_fails)).
  split; [exact sample_update_fails_writes|by left].
Defined.

(** C4 as stated, for every reading that lacks a channel, fails: a
    reading without [pH] that is flagged as processed leaves through the
    second guard, not through the validation. *)
Lemma process_document_missing_field_counterexample :
  "pH" ∈ required ∧ reading_r0_flagged !! "pH" = None ∧
  ¬ fails_validation_without_write default_config "r0" reading_r0_flagged
      sample_state.
Proof.
  split; [exact required_pH|]. split; [reflexivity|].
  intros (s' & Hrun & (k & _ & _ & _ & Hline) & _).
  destruct (process_document_missing_paths default_config "r0"
              reading_r0_flagged sample_state "pH" required_pH eq_refl)
    as (s1 & r & line & Hrun1 & _ & _ & Hout & Hpath).
  rewrite Hrun in Hrun1. injection Hrun1 as <-.
  rewrite Hout in Hline. apply app_inv_head in Hline. injection Hline as ->.
  destruct Hpath as [[_ Hfault]|(_ & _ & Hguards)].
  - apply Hfault. by left.
  - destruct Hguards as [[_ [=]]|[(_ & _ & [=])|(_ & Hflag & _)]].
    vm_compute in Hflag. discriminate.
Qed.

Lemma process_document_missing_field_witness :
  ∃ s',
    process_document default_config "r0" reading_r0 sample_state = (Ok false, s') ∧
    db s' = db sample_state ∧
    validation_failure default_config "r0" reading_r0 sample_state s'.
Proof.
  destruct (process_document_missing_field default_config "r0" reading_r0
              sample_state "pH" required_pH eq_refl)
    as (s' & Hrun & Hdb & _ & Hpath).
  exists s'. split; [exact Hrun|]. split; [exact Hdb|].
  apply (proj2 Hpath). split; [by left|]. split; reflexivity.
Defined.

Lemma process_document_calibrated_reading_witness :
  ∃ stored,
    collection_of
      (db (process_document default_config "r1" reading_r1 sample_state).2)
      (CALIBRATED_COLLECTION default_config) !! "r1" = Some stored.
Proof.
  destruct (process_document_calibrated_reading default_config "r1" reading_r1
              sample_state _ sample_process_r1)
    as (row & c0 & c1 & c2 & c3 & c4 & rest & stored & _ & _ & H).
  cbv zeta in H. destruct H as (_ & _ & _ & _ & _ & _ & _ & _ & Hstored & _).
  exists stored. exact Hstored.
Defined.

(** * Further properties of the code *)

(** ** [prepare_input] *)

Lemma check_required_ok (keys : list string) (data : dict) :
  check_required keys data = Ok tt ↔ ∀ k, k ∈ keys → is_Some (data !! k).
Proof.
  induction keys as [|k0 keys IH]; simpl.
  - split; [intros _ k Hk; by apply elem_of_nil in Hk|done].
  - destruct (data !! k0) eqn:Hk0.
    + rewrite IH. split.
      * intros Hall k [->|Hk]%elem_of_cons; [by rewrite Hk0|by apply Hall].
      * intros Hall k Hk. apply Hall. by apply elem_of_cons; right.
    + split; [done|]. intros Hall.
      destruct (Hall k0) as [v Hv]; [by apply elem_of_cons; left|congruence].
Qed.

(** The loop stops at the first key that is missing. *)
Lemma check_required_first_missing (keys : list string) (data : dict) (e : exn) :
  check_required keys data = Raise e ↔
  ∃ present key rest,
    keys = present ++ key :: rest ∧
    (∀ k, k ∈ present → is_Some (data !! k)) ∧
    data !! key = None ∧
    e = KeyError (String.append "Missing field: " key).
Proof.
  induction keys as [|k0 keys IH]; simpl.
  - split; [done|]. intros (present & key & rest & Hkeys & _).
    by destruct present.
  - destruct (data !! k0) eqn:Hk0.
    + rewrite IH. split.
      * intros (present & key & rest & -> & Hall & Hnone & ->).
        exists (k0 :: present), key, rest. split_and!; try done.
        intros k [->|Hk]%elem_of_cons; [by rewrite Hk0|by apply Hall].
      * intros (present & key & rest & Hkeys & Hall & Hnone & ->).
        destruct present as [|k1 present]; simplify_eq/=.
        exists present, key, rest. split_and!; try done.
        intros k Hk. apply Hall. by apply elem_of_cons; right.
    + split.
      * intros [= <-]. exists [], k0, keys. split_and!; try done.
        intros k Hk. by apply elem_of_nil in Hk.
      * intros (present & key & rest & Hkeys & Hall & Hnone & ->).
        destruct present as [|k1 present]; simplify_eq/=; [done|].
        destruct (Hall k1) as [v Hv]; [by apply elem_of_cons; left|congruence].
Qed.

(** X1. [prepare_input] returns a row exactly when the reading holds the
    five channels, and the row is then their values in the order [N], [P],
    [K], [pH], [Conductivity], whatever else the reading holds. *)
Theorem prepare_input_row (data : dict) (row : list value) :
  prepare_input data = Ok row ↔
  ∃ n p k ph ec,
    data !! "N" = Some n ∧ data !! "P" = Some p ∧ data !! "K" = Some k ∧
    data !! "pH" = Some ph ∧ data !! "Conductivity" = Some ec ∧
    row = [n; p; k; ph; ec].
Proof.
  unfold prepare_input, required, subscript. simpl. split.
  - intros H.
    destruct (data !! "N") as [n|]; [|done].
    destruct (data !! "P") as [p|]; [|done].
    destruct (data !! "K") as [k|]; [|done].
    destruct (data !! "pH") as [ph|]; [|done].
    destruct (data !! "Conductivity") as [ec|]; [|done].
    simpl in H. injection H as <-. by exists n, p, k, ph, ec.
  - intros (n & p & k & ph & ec & H1 & H2 & H3 & H4 & H5 & ->).
    by rewrite H1, H2, H3, H4, H5.
Qed.

(** X2. [prepare_input] raises exactly when a required channel is missing,
    and the exception is the [KeyError] that names the first missing one in
    the order of the list [required]: the channels before it are there. *)
Theorem prepare_input_first_missing (data : dict) (e : exn) :
  prepare_input data = Raise e ↔
  ∃ present key rest,
    required = present ++ key :: rest ∧
    (∀ k, k ∈ present → is_Some (data !! k)) ∧
    data !! key = None ∧
    e = KeyError (String.append "Missing field: " key).
Proof.
  rewrite <- check_required_first_missing.
  unfold prepare_input.
  destruct (check_required required data) as [[]|e'] eqn:Hcheck; simpl;
    [|split; intros [= ->]; reflexivity].
  split; [|done]. intros H. exfalso.
  pose proof (proj1 (check_required_ok _ _) Hcheck) as Hall. clear Hcheck.
  assert (∀ k, k ∈ required → ∃ v, subscript data k = Ok v) as Hsub.
  { intros k Hk. destruct (Hall k Hk) as [v Hv]. exists v.
    unfold subscript. by rewrite Hv. }
  unfold required in Hsub.
  destruct (Hsub "N") as [? H1]; [repeat first [apply list_elem_of_here | apply list_elem_of_further]|].
  destruct (Hsub "P") as [? H2]; [repeat first [apply list_elem_of_here | apply list_elem_of_further]|].
  destruct (Hsub "K") as [? H3]; [repeat first [apply list_elem_of_here | apply list_elem_of_further]|].
  destruct (Hsub "pH") as [? H4]; [repeat first [apply list_elem_of_here | apply list_elem_of_further]|].
  destruct (Hsub "Conductivity") as [? H5]; [repeat first [apply list_elem_of_here | apply list_elem_of_further]|].
  rewrite H1, H2, H3, H4, H5 in H. simpl in H. discriminate.
Qed.

(** ** [process_document]: what it writes *)

Lemma lookup_db_put d coll id doc c i :
  collection_of (db_put d coll id doc) c !! i =
  if decide (c = coll ∧ i = id) then Some doc else collection_of d c !! i.
Proof.
  unfold db_put. case_decide as H.
  - destruct H as [-> ->]. by rewrite collection_of_insert_eq, lookup_insert_eq.
  - destruct (decide (c = coll)) as [->|Hc].
    + rewrite collection_of_insert_eq, lookup_insert_ne; [done|]. naive_solver.
    + by rewrite collection_of_insert_ne.
Qed.

(** The database after a call: untouched, or with the calibrated reading
    written, or with the source updated as well. *)
Lemma process_document_db cfg doc_id data s r s' :
  process_document cfg doc_id data s = (r, s') →
  db s' = db s ∨
  (∃ d, db s' = db_put (db s) (CALIBRATED_COLLECTION cfg) doc_id d) ∨
  (∃ d d', db s' = db_put (db_put (db s) (CALIBRATED_COLLECTION cfg) doc_id d)
                     (RAW_COLLECTION cfg) doc_id d').
Proof.
  intros H. unfold_processor.
  split_cases; try (by left).
  all: try (right; left; eexists; reflexivity).
  all: right; right; do 2 eexists; reflexivity.
Qed.

(** X3. Whatever a call of [process_document] on [doc_id] does, it leaves
    every document alone but the two under [doc_id] in the calibrated and
    in the raw collection, and it deletes nothing. *)
Theorem process_document_touches_two_documents cfg doc_id data s r s' :
  process_document cfg doc_id data s = (r, s') →
  (∀ coll id,
     ¬ (coll = CALIBRATED_COLLECTION cfg ∧ id = doc_id) →
     ¬ (coll = RAW_COLLECTION cfg ∧ id = doc_id) →
     collection_of (db s') coll !! id = collection_of (db s) coll !! id) ∧
  (∀ coll id,
     is_Some (collection_of (db s) coll !! id) →
     is_Some (collection_of (db s') coll !! id)).
Proof.
  intros Hrun.
  destruct (process_document_db _ _ _ _ _ _ Hrun) as [->|[[d ->]|(d & d' & ->)]].
  - done.
  - split.
    + intros coll id Hcal _. rewrite lookup_db_put. by case_decide.
    + intros coll id Hsome. rewrite lookup_db_put. by case_decide.
  - split.
    + intros coll id Hcal Hraw. rewrite !lookup_db_put. by repeat case_decide.
    + intros coll id Hsome. rewrite !lookup_db_put. by repeat case_decide.
Qed.

Lemma eq_True_values (v : value) :
  eq_True (Some v) = true ↔
  v = VBool true ∨ v = VInt 1 ∨ v = VFloat float_one_bits.
Proof.
  destruct v as [|b|n|bits|str|t]; simpl; rewrite ?Z.eqb_eq.
  - split; [done|]. by intros [?|[?|?]].
  - split; [intros ->; by left|]. intros [?|[?|?]]; by simplify_eq.
  - split; [intros ->; by right; left|]. intros [?|[?|?]]; by simplify_eq.
  - split; [intros ->; by right; right|]. intros [?|[?|?]]; by simplify_eq.
  - split; [done|]. by intros [?|[?|?]].
  - split; [done|]. by intros [?|[?|?]].
Qed.

(** X4. The second guard of [process_document]: with no calibrated
    reading stored and the read completing, a reading whose [processed]
    field compares equal to [True] (the boolean, the integer [1] or the
    float [1.0]) is skipped: [False], one read of the store, nothing
    written, the skip line printed. *)
Theorem process_document_already_processed cfg doc_id data s v :
  next_call_completes s →
  collection_of (db s) (CALIBRATED_COLLECTION cfg) !! doc_id = None →
  data !! "processed" = Some v →
  v = VBool true ∨ v = VInt 1 ∨ v = VFloat float_one_bits →
  ∃ s',
    process_document cfg doc_id data s = (Ok false, s') ∧
    db s' = db s ∧
    events_since s s' =
      [Process doc_id data; Store (Get (CALIBRATED_COLLECTION cfg) doc_id) None] ∧
    stdout s' = stdout s ++ [LogProcessing doc_id; LogAlreadyProcessed doc_id].
Proof.
  intros Hnext Hfree Hv Htrue. apply eq_True_values in Htrue. rewrite <- Hv in Htrue.
  unfold next_call_completes in Hnext.
  unfold_processor. simpl.
  destruct (faults s) as [|[e|] fs] eqn:Hf; simpl in *;
    [|destruct Hnext; discriminate|].
  all: rewrite Hfree, bool_decide_eq_false_2 by (by intros [? ?]); simpl.
  all: rewrite Htrue; simpl.
  all: eexists; split_and!; try reflexivity.
  all: try (apply events_since_app); simpl; rewrite <- ?app_assoc; reflexivity.
Qed.

(** Once a calibrated reading exists, nothing is written for it, whether
    the read of the first guard completes or fails. *)
Lemma process_document_calibrated_is_final cfg doc_id data s :
  is_Some (collection_of (db s) (CALIBRATED_COLLECTION cfg) !! doc_id) →
  ∃ s' r,
    process_document cfg doc_id data s = (Ok false, s') ∧
    db s' = db s ∧
    events_since s s' =
      [Process doc_id data; Store (Get (CALIBRATED_COLLECTION cfg) doc_id) r].
Proof.
  intros Hsome. unfold_processor. simpl.
  destruct (faults s) as [|[e|] fs] eqn:Hf; simpl.
  2: { destruct e; do 2 eexists; split_and!; try reflexivity.
       all: apply events_since_app; simpl; rewrite <- ?app_assoc; reflexivity. }
  all: rewrite bool_decide_eq_true_2 by done; simpl.
  all: do 2 eexists; split_and!; try reflexivity.
  all: apply events_since_app; simpl; rewrite <- ?app_assoc; reflexivity.
Qed.

(** X5. The two writes of [process_document] are not atomic: when the
    update of the source document fails after the calibrated reading was
    stored, the call returns [False] and the calibrated reading stays. *)
Theorem process_document_update_fails cfg doc_id data s row c0 c1 c2 c3 c4 rest e fs :
  faults s = None :: None :: Some e :: fs →
  collection_of (db s) (CALIBRATED_COLLECTION cfg) !! doc_id = None →
  eq_True (data !! "processed") = false →
  prepare_input data = Ok row →
  model_predict cfg row = Ok (c0 :: c1 :: c2 :: c3 :: c4 :: rest) →
  let merged := merge data (calibrated_dict c0 c1 c2 c3 c4) in
  ∃ s',
    process_document cfg doc_id data s = (Ok false, s') ∧
    db s' = db_put (db s) (CALIBRATED_COLLECTION cfg) doc_id
              (resolve (server_time s) merged) ∧
    events_since s s' =
      [Process doc_id data;
       Store (Get (CALIBRATED_COLLECTION cfg) doc_id) None;
       Predict row true;
       Store (Set_ (CALIBRATED_COLLECTION cfg) doc_id merged) None;
       Store (Update (RAW_COLLECTION cfg) doc_id processed_fields) (Some e)].
Proof.
  intros Hf Hfree Hproc Hrow Hout. cbv zeta.
  unfold_processor. simpl. rewrite Hf. simpl.
  rewrite Hfree, bool_decide_eq_false_2 by (by intros [? ?]). simpl.
  rewrite Hproc, Hrow. simpl. rewrite Hout. simpl.
  destruct e; eexists; split_and!; try reflexivity.
  all: apply events_since_app; simpl; rewrite <- ?app_assoc; reflexivity.
Qed.

(** X6. The same when the update fails by itself: a source document that
    is not in the raw collection makes [update] raise [NotFound]; the call
    returns [False] with the calibrated reading stored and no source
    document created. *)
Theorem process_document_source_missing cfg doc_id data s row c0 c1 c2 c3 c4 rest :
  faults s = [] →
  RAW_COLLECTION cfg ≠ CALIBRATED_COLLECTION cfg →
  collection_of (db s) (RAW_COLLECTION cfg) !! doc_id = None →
  collection_of (db s) (CALIBRATED_COLLECTION cfg) !! doc_id = None →
  eq_True (data !! "processed") = false →
  prepare_input data = Ok row →
  model_predict cfg row = Ok (c0 :: c1 :: c2 :: c3 :: c4 :: rest) →
  let merged := merge data (calibrated_dict c0 c1 c2 c3 c4) in
  ∃ s',
    process_document cfg doc_id data s = (Ok false, s') ∧
    db s' = db_put (db s) (CALIBRATED_COLLECTION cfg) doc_id
              (resolve (server_time s) merged) ∧
    collection_of (db s') (RAW_COLLECTION cfg) !! doc_id = None ∧
    stdout s' = stdout s ++ [LogProcessing doc_id; LogError doc_id NotFound].
Proof.
  intros Hf Hne Hraw Hfree Hproc Hrow Hout. cbv zeta.
  unfold_processor. simpl. rewrite Hf. simpl.
  rewrite Hfree, bool_decide_eq_false_2 by (by intros [? ?]). simpl.
  rewrite Hproc, Hrow. simpl. rewrite Hout. simpl. rewrite Hf. simpl.
  rewrite Hf. simpl.
  rewrite collection_of_insert_ne, Hraw by done. simpl.
  eexists; split_and!; try reflexivity.
  - simpl. by rewrite collection_of_insert_ne.
  - simpl. by rewrite <- app_assoc.
Qed.

(** ** Relations kept by the statements *)

Section Preserves.
Context (R : relation state) `{!Reflexive R, !Transitive R}.

Lemma preserves_ret {A} (a : A) : preserves R (ret a).
Proof. intros s r s' [= _ <-]. reflexivity. Qed.

Lemma preserves_raise {A} (e : exn) : preserves R (@raise A e).
Proof. intros s r s' [= _ <-]. reflexivity. Qed.

Lemma preserves_lift {A} (o : outcome A) : preserves R (lift o).
Proof. intros s r s' [= _ <-]. reflexivity. Qed.

Lemma preserves_get_state : preserves R get_state.
Proof. intros s r s' [= _ <-]. reflexivity. Qed.

Lemma preserves_modify (f : state → state) :
  (∀ s, R s (f s)) → preserves R (modify f).
Proof. intros Hf s r s' [= _ <-]. apply Hf. Qed.

Lemma preserves_bind {A B} (m : M A) (k : A → M B) :
  preserves R m → (∀ a, preserves R (k a)) → preserves R (m ≫= k).
Proof.
  intros Hm Hk s r s'. unfold mbind, M_bind, bind.
  destruct (m s) as [[a|e] s1] eqn:Hms.
  - intros Hks. etrans; [by eapply Hm|by eapply Hk].
  - intros [= <- <-]. by eapply Hm.
Qed.

Lemma preserves_try_except {A} (body : M A) (handler : exn → M A) :
  preserves R body → (∀ e, preserves R (handler e)) →
  preserves R (try_except body handler).
Proof.
  intros Hb Hh s r s'. unfold try_except.
  destruct (body s) as [[a|e] s1] eqn:Hbs.
  - intros [= <- <-]. by eapply Hb.
  - intros Hhs. etrans; [by eapply Hb|by eapply Hh].
Qed.
End Preserves.

#[global] Instance emits_only_refl P : Reflexive (emits_only P).
Proof. intros s. exists []. split; [by rewrite app_nil_r|constructor]. Qed.

#[global] Instance emits_only_trans P : Transitive (emits_only P).
Proof.
  intros s1 s2 s3 (evs1 & H1 & HP1) (evs2 & H2 & HP2).
  exists (evs1 ++ evs2). split; [by rewrite H2, H1, <- app_assoc|].
  by apply Forall_app.
Qed.

#[global] Instance no_new_faults_refl : Reflexive no_new_faults.
Proof. intros s H. exact H. Qed.

#[global] Instance no_new_faults_trans : Transitive no_new_faults.
Proof. intros s1 s2 s3 H1 H2 H. apply H2, H1, H. Qed.

(** The shape of a goal [preserves R m] decides the rule. *)
Ltac preserves_step solve_atom :=
  lazymatch goal with
  | |- preserves _ (_ ≫= _) => apply preserves_bind; [try apply _ | |intros ?]
  | |- preserves _ (ret _) => apply preserves_ret; apply _
  | |- preserves _ (raise _) => apply preserves_raise; apply _
  | |- preserves _ (lift _) => apply preserves_lift; apply _
  | |- preserves _ get_state => apply preserves_get_state; apply _
  | |- preserves _ (try_except _ _) =>
      apply preserves_try_except; [try apply _ | |intros ?]
  | |- preserves _ (match ?x with _ => _ end) => destruct x
  | |- preserves _ (modify _) => apply preserves_modify; intros ?; solve_atom
  | |- preserves _ (print _) => apply preserves_modify; intros ?; solve_atom
  | |- preserves _ (emit _) => apply preserves_modify; intros ?; solve_atom
  end.

Ltac solve_emits :=
  first [ by (exists []; simpl; split; [by rewrite app_nil_r|constructor])
        | by (eexists [_]; simpl; split; [reflexivity|repeat constructor]) ].

Ltac solve_no_new_faults := by (intros ?; simpl in *).

Lemma next_fault_emits P : preserves (emits_only P) next_fault.
Proof.
  intros s r s'. unfold next_fault.
  destruct (faults s); intros [= _ <-]; exists []; simpl;
    (split; [by rewrite app_nil_r|constructor]).
Qed.

Lemma next_fault_no_new_faults : preserves no_new_faults next_fault.
Proof.
  intros s r s'. unfold next_fault.
  destruct (faults s) eqn:Hf; intros [= _ <-]; intros ?; simpl; congruence.
Qed.

Lemma process_document_body_emits cfg doc_id data :
  preserves (emits_only is_store_or_predict)
    (process_document_body cfg doc_id data).
Proof.
  unfold process_document_body, doc_get, doc_set, doc_update, predict, index.
  repeat first [ apply next_fault_emits | preserves_step solve_emits ].
Qed.

(** One call records itself, then store calls and inferences only. *)
Lemma process_document_events cfg doc_id data s r s' :
  process_document cfg doc_id data s = (r, s') →
  ∃ rest, events_since s s' = Process doc_id data :: rest ∧
          Forall (λ e, is_store_or_predict e = true) rest.
Proof.
  unfold process_document, mbind, M_bind, bind, emit, modify. simpl.
  intros Hrun.
  assert (preserves (emits_only is_store_or_predict)
            (try_except (process_document_body cfg doc_id data)
               (λ e, match e with
                     | KeyError _ => print (LogMissingField doc_id e);; ret false
                     | _ => print (LogError doc_id e);; ret false
                     end))) as Hp.
  { apply preserves_try_except; [apply _..|apply process_document_body_emits|].
    intros e. destruct e; repeat preserves_step solve_emits. }
  destruct (Hp _ _ _ Hrun) as (rest & Htrace & Hrest).
  exists rest. split; [|done].
  apply events_since_app. simpl in Htrace. by rewrite Htrace, <- app_assoc.
Qed.

Lemma process_document_no_new_faults cfg doc_id data :
  preserves no_new_faults (process_document cfg doc_id data).
Proof.
  unfold process_document, process_document_body, doc_get, doc_set, doc_update,
    predict, index.
  repeat first [ apply next_fault_no_new_faults
               | preserves_step solve_no_new_faults ].
Qed.

(** ** Statements that do not look at what was printed *)

Lemma same_effects_refl s : same_effects s s.
Proof. by repeat split. Qed.

Lemma alike_ret {A} (a : A) : alike (ret a) (ret a).
Proof. by intros s1 s2 H. Qed.

Lemma alike_raise {A} (e : exn) : alike (@raise A e) (raise e).
Proof. by intros s1 s2 H. Qed.

Lemma alike_lift {A} (o : outcome A) : alike (lift o) (lift o).
Proof. by intros s1 s2 H. Qed.

Lemma alike_modify (f1 f2 : state → state) :
  (∀ s1 s2, same_effects s1 s2 → same_effects (f1 s1) (f2 s2)) →
  alike (modify f1) (modify f2).
Proof. intros Hf s1 s2 H. split; [done|]. by apply Hf. Qed.

Lemma alike_print l1 l2 : alike (print l1) (print l2).
Proof. by apply alike_modify. Qed.

Lemma alike_print_l l : alike (print l) (ret tt).
Proof. by intros s1 s2 H. Qed.

Lemma alike_print_r l : alike (ret tt) (print l).
Proof. by intros s1 s2 H. Qed.

Lemma alike_emit e : alike (emit e) (emit e).
Proof.
  apply alike_modify. intros s1 s2 (?&?&?&?&Ht&?&?).
  repeat split; simpl; congruence.
Qed.

Lemma alike_print_all ls1 ls2 : alike (print_all ls1) (print_all ls2).
Proof. intros s1 s2 H. by rewrite !print_all_eq. Qed.

Lemma alike_bind {A B} (m1 m2 : M A) (k1 k2 : A → M B) :
  alike m1 m2 → (∀ a, alike (k1 a) (k2 a)) → alike (m1 ≫= k1) (m2 ≫= k2).
Proof.
  intros Hm Hk s1 s2 H. unfold mbind, M_bind, bind.
  destruct (Hm s1 s2 H) as [Hr Hs].
  destruct (m1 s1) as [[a1|e1] s1'], (m2 s2) as [[a2|e2] s2']; simplify_eq/=.
  - by apply Hk.
  - done.
Qed.

(** Reading the state is fine as long as what is done with it does not
    depend on the printed lines. *)
Lemma alike_get_state {B} (k1 k2 : state → M B) :
  (∀ sa sb, same_effects sa sb → alike (k1 sa) (k2 sb)) →
  alike (get_state ≫= k1) (get_state ≫= k2).
Proof. intros Hk s1 s2 H. unfold mbind, M_bind, bind. simpl. by apply Hk. Qed.

Lemma alike_try_except {A} (b1 b2 : M A) (h1 h2 : exn → M A) :
  alike b1 b2 → (∀ e, alike (h1 e) (h2 e)) →
  alike (try_except b1 h1) (try_except b2 h2).
Proof.
  intros Hb Hh s1 s2 H. unfold try_except.
  destruct (Hb s1 s2 H) as [Hr Hs].
  destruct (b1 s1) as [[a1|e1] s1'], (b2 s2) as [[a2|e2] s2']; simplify_eq/=.
  - done.
  - by apply Hh.
Qed.

Lemma alike_release_after {A} (b1 b2 : M A) :
  alike b1 b2 → alike (release_after b1) (release_after b2).
Proof.
  intros Hb s1 s2 H. unfold release_after.
  destruct (Hb s1 s2 H) as [Hr (?&?&?&?&?&?&?)].
  destruct (b1 s1) as [r1 s1'], (b2 s2) as [r2 s2']; simpl in *.
  split; [done|]. repeat split; simpl; congruence.
Qed.

Lemma alike_next_fault : alike next_fault next_fault.
Proof.
  intros s1 s2 H. unfold next_fault.
  destruct H as (?&?&Hf&?&?&?&?). rewrite Hf.
  destruct (faults s2) eqn:Hf2; simpl; (split; [done|]);
    unfold same_effects; simpl; split_and!; congruence.
Qed.

Ltac solve_same :=
  let H := fresh in
  intros ? ? H; unfold same_effects in *; simpl;
  destruct H as (?&?&?&?&?&?&?); repeat split; simpl; congruence.

Ltac alike_step :=
  lazymatch goal with
  | |- alike (get_state ≫= _) (get_state ≫= _) =>
      apply alike_get_state; intros ? ? ?
  | |- alike (_ ≫= _) (_ ≫= _) => apply alike_bind; [|intros ?]
  | |- alike (ret _) (ret _) => apply alike_ret
  | |- alike (raise _) (raise _) => apply alike_raise
  | |- alike (lift _) (lift _) => apply alike_lift
  | |- alike next_fault next_fault => apply alike_next_fault
  | |- alike (print_all _) (print_all _) => apply alike_print_all
  | |- alike (print _) (print _) => apply alike_print
  | |- alike (print _) (ret tt) => apply alike_print_l
  | |- alike (ret tt) (print _) => apply alike_print_r
  | |- alike (emit _) (emit _) => apply alike_emit
  | |- alike (modify _) (modify _) => apply alike_modify; solve_same
  | |- alike (try_except _ _) (try_except _ _) =>
      apply alike_try_except; [|intros ?]
  | |- alike (release_after _) (release_after _) => apply alike_release_after
  | |- alike (match ?x with _ => _ end) (match ?x with _ => _ end) => destruct x
  end.

Lemma doc_get_alike coll id : alike (doc_get coll id) (doc_get coll id).
Proof.
  unfold doc_get. repeat alike_step.
  match goal with H : same_effects _ _ |- _ => destruct H as (-> & _) end.
  apply alike_ret.
Qed.

Lemma doc_set_alike coll id p : alike (doc_set coll id p) (doc_set coll id p).
Proof.
  unfold doc_set. repeat alike_step.
Qed.

Lemma doc_update_alike coll id p :
  alike (doc_update coll id p) (doc_update coll id p).
Proof.
  unfold doc_update. repeat alike_step.
  match goal with H : same_effects _ _ |- _ => destruct H as (Hd & Ht & _) end.
  rewrite Hd, Ht. destruct (collection_of (db sb) coll !! id); repeat alike_step.
Qed.

Lemma process_document_alike cfg doc_id data :
  alike (process_document cfg doc_id data) (process_document cfg doc_id data).
Proof.
  unfold process_document, process_document_body, predict, index.
  repeat first [ apply doc_get_alike | apply doc_set_alike
               | apply doc_update_alike | alike_step ].
Qed.

Lemma query_latest_alike cfg : alike (query_latest cfg) (query_latest cfg).
Proof.
  unfold query_latest. repeat alike_step.
  match goal with H : same_effects _ _ |- _ => destruct H as (-> & _) end.
  apply alike_ret.
Qed.

Lemma get_latest_document_by_timestamp_alike cfg :
  alike (get_latest_document_by_timestamp cfg)
        (get_latest_document_by_timestamp cfg).
Proof.
  unfold get_latest_document_by_timestamp.
  repeat first [ apply query_latest_alike | alike_step ].
Qed.

Lemma on_snapshot_alike cfg changes1 changes2 :
  alike (on_snapshot cfg changes1) (on_snapshot cfg changes2).
Proof.
  unfold on_snapshot, with_processing_lock, on_snapshot_locked.
  alike_step.
  match goal with H : same_effects _ _ |- _ =>
    pose proof H as (_&_&_&_&_&_&->) end.
  destruct (initial_snapshot_received sb); simpl.
  - repeat first [ apply get_latest_document_by_timestamp_alike
                 | apply process_document_alike | alike_step ].
    + destruct (bool_decide (3 < length changes1)%nat),
        (bool_decide (3 < length changes2)%nat); alike_step.
    + match goal with H : same_effects ?x ?y |- context [last_processed_doc_id ?x] =>
        pose proof H as (_&_&_&_&_&->&_) end.
      case_bool_decide;
        repeat first [ apply process_document_alike | alike_step ].
  - repeat alike_step.
Qed.

(** X7. [on_snapshot] uses the batch it is given for its printed lines
    only: on two batches, from two states that agree up to the printed
    lines, it ends the same way and leaves the same database, trace, fault
    schedule, listeners, [last_processed_doc_id] and flag. *)
Theorem on_snapshot_ignores_batch cfg changes1 changes2 s1 s2 :
  same_effects s1 s2 →
  (on_snapshot cfg changes1 s1).1 = (on_snapshot cfg changes2 s2).1 ∧
  same_effects (on_snapshot cfg changes1 s1).2 (on_snapshot cfg changes2 s2).2.
Proof. apply on_snapshot_alike. Qed.

(** The two lookups of the latest document are the same query; they differ
    in the line printed when it fails. *)
Lemma latest_document_lookups_alike cfg :
  alike (get_current_latest_document cfg) (get_latest_document_by_timestamp cfg).
Proof.
  unfold get_current_latest_document, get_latest_document_by_timestamp.
  repeat first [ apply query_latest_alike | alike_step ].
Qed.

(** X8. [get_current_latest_document] and
    [get_latest_document_by_timestamp] answer alike: run in the same state
    they return the same document (or both [None]) and leave states that
    agree on everything but the printed lines. *)
Theorem latest_document_lookups_agree cfg s :
  (get_current_latest_document cfg s).1
  = (get_latest_document_by_timestamp cfg s).1 ∧
  same_effects (get_current_latest_document cfg s).2
               (get_latest_document_by_timestamp cfg s).2.
Proof. apply latest_document_lookups_alike, same_effects_refl. Qed.

(** ** [on_snapshot]: one query, at most one call, the lock released *)

(** A document comes back only from a query that completed. *)
Lemma get_latest_document_by_timestamp_some cfg s doc_id data s' :
  get_latest_document_by_timestamp cfg s = (Ok (Some (doc_id, data)), s') →
  next_call_completes s ∧
  order_by_desc_limit_1 (order_leb cfg) "timestamp"
    (collection_of (db s) (RAW_COLLECTION cfg)) = Some (doc_id, data) ∧
  trace s' = trace s ++ [Store (Query (RAW_COLLECTION cfg)) None].
Proof.
  unfold get_latest_document_by_timestamp. unfold_monad.
  destruct (query_latest_cases cfg s)
    as [(e & fs & s1 & Hf & Hq & _)
       |(Hnext & s1 & Hq & _ & _ & _ & _ & _ & _ & _ & Htrace)];
    rewrite Hq; simpl; intros [= Hr Hs]; subst. done.
Qed.

(** X9. [on_snapshot] always returns, with the flag set.  Its events are
    none (the initial snapshot), or the lock taken, one query and the lock
    released, or the lock taken, one completed query, one call of
    [process_document] with the store calls and inferences of that call,
    and the lock released last: the lock is released on every path and no
    batch processes two documents. *)
Theorem on_snapshot_shape cfg changes s :
  ∃ s',
    on_snapshot cfg changes s = (Ok tt, s') ∧
    initial_snapshot_received s' = true ∧
    (events_since s s' = [] ∨
     (∃ q, events_since s s' =
             [Acquire; Store (Query (RAW_COLLECTION cfg)) q; Release]) ∨
     (∃ doc_id data rest,
        events_since s s' =
          [Acquire; Store (Query (RAW_COLLECTION cfg)) None; Process doc_id data]
          ++ rest ++ [Release] ∧
        Forall (λ e, is_store_or_predict e = true) rest)).
Proof.
  destruct (initial_snapshot_received s) eqn:Hflag.
  - destruct (on_snapshot_listening cfg changes s Hflag)
      as (s_q & r & q & s_r & _ & _ & _ & _ & _ & Hfq & Htq & Hget & Htr & Hrun).
    destruct (get_latest_document_by_timestamp_cases cfg s_q)
      as (r' & q' & s_r' & Hget' & _ & _ & _ & _ & Hfr & _).
    rewrite Hget in Hget'. injection Hget' as <- <-.
    destruct r as [[doc_id data]|].
    + destruct (get_latest_document_by_timestamp_some _ _ _ _ _ Hget)
        as (_ & _ & Htr').
      destruct (bool_decide (Some doc_id ≠ last_processed_doc_id s)).
      * destruct Hrun as (success & s_p & Hp & Hrun).
        destruct (process_document_events _ _ _ _ _ _ Hp) as (rest & Hev & Hrest).
        destruct (process_document_returns cfg doc_id data
                    (add_line LogNewLatest (add_line (LogLatest doc_id) s_r)))
          as (b & s_p' & rest' & Hp' & _ & Hfp & _ & Htp).
        rewrite Hp in Hp'. injection Hp' as <- <-.
        rewrite (events_since_app _ _ _ Htp) in Hev. injection Hev as ->.
        simpl in Htp, Hfp.
        eexists. split; [exact Hrun|]. split.
        { destruct success; simpl; congruence. }
        right. right. exists doc_id, data, rest. split; [|done].
        apply events_since_app. simpl.
        replace (trace (if success
                        then set_last_processed_doc_id (Some doc_id) s_p
                        else s_p)) with (trace s_p) by (by destruct success).
        rewrite Htp, Htr', Htq, <- !app_assoc. reflexivity.
      * eexists. split; [exact Hrun|]. simpl. split; [congruence|].
        right. left. exists None. apply events_since_app. simpl.
        by rewrite Htr', Htq, <- !app_assoc.
    + eexists. split; [exact Hrun|]. simpl. split; [congruence|].
      right. left. exists q. apply events_since_app. simpl.
      by rewrite Htr, Htq, <- !app_assoc.
  - unfold on_snapshot. unfold_monad. simpl. rewrite Hflag. simpl.
    eexists. split; [reflexivity|]. split; [done|]. left.
    unfold events_since. simpl. apply drop_all.
Qed.

Lemma query_latest_no_new_faults cfg : preserves no_new_faults (query_latest cfg).
Proof.
  unfold query_latest.
  repeat first [ apply next_fault_no_new_faults
               | preserves_step solve_no_new_faults ].
Qed.

Lemma with_processing_lock_no_new_faults {A} (body : M A) :
  preserves no_new_faults body →
  preserves no_new_faults (with_processing_lock body).
Proof.
  intros Hbody s r s'. unfold with_processing_lock, release_after.
  unfold_monad. simpl.
  destruct (body (add_event Acquire s)) as [r1 s1] eqn:Hb.
  intros [= _ <-] Hf. simpl. by eapply Hbody.
Qed.

Lemma on_snapshot_no_new_faults cfg changes :
  preserves no_new_faults (on_snapshot cfg changes).
Proof.
  unfold on_snapshot.
  assert (∀ ls, preserves no_new_faults (print_all ls)) as Hprint.
  { intros ls s r s'. rewrite print_all_eq. intros [= _ <-] H. exact H. }
  repeat first [ apply with_processing_lock_no_new_faults
               | preserves_step solve_no_new_faults ].
  unfold on_snapshot_locked, get_latest_document_by_timestamp.
  repeat first [ apply query_latest_no_new_faults
               | apply process_document_no_new_faults
               | apply Hprint
               | preserves_step solve_no_new_faults ].
Qed.

(** A latest document that is calibrated already, or lacks a channel, is
    handed to the processor and comes back with nothing changed. *)
Lemma on_snapshot_futile cfg changes s doc_id data :
  initial_snapshot_received s = true →
  faults s = [] →
  order_by_desc_limit_1 (order_leb cfg) "timestamp"
    (collection_of (db s) (RAW_COLLECTION cfg)) = Some (doc_id, data) →
  last_processed_doc_id s ≠ Some doc_id →
  (is_Some (collection_of (db s) (CALIBRATED_COLLECTION cfg) !! doc_id) ∨
   ∃ key, key ∈ required ∧ data !! key = None) →
  ∃ s' r,
    on_snapshot cfg changes s = (Ok tt, s') ∧
    db s' = db s ∧
    last_processed_doc_id s' = last_processed_doc_id s ∧
    initial_snapshot_received s' = true ∧
    faults s' = [] ∧
    trace s' = trace s ++
      [Acquire; Store (Query (RAW_COLLECTION cfg)) None; Process doc_id data;
       Store (Get (CALIBRATED_COLLECTION cfg) doc_id) r; Release].
Proof.
  intros Hflag Hf Hlatest Hlast Hfutile.
  assert (next_call_completes s) as Hnext by (left; by rewrite Hf).
  destruct (on_snapshot_new_latest cfg changes s doc_id data
              Hflag Hnext Hlatest Hlast)
    as (s_call & success & s_ret & rest & s' & Hdb & _ & _ & Htc & Hp & Htp
        & Hrun & Hdb' & Htrace & Hl).
  assert (∃ r, success = false ∧ db s_ret = db s_call ∧
               trace s_ret = trace s_call ++
                 [Process doc_id data;
                  Store (Get (CALIBRATED_COLLECTION cfg) doc_id) r])
    as (r & -> & Hdbp & Htp').
  { destruct Hfutile as [Hsome|(key & Hin & Hnone)].
    - rewrite <- Hdb in Hsome.
      destruct (process_document_calibrated_is_final cfg doc_id data s_call Hsome)
        as (s2 & r & Hp2 & ? & Hev).
      rewrite Hp in Hp2. injection Hp2 as -> <-. exists r. split_and!; try done.
      rewrite (events_since_app _ _ _ Htp) in Hev. by rewrite Htp, Hev.
    - destruct (process_document_missing cfg doc_id data s_call key Hin Hnone)
        as (s2 & r & Hp2 & ? & ? & _).
      rewrite Hp in Hp2. injection Hp2 as -> <-. by exists r. }
  exists s', r. split_and!; try done.
  - congruence.
  - destruct (on_snapshot_listening_trace cfg changes s Hflag)
      as (s2 & ? & ? & Hrun2 & ? & _).
    rewrite Hrun in Hrun2. by injection Hrun2 as <-.
  - by eapply on_snapshot_no_new_faults.
  - by rewrite Htrace, Htp', Htc, <- !app_assoc.
Qed.

Lemma on_snapshots_cons cfg changes rest s s1 :
  on_snapshot cfg changes s = (Ok tt, s1) →
  on_snapshots cfg (changes :: rest) s = on_snapshots cfg rest s1.
Proof. intros H. simpl. unfold mbind, M_bind, bind. by rewrite H. Qed.

(** X10. A latest document that cannot be calibrated (its calibrated
    reading is there already, or it lacks a channel) and is not the one
    processed last is handed to [process_document] again at every batch:
    [last_processed_doc_id] advances on success only, so each of the
    batches costs one call and none changes the database. *)
Theorem on_snapshots_retry_without_progress cfg batches s doc_id data :
  initial_snapshot_received s = true →
  faults s = [] →
  order_by_desc_limit_1 (order_leb cfg) "timestamp"
    (collection_of (db s) (RAW_COLLECTION cfg)) = Some (doc_id, data) →
  last_processed_doc_id s ≠ Some doc_id →
  (is_Some (collection_of (db s) (CALIBRATED_COLLECTION cfg) !! doc_id) ∨
   ∃ key, key ∈ required ∧ data !! key = None) →
  ∃ s',
    on_snapshots cfg batches s = (Ok tt, s') ∧
    db s' = db s ∧
    last_processed_doc_id s' = last_processed_doc_id s ∧
    filter (λ e, is_process e = true) (events_since s s')
    = replicate (length batches) (Process doc_id data).
Proof.
  intros Hflag Hf Hlatest Hlast Hfutile.
  cut (∃ s' evs,
         on_snapshots cfg batches s = (Ok tt, s') ∧
         db s' = db s ∧
         last_processed_doc_id s' = last_processed_doc_id s ∧
         trace s' = trace s ++ evs ∧
         filter (λ e, is_process e = true) evs
         = replicate (length batches) (Process doc_id data)).
  { intros (s' & evs & ? & ? & ? & Htrace & ?). exists s'.
    split_and!; try done. by rewrite (events_since_app _ _ _ Htrace). }
  revert s Hflag Hf Hlatest Hlast Hfutile.
  induction batches as [|changes batches IH];
    intros s Hflag Hf Hlatest Hlast Hfutile.
  - exists s, []. split_and!; try done. by rewrite app_nil_r.
  - destruct (on_snapshot_futile cfg changes s doc_id data
                Hflag Hf Hlatest Hlast Hfutile)
      as (s1 & r & Hrun & Hdb & Hl & Hflag1 & Hf1 & Htrace).
    destruct (IH s1) as (s' & evs & Hruns & Hdb' & Hl' & Htrace' & Hcount);
      [done|done|by rewrite Hdb|by rewrite Hl|by rewrite Hdb|].
    eexists s', _. rewrite (on_snapshots_cons _ _ _ _ _ Hrun).
    split_and!; [done|congruence|congruence| |].
    + rewrite Htrace', Htrace, <- app_assoc. reflexivity.
    + rewrite filter_app, Hcount. reflexivity.
Qed.

(** X11. When both collection names are the same, [on_snapshot] never
    writes: the latest document is itself the calibrated reading the first
    guard of [process_document] looks for. *)
Theorem same_collection_never_calibrates cfg changes s :
  RAW_COLLECTION cfg = CALIBRATED_COLLECTION cfg →
  ∃ s', on_snapshot cfg changes s = (Ok tt, s') ∧ db s' = db s.
Proof.
  intros Hsame.
  destruct (initial_snapshot_received s) eqn:Hflag.
  - destruct (on_snapshot_listening cfg changes s Hflag)
      as (s_q & r & q & s_r & Hdbq & _ & _ & _ & _ & _ & _ & Hget & _ & Hrun).
    destruct (get_latest_document_by_timestamp_cases cfg s_q)
      as (r' & q' & s_r' & Hget' & Hdbr & _).
    rewrite Hget in Hget'. injection Hget' as <- <-.
    destruct r as [[doc_id data]|].
    + destruct (get_latest_document_by_timestamp_some _ _ _ _ _ Hget)
        as (_ & Hlatest & _).
      apply order_by_desc_limit_1_stored in Hlatest as [Hstored _].
      destruct (bool_decide (Some doc_id ≠ last_processed_doc_id s)).
      * destruct Hrun as (success & s_p & Hp & Hrun).
        destruct (process_document_calibrated_is_final cfg doc_id data
                    (add_line LogNewLatest (add_line (LogLatest doc_id) s_r)))
          as (s2 & ? & Hp2 & Hdb2 & _).
        { simpl. rewrite Hdbr, <- Hsame, Hstored. eauto. }
        rewrite Hp in Hp2. injection Hp2 as -> <-.
        eexists. split; [exact Hrun|]. simpl in *. congruence.
      * eexists. split; [exact Hrun|]. simpl. congruence.
    + eexists. split; [exact Hrun|]. simpl. congruence.
  - unfold on_snapshot. unfold_monad. simpl. rewrite Hflag. simpl.
    eexists. split; reflexivity.
Qed.

(** ** What no step undoes *)

#[global] Instance nothing_undone_refl : Reflexive nothing_undone.
Proof. intros s. split; [intros H; exact H|lia]. Qed.

#[global] Instance nothing_undone_trans : Transitive nothing_undone.
Proof.
  intros s1 s2 s3 [Hf1 Hw1] [Hf2 Hw2]. split; [intros H; apply Hf2, Hf1, H|lia].
Qed.

Ltac solve_nothing_undone :=
  by (split; simpl; [intros H; first [exact H | reflexivity]|lia]).

Lemma next_fault_nothing_undone : preserves nothing_undone next_fault.
Proof.
  intros s r s'. unfold next_fault.
  destruct (faults s); intros [= _ <-]; solve_nothing_undone.
Qed.

Lemma process_document_nothing_undone cfg doc_id data :
  preserves nothing_undone (process_document cfg doc_id data).
Proof.
  unfold process_document, process_document_body, doc_get, doc_set, doc_update,
    predict, index.
  repeat first [ apply next_fault_nothing_undone
               | preserves_step solve_nothing_undone ].
Qed.

Lemma print_all_nothing_undone ls : preserves nothing_undone (print_all ls).
Proof.
  intros s r s'. rewrite print_all_eq. intros [= _ <-]. solve_nothing_undone.
Qed.

Lemma step_code_nothing_undone cfg p : preserves nothing_undone (step_code cfg p).
Proof.
  destruct p; simpl;
    unfold get_current_latest_document, get_latest_document_by_timestamp,
      query_latest, watch;
    repeat first [ apply next_fault_nothing_undone
                 | apply process_document_nothing_undone
                 | apply print_all_nothing_undone
                 | preserves_step solve_nothing_undone ].
Qed.

(** The state a thread step leaves is the state its statement leaves, up
    to the [Release] recorded when an exception leaves the [with] block. *)
Lemma thread_step_state cfg t p sys sys' :
  thread_step cfg t p sys = Some sys' →
  ∃ r s', step_code cfg p (st sys) = (r, s') ∧ st sys' = s' ∧
          length (threads sys') = length (threads sys).
Proof.
  intros Hstep.
  destruct (run_statement_cases cfg t p sys) as (r & s' & Hcode & Hrun).
  exists r, s'. split; [done|].
  unfold thread_step in Hstep. destruct r as [p'|e].
  - destruct p; cbn [thread_step] in Hstep; try discriminate;
      try (destruct (processing_lock sys); try discriminate);
      injection Hstep as <-; cbn [st threads set_processing_lock];
      rewrite Hrun; simpl; by rewrite length_insert.
  - destruct Hrun as [-> Hrun]. injection Hstep as <-. rewrite Hrun. simpl.
    by rewrite length_insert.
Qed.

(** X12. No step of the system, by a thread, a delivered batch, a request
    or a stored reading, clears [initial_snapshot_received], detaches a
    listener or takes a thread off the list of threads. *)
Theorem step_undoes_nothing cfg sys a sys' :
  step cfg sys a sys' →
  (initial_snapshot_received (st sys) = true →
   initial_snapshot_received (st sys') = true) ∧
  (watches (st sys) ≤ watches (st sys'))%nat ∧
  (length (threads sys) ≤ length (threads sys'))%nat.
Proof.
  intros Hstep.
  destruct Hstep as [sys t p sys' Ht Hstep|sys changes Hw|sys|sys|sys doc_id data].
  - destruct (thread_step_state _ _ _ _ _ Hstep) as (r & s' & Hcode & -> & ->).
    destruct (step_code_nothing_undone cfg p _ _ _ Hcode) as [Hflag Hwatch].
    split_and!; [done|done|lia].
  - simpl. rewrite length_app. simpl. split_and!; [done|lia|lia].
  - unfold start_worker. destruct (running sys); simpl;
      rewrite ?length_app; simpl; split_and!; try done; lia.
  - simpl. split_and!; [done|lia|lia].
  - simpl. split_and!; [done|lia|lia].
Qed.

(** X13. In every reachable state of the system the thread that holds
    [processing_lock] is a live thread inside the [with] block of
    [on_snapshot], and with the lock free no thread is inside. *)
Theorem lock_held_inside_only cfg sys :
  reachable cfg sys →
  (∀ t, processing_lock sys = Some t →
        ∃ p, threads sys !! t = Some p ∧ in_critical_section p = true) ∧
  (processing_lock sys = None →
   ∀ t p, threads sys !! t = Some p → in_critical_section p = false).
Proof.
  intros Hreach.
  destruct (reachable_lock_discipline cfg sys Hreach) as [Hin Hown].
  split; [exact Hown|].
  intros Hfree t p Ht. destruct (in_critical_section p) eqn:Hcs; [|done].
  pose proof (Hin _ _ Ht Hcs). congruence.
Qed.

(** ** Restarting and failing to attach *)

(** With no fault pending [start_listener] attaches one more listener and
    leaves the flag alone. *)
Lemma start_listener_setup_attaches cfg s :
  faults s = [] →
  ∃ s',
    start_listener_setup cfg s = (Ok tt, s') ∧
    watches s' = S (watches s) ∧
    initial_snapshot_received s' = initial_snapshot_received s ∧
    faults s' = [].
Proof.
  intros Hf. unfold start_listener_setup. unfold_monad. simpl.
  destruct (query_latest_cases cfg (add_line LogBanner s))
    as [(e & fs & s1 & Hf1 & _)
       |(_ & s1 & Hq & _ & _ & Hw & _ & Hf1 & _ & Hfl & _)].
  { simpl in Hf1. congruence. }
  unfold get_current_latest_document. unfold_monad. rewrite Hq. simpl.
  simpl in Hf1, Hw, Hfl. rewrite Hf in Hf1. simpl in Hf1.
  destruct (order_by_desc_limit_1 _ _ _) as [[doc_id data]|]; simpl.
  all: unfold watch, next_fault; unfold_monad; simpl; rewrite Hf1; simpl.
  all: eexists; split_and!; try reflexivity; simpl; congruence.
Qed.

(** X14. Stopping and starting the worker, with no store fault pending:
    the new thread runs [start_listener] up to its loop and attaches one
    more listener, and it leaves [initial_snapshot_received] as it was; if
    the flag was set, the first batch delivered afterwards is handled as a
    change (the lock is taken and the store queried), not skipped as an
    initial snapshot. *)
Theorem restart_adds_a_listener cfg sys :
  faults (st sys) = [] →
  let restarted := (start_worker (stop_worker sys).2).2 in
  let t := length (threads sys) in
  threads restarted !! t = Some L_start ∧
  threads (run_thread cfg 3 t restarted) !! t = Some L_loop ∧
  watches (st (run_thread cfg 3 t restarted)) = S (watches (st sys)) ∧
  initial_snapshot_received (st (run_thread cfg 3 t restarted))
  = initial_snapshot_received (st sys) ∧
  (initial_snapshot_received (st sys) = true →
   ∀ changes, ∃ s' q rest,
     on_snapshot cfg changes (st (run_thread cfg 3 t restarted)) = (Ok tt, s') ∧
     events_since (st (run_thread cfg 3 t restarted)) s'
     = Acquire :: Store (Query (RAW_COLLECTION cfg)) q :: rest).
Proof.
  intros Hf. cbv zeta.
  assert (threads (start_worker (stop_worker sys).2).2 !! length (threads sys)
          = Some L_start) as Ht.
  { simpl. by rewrite lookup_app_r, Nat.sub_diag. }
  destruct (listener_thread_runs_setup cfg _ _ Ht)
    as (r & s' & Hsetup & Hst & Hpc & _).
  destruct (start_listener_setup_attaches cfg
              (st (start_worker (stop_worker sys).2).2))
    as (s'' & Hsetup' & Hw & Hfl & _); [done|].
  rewrite Hsetup in Hsetup'. injection Hsetup' as -> <-.
  split_and!; [done|done|by rewrite Hst, Hw|by rewrite Hst, Hfl|].
  intros Hflag changes.
  destruct (on_snapshot_listening_trace cfg changes
              (st (run_thread cfg 3 (length (threads sys))
                     (start_worker (stop_worker sys).2).2)))
    as (s2 & q & rest & Hrun & _ & Htrace); [by rewrite Hst, Hfl|].
  exists s2, q, rest. split; [done|]. by apply events_since_app.
Qed.

(** No statement of a thread assigns [running]. *)
Lemma thread_step_keeps_running cfg t p sys sys' :
  thread_step cfg t p sys = Some sys' → running sys' = running sys.
Proof.
  assert (running (run_statement cfg t p sys) = running sys) as Hrun.
  { unfold run_statement.
    destruct (step_code cfg p (st sys)) as [[p'|e] s']; [done|].
    by destruct (in_critical_section p). }
  destruct p; simpl; try (intros [= <-]; exact Hrun); try done.
  destruct (processing_lock sys); [done|]. intros [= <-]. exact Hrun.
Qed.

Lemma run_thread_running cfg n t sys :
  running (run_thread cfg n t sys) = running sys.
Proof.
  revert sys. induction n as [|n IH]; intros sys; [done|]. simpl.
  destruct (threads sys !! t) as [p|]; [|done].
  destruct (thread_step cfg t p sys) as [sys'|] eqn:Hstep; [|done].
  rewrite IH. by eapply thread_step_keeps_running.
Qed.

(** X15. When the store fails the call that attaches the listener, the
    thread of [start_listener] dies with that exception and no listener is
    attached, yet [running] stays set: [start_worker] answers
    [Worker already running] and starts no thread. *)
Theorem attach_failure_leaves_worker_running cfg sys e fs :
  running sys = false →
  faults (st sys) = None :: Some e :: fs →
  let started := (start_worker sys).2 in
  let t := length (threads sys) in
  let crashed := run_thread cfg 3 t started in
  threads crashed !! t = Some (Crashed e) ∧
  watches (st crashed) = watches (st sys) ∧
  running crashed = true ∧
  (start_worker crashed).1 = "Worker already running" ∧
  threads (start_worker crashed).2 = threads crashed.
Proof.
  intros Hrunning Hf. cbv zeta.
  assert (threads (start_worker sys).2 !! length (threads sys) = Some L_start)
    as Ht.
  { unfold start_worker. rewrite Hrunning. simpl.
    by rewrite lookup_app_r, Nat.sub_diag. }
  destruct (listener_thread_runs_setup cfg _ _ Ht)
    as (r & s' & Hsetup & Hst & Hpc & _).
  assert (r = Raise e ∧ watches s' = watches (st sys)) as [-> Hw].
  { revert Hsetup. unfold start_worker. rewrite Hrunning. simpl.
    unfold start_listener_setup, get_current_latest_document, query_latest,
      watch, next_fault.
    unfold_monad. simpl. rewrite Hf. simpl.
    destruct (order_by_desc_limit_1 _ _ _) as [[doc_id data]|]; simpl;
      by intros [= <- <-]. }
  assert (running (run_thread cfg 3 (length (threads sys)) (start_worker sys).2)
          = true) as Hrun.
  { rewrite run_thread_running. unfold start_worker. by rewrite Hrunning. }
  split_and!; [done|by rewrite Hst|done|..].
  - unfold start_worker at 1. by rewrite Hrun.
  - unfold start_worker at 1. by rewrite Hrun.
Qed.

(** ** main.py: the control surface *)

(** X16. After [startup_event] the worker is running, so a first
    [POST /start] is refused: it answers [Worker already running], starts
    no thread and only prints. *)
Theorem start_after_startup_is_refused (srv : server) :
  let sys := worker (startup_event srv) in
  running sys = true ∧
  (start sys).1 = <["status" := "Worker already running"]> ∅ ∧
  threads (start sys).2 = threads sys ∧
  st (start sys).2 = add_line LogAlreadyRunning (st sys).
Proof.
  cbv zeta. unfold startup_event, start, start_worker. simpl.
  destruct (running (worker srv)) eqn:Hr; simpl; rewrite ?Hr; done.
Qed.

Lemma route_effect r sys :
  length (threads (route r sys).2)
  = (length (threads sys)
     + if bool_decide ((route r sys).1 = started_response) then 1 else 0)%nat ∧
  ((route r sys).1 = started_response ↔ r = POST_start ∧ running sys = false) ∧
  processing_lock (route r sys).2 = processing_lock sys ∧
  db (st (route r sys).2) = db (st sys) ∧
  trace (st (route r sys).2) = trace (st sys) ∧
  watches (st (route r sys).2) = watches (st sys) ∧
  last_processed_doc_id (st (route r sys).2) = last_processed_doc_id (st sys) ∧
  initial_snapshot_received (st (route r sys).2)
  = initial_snapshot_received (st sys).
Proof.
  assert (<["status" := "Worker already running"]> (∅ : response)
          ≠ started_response) as H1.
  { intros H. apply (f_equal (.!! "status")) in H.
    unfold started_response in H. rewrite !lookup_insert_eq in H. discriminate. }
  assert (<["status" := "Worker stopping"]> (∅ : response) ≠ started_response)
    as H2.
  { intros H. apply (f_equal (.!! "status")) in H.
    unfold started_response in H. rewrite !lookup_insert_eq in H. discriminate. }
  assert (home ≠ started_response) as H3.
  { intros H. apply (f_equal (.!! "status")) in H.
    unfold started_response, home in H. rewrite !lookup_insert_eq in H.
    discriminate. }
  assert (health ≠ started_response) as H4.
  { intros H. apply (f_equal (.!! "status")) in H.
    unfold started_response, health in H. rewrite !lookup_insert_eq in H.
    discriminate. }
  destruct r; simpl.
  - rewrite bool_decide_eq_false_2 by done.
    split_and!; try done; try lia. split; [done|by intros [? _]].
  - unfold start, start_worker. destruct (running sys) eqn:Hr; simpl.
    + rewrite bool_decide_eq_false_2 by done.
      split_and!; try done; try lia. split; [done|by intros [_ ?]].
    + rewrite bool_decide_eq_true_2 by done. rewrite length_app. simpl.
      split_and!; try done.
  - rewrite bool_decide_eq_false_2 by done.
    split_and!; try done; try lia. split; [done|by intros [? _]].
  - rewrite bool_decide_eq_false_2 by done.
    split_and!; try done; try lia. split; [done|by intros [? _]].
Qed.

(** X17. Whatever requests the four routes serve, in whatever order: one
    listener thread is started for each answer [Worker started] and none
    otherwise, and no handler touches the lock, the database, the trace of
    store calls, the attached listeners or the state of the reconciler. *)
Theorem serve_spawns_per_started_response rs sys :
  length (threads (serve rs sys).2)
  = (length (threads sys)
     + length (filter (λ resp, resp = started_response) (serve rs sys).1))%nat ∧
  processing_lock (serve rs sys).2 = processing_lock sys ∧
  db (st (serve rs sys).2) = db (st sys) ∧
  trace (st (serve rs sys).2) = trace (st sys) ∧
  watches (st (serve rs sys).2) = watches (st sys) ∧
  last_processed_doc_id (st (serve rs sys).2) = last_processed_doc_id (st sys) ∧
  initial_snapshot_received (st (serve rs sys).2)
  = initial_snapshot_received (st sys).
Proof.
  revert sys. induction rs as [|r rs IH]; intros sys; simpl.
  - split_and!; try done; lia.
  - destruct (route_effect r sys) as (Hn & _ & Hl & Hd & Ht & Hw & Hlast & Hf).
    destruct (route r sys) as [resp sys1] eqn:Hroute. simpl in *.
    destruct (IH sys1) as (Hn' & Hl' & Hd' & Ht' & Hw' & Hlast' & Hf').
    destruct (serve rs sys1) as [resps sys2] eqn:Hserve. simpl in *.
    split_and!; try congruence.
    rewrite filter_cons. rewrite Hn', Hn.
    case_bool_decide; case_decide; simpl; try done; lia.
Qed.

(** X26. [shutdown_event] followed by [startup_event], whatever the
    worker was doing: the threads that were there are still there, at the
    statements they were at, with one new listener thread after them that
    has not run yet; the listeners stay attached and the lock stays where
    it was; [running] is set; the two events printed their lines in that
    order. *)
Theorem shutdown_then_startup_adds_a_thread (srv : server) :
  let srv' := startup_event (shutdown_event srv) in
  threads (worker srv') = threads (worker srv) ++ [L_start] ∧
  worker_thread (worker srv') = Some (length (threads (worker srv))) ∧
  running (worker srv') = true ∧
  watches (st (worker srv')) = watches (st (worker srv)) ∧
  processing_lock (worker srv') = processing_lock (worker srv) ∧
  trace (st (worker srv')) = trace (st (worker srv)) ∧
  db (st (worker srv')) = db (st (worker srv)) ∧
  console srv' = console srv ++ [LogServerShuttingDown; LogServerStarted].
Proof.
  cbv zeta. unfold startup_event, shutdown_event, start_worker, stop_worker.
  simpl. split_and!; try done. by rewrite <- app_assoc.
Qed.

(** ** [initialize_firebase] *)

Section FirebaseProofs.
Context {J C : Type} (sdk : admin_sdk J C) (environ : gmap string string).

(** X18. Once [initialize_firebase] has returned, the app is there, and
    every later call, whatever the libraries and the environment are by
    then, only prints that Firebase is initialised already: no variable is
    read, no credential loaded, no second app created. *)
Theorem initialize_firebase_once (fb fb1 : firebase C) :
  initialize_firebase sdk environ fb = (Ok tt, fb1) →
  is_Some (default_app fb1) ∧
  ∀ (sdk' : admin_sdk J C) (environ' : gmap string string),
    initialize_firebase sdk' environ' fb1
    = (Ok tt, init_print LogAlreadyInitialized fb1).
Proof.
  intros Hinit.
  assert (is_Some (default_app fb1)) as [c Hc].
  { revert Hinit. unfold initialize_firebase, initialize_with.
    repeat case_match; intros [= <-]; simpl; eauto. }
  split; [eauto|]. intros sdk' environ'.
  unfold initialize_firebase. by rewrite Hc.
Qed.

(** X19. A first initialisation that returns has built the app from one
    of two credentials: the one parsed from [FIREBASE_CREDENTIALS_JSON]
    when the variable holds a string that is not empty, else (the variable
    unset, or set to the empty string) the one of the local service-account
    file; the calls made are those of that branch, in its order. *)
Theorem initialize_firebase_credentials (fb fb1 : firebase C) :
  default_app fb = None →
  initialize_firebase sdk environ fb = (Ok tt, fb1) →
  ∃ cred,
    default_app fb1 = Some cred ∧
    ((∃ text cred_dict,
        environ !! FIREBASE_CREDENTIALS_JSON = Some text ∧ text ≠ EmptyString ∧
        json_loads sdk text = Ok cred_dict ∧
        Certificate_info sdk cred_dict = Ok cred ∧
        init_trace fb1 = init_trace fb ++
          [GetEnv FIREBASE_CREDENTIALS_JSON; JsonLoads text;
           CertificateOfInfo; InitializeApp]) ∨
     ((environ !! FIREBASE_CREDENTIALS_JSON = None ∨
       environ !! FIREBASE_CREDENTIALS_JSON = Some EmptyString) ∧
      Certificate_file sdk LOCAL_CREDENTIALS = Ok cred ∧
      init_trace fb1 = init_trace fb ++
        [GetEnv FIREBASE_CREDENTIALS_JSON;
         CertificateOfFile LOCAL_CREDENTIALS; InitializeApp])).
Proof.
  intros Hnone. unfold initialize_firebase, initialize_with. rewrite Hnone.
  destruct (environ !! FIREBASE_CREDENTIALS_JSON) as [[|c text]|] eqn:Henv.
  - destruct (Certificate_file sdk LOCAL_CREDENTIALS) as [cred|e] eqn:Hc;
      [|done].
    destruct (initialize_app sdk cred) eqn:Hi; [done|].
    intros [= <-]. exists cred. split; [done|]. right.
    split_and!; [by right|done|]. simpl. by rewrite <- !app_assoc.
  - destruct (json_loads sdk (String c text)) as [cred_dict|e] eqn:Hj; [|done].
    destruct (Certificate_info sdk cred_dict) as [cred|e] eqn:Hc; [|done].
    destruct (initialize_app sdk cred) eqn:Hi; [done|].
    intros [= <-]. exists cred. split; [done|]. left.
    exists (String c text), cred_dict. split_and!; try done.
    simpl. by rewrite <- !app_assoc.
  - destruct (Certificate_file sdk LOCAL_CREDENTIALS) as [cred|e] eqn:Hc;
      [|done].
    destruct (initialize_app sdk cred) eqn:Hi; [done|].
    intros [= <-]. exists cred. split; [done|]. right.
    split_and!; [by left|done|]. simpl. by rewrite <- !app_assoc.
Qed.

(** X20. [initialize_firebase] handles [ValueError] only: an exception of
    the parser, of the certificate or of [initialize_app] leaves it.  That
    happens on a first initialisation only, no app is there afterwards, the
    line that reports success was not printed, and the exception is the one
    of the library call that failed. *)
Theorem initialize_firebase_failure (fb fb1 : firebase C) (e : exn) :
  initialize_firebase sdk environ fb = (Raise e, fb1) →
  default_app fb = None ∧ default_app fb1 = None ∧
  (LogInitialized ∉ drop (length (init_stdout fb)) (init_stdout fb1)) ∧
  ((∃ text, environ !! FIREBASE_CREDENTIALS_JSON = Some text ∧
            json_loads sdk text = Raise e) ∨
   (∃ cred_dict, Certificate_info sdk cred_dict = Raise e) ∨
   Certificate_file sdk LOCAL_CREDENTIALS = Raise e ∨
   (∃ cred, initialize_app sdk cred = Some e)).
Proof.
  unfold initialize_firebase, initialize_with.
  destruct (default_app fb) eqn:Hd; [done|].
  destruct (environ !! FIREBASE_CREDENTIALS_JSON) as [[|c text]|] eqn:Henv; simpl.
  - destruct (Certificate_file sdk LOCAL_CREDENTIALS) as [cred|e'] eqn:Hc.
    + destruct (initialize_app sdk cred) eqn:Hi; [|done].
      intros [= <- <-]. simpl. split_and!; try done.
      * rewrite drop_app_length. by intros [=]%list_elem_of_singleton.
      * right. right. right. eauto.
    + intros [= <- <-]. simpl. split_and!; try done.
      * rewrite drop_all. apply not_elem_of_nil.
      * right. right. by left.
  - destruct (json_loads sdk (String c text)) as [cred_dict|e'] eqn:Hj.
    + destruct (Certificate_info sdk cred_dict) as [cred|e'] eqn:Hc.
      * destruct (initialize_app sdk cred) eqn:Hi; [|done].
        intros [= <- <-]. simpl. split_and!; try done.
        -- rewrite drop_app_length. by intros [=]%list_elem_of_singleton.
        -- right. right. right. eauto.
      * intros [= <- <-]. simpl. split_and!; try done.
        -- rewrite drop_all. apply not_elem_of_nil.
        -- right. left. eauto.
    + intros [= <- <-]. simpl. split_and!; try done.
      * rewrite drop_all. apply not_elem_of_nil.
      * left. eauto.
  - destruct (Certificate_file sdk LOCAL_CREDENTIALS) as [cred|e'] eqn:Hc.
    + destruct (initialize_app sdk cred) eqn:Hi; [|done].
      intros [= <- <-]. simpl. split_and!; try done.
      * rewrite drop_app_length. by intros [=]%list_elem_of_singleton.
      * right. right. right. eauto.
    + intros [= <- <-]. simpl. split_and!; try done.
      * rewrite drop_all. apply not_elem_of_nil.
      * right. right. by left.
Qed.
End FirebaseProofs.

(** ** The order of document ids *)

Lemma string_compare_refl (s : string) : String.compare s s = Eq.
Proof.
  induction s as [|a s IH]; simpl; [done|].
  unfold Ascii.compare. by rewrite N.compare_refl.
Qed.

Lemma string_leb_refl (s : string) : String.leb s s = true.
Proof. unfold String.leb. by rewrite string_compare_refl. Qed.

Lemma string_leb_trans (s1 s2 s3 : string) :
  String.leb s1 s2 = true → String.leb s2 s3 = true → String.leb s1 s3 = true.
Proof.
  unfold String.leb. revert s2 s3.
  induction s1 as [|a1 s1 IH]; intros [|a2 s2] [|a3 s3]; simpl; try done.
  unfold Ascii.compare.
  destruct (N.compare_spec (Ascii.N_of_ascii a1) (Ascii.N_of_ascii a2)) as [H12|H12|H12];
    destruct (N.compare_spec (Ascii.N_of_ascii a2) (Ascii.N_of_ascii a3)) as [H23|H23|H23];
    try done.
  - rewrite H12, H23, N.compare_refl. apply IH.
  - rewrite H12. by rewrite (proj2 (N.compare_lt_iff _ _) H23).
  - rewrite <- H23. by rewrite (proj2 (N.compare_lt_iff _ _) H12).
  - by rewrite (proj2 (N.compare_lt_iff _ _) (N.lt_trans _ _ _ H12 H23)).
Qed.

(** ** The query picks the greatest document *)

Section Order.
Context (leb : value → value → bool).
Hypothesis leb_total : ∀ a b, leb a b = true ∨ leb b a = true.
Hypothesis leb_trans : ∀ a b c, leb a b = true → leb b c = true → leb a c = true.

(** [before_desc] looks at the id and the value only. *)
Lemma before_desc_doc ida da va idb db_ vb da' db' :
  before_desc leb (ida, da, va) (idb, db_, vb)
  = before_desc leb (ida, da', va) (idb, db', vb).
Proof. done. Qed.

Lemma before_desc_refl x : before_desc leb x x = true.
Proof.
  destruct x as [[id d] v]. simpl.
  destruct (leb_total v v) as [H|H]; rewrite H; apply string_leb_refl.
Qed.

Lemma before_desc_total x y :
  before_desc leb x y = true ∨ before_desc leb y x = true.
Proof.
  destruct x as [[idx dx] vx], y as [[idy dy] vy]. simpl.
  destruct (leb vy vx) eqn:Hyx, (leb vx vy) eqn:Hxy; auto.
  - destruct (String.leb_total idy idx); auto.
  - destruct (leb_total vx vy); congruence.
Qed.

Lemma before_desc_trans x y z :
  before_desc leb x y = true → before_desc leb y z = true →
  before_desc leb x z = true.
Proof.
  destruct x as [[idx dx] vx], y as [[idy dy] vy], z as [[idz dz] vz]. simpl.
  destruct (leb vy vx) eqn:Hyx; [|done].
  destruct (leb vz vy) eqn:Hzy; [|by destruct (leb vx vy)].
  rewrite (leb_trans _ _ _ Hzy Hyx).
  destruct (leb vx vz) eqn:Hxz; [|done].
  rewrite (leb_trans _ _ _ Hxz Hzy), (leb_trans _ _ _ Hyx Hxz).
  intros H1 H2. by eapply string_leb_trans.
Qed.

Lemma before_desc_antisym x y :
  before_desc leb x y = true → before_desc leb y x = true → x.1.1 = y.1.1.
Proof.
  destruct x as [[idx dx] vx], y as [[idy dy] vy]. simpl.
  destruct (leb vy vx) eqn:Hyx; [|done].
  destruct (leb vx vy) eqn:Hxy; [|done].
  intros H1 H2. by apply String.leb_antisym.
Qed.

(** The fold of the query keeps the greatest candidate seen. *)
Lemma pick_greatest (l : list (string * dict * value)) acc :
  (∀ y, acc = Some y → True) →
  match
    foldl (λ acc x, match acc with
                    | None => Some x
                    | Some y => if before_desc leb x y then Some x else Some y
                    end) acc l
  with
  | Some m =>
      (Some m = acc ∨ m ∈ l) ∧
      (∀ y, acc = Some y → before_desc leb m y = true) ∧
      (∀ x, x ∈ l → before_desc leb m x = true)
  | None => acc = None ∧ l = []
  end.
Proof.
  intros _. revert acc. induction l as [|x l IH]; intros acc; simpl.
  - destruct acc as [y|]; [|done]. split_and!; [by left| |].
    + intros ? [= <-]. apply before_desc_refl.
    + intros x Hx. by apply elem_of_nil in Hx.
  - set (acc' := match acc with
                 | Some y => if before_desc leb x y then Some x else Some y
                 | None => Some x
                 end).
    specialize (IH acc').
    destruct (foldl _ acc' l) as [m|] eqn:Hfold.
    + destruct IH as (Hin & Hacc & Hall).
      assert (before_desc leb m x = true ∧
              (∀ y, acc = Some y → before_desc leb m y = true) ∧
              (Some m = acc ∨ m = x ∨ m ∈ l)) as (Hx & Hy & Hm).
      { subst acc'. destruct acc as [y|].
        - destruct (before_desc leb x y) eqn:Hxy.
          + split_and!.
            * by apply Hacc.
            * intros ? [= <-]. eapply before_desc_trans; [by apply Hacc|done].
            * destruct Hin as [[= ->]|?]; auto.
          + assert (before_desc leb y x = true) as Hyx
              by (destruct (before_desc_total x y); congruence).
            split_and!.
            * eapply before_desc_trans; [by apply Hacc|done].
            * intros ? [= <-]. by apply Hacc.
            * destruct Hin as [[= ->]|?]; auto.
        - split_and!; [by apply Hacc|done|].
          destruct Hin as [[= ->]|?]; auto. }
      split_and!; [|done|].
      * destruct Hm as [?|[->|?]]; [by left|right..];
          apply elem_of_cons; auto.
      * intros x' [->|Hx']%elem_of_cons; [done|by apply Hall].
    + destruct IH as [Hacc' _]. subst acc'. by destruct acc as [y|]; [case_match|].
Qed.

(** The candidates of the query are the stored documents that have the
    field. *)
Lemma with_field_spec field (c : collection) id d v :
  (id, d, v) ∈ omap (λ '(id, d), (λ v, (id, d, v)) <$> d !! field)
                 (map_to_list c)
  ↔ c !! id = Some d ∧ d !! field = Some v.
Proof.
  rewrite list_elem_of_omap. split.
  - intros ([id' d'] & Hin & Hv). apply elem_of_map_to_list in Hin.
    destruct (d' !! field) eqn:Hf; simplify_eq/=. done.
  - intros [Hc Hf]. exists (id, d). split; [by apply elem_of_map_to_list|].
    by rewrite Hf.
Qed.

(** What the query answers comes before every stored document that has
    the field. *)
Lemma order_by_desc_limit_1_first field (c : collection) doc_id data :
  order_by_desc_limit_1 leb field c = Some (doc_id, data) →
  c !! doc_id = Some data ∧
  ∃ v, data !! field = Some v ∧
       ∀ id' d' v', c !! id' = Some d' → d' !! field = Some v' →
                    before_desc leb (doc_id, data, v) (id', d', v') = true.
Proof.
  unfold order_by_desc_limit_1.
  set (candidates := omap _ (map_to_list c)).
  pose proof (pick_greatest candidates None (λ _ _, I)) as Hpick.
  destruct (foldl _ None candidates) as [[[idm dm] vm]|] eqn:Hfold; simpl;
    [|done].
  destruct Hpick as ([?|Hin] & _ & Hall); [done|].
  apply with_field_spec in Hin as [Hcm Hfm].
  intros [= <- <-]. split; [done|]. exists vm. split; [done|].
  intros id' d' v' Hc' Hf'. apply (Hall (id', d', v')), with_field_spec. done.
Qed.

(** A stored document that comes before every other one is what the query
    answers. *)
Lemma order_by_desc_limit_1_unique field (c : collection) doc_id data v :
  c !! doc_id = Some data →
  data !! field = Some v →
  (∀ id' d' v', c !! id' = Some d' → d' !! field = Some v' →
                before_desc leb (doc_id, data, v) (id', d', v') = true) →
  order_by_desc_limit_1 leb field c = Some (doc_id, data).
Proof.
  intros Hc Hf Hgreatest.
  destruct (order_by_desc_limit_1 leb field c) as [[idm dm]|] eqn:Hbest.
  - apply order_by_desc_limit_1_first in Hbest as (Hcm & vm & Hfm & Hall).
    assert (idm = doc_id) as ->.
    { apply (before_desc_antisym (idm, dm, vm) (doc_id, data, v)).
      - by apply Hall.
      - by apply Hgreatest. }
    congruence.
  - exfalso. revert Hbest. unfold order_by_desc_limit_1.
    set (candidates := omap _ (map_to_list c)).
    pose proof (pick_greatest candidates None (λ _ _, I)) as Hpick.
    destruct (foldl _ None candidates) as [m|] eqn:Hfold; simpl; [done|].
    intros _. destruct Hpick as [_ Hnil].
    assert ((doc_id, data, v) ∈ candidates) as Hin
      by (by apply with_field_spec).
    rewrite Hnil in Hin. by apply elem_of_nil in Hin.
Qed.

(** Rewriting fields other than the ordering field of the first document
    leaves it the first. *)
Lemma order_by_desc_limit_1_update field (c : collection) doc_id data data' :
  order_by_desc_limit_1 leb field c = Some (doc_id, data) →
  data' !! field = data !! field →
  order_by_desc_limit_1 leb field (<[doc_id := data']> c) = Some (doc_id, data').
Proof.
  intros Hbest Hfield.
  apply order_by_desc_limit_1_first in Hbest as (Hc & v & Hf & Hgreatest).
  apply (order_by_desc_limit_1_unique _ _ _ _ v);
    [apply lookup_insert_eq|congruence|].
  intros id' d' v' Hc' Hf'.
  destruct (decide (id' = doc_id)) as [->|Hne].
  - rewrite lookup_insert_eq in Hc'. injection Hc' as <-.
    assert (v' = v) as -> by congruence. apply before_desc_refl.
  - rewrite lookup_insert_ne in Hc' by done.
    rewrite (before_desc_doc _ _ _ _ _ _ data d').
    by eapply Hgreatest.
Qed.

(** X21. Under an ordering of the field values that is total and
    transitive, [order_by(field, DESCENDING).limit(1)] answers a document
    exactly when it is stored, has the field, and comes first among the
    stored documents that have it: no other has a greater value, nor the
    same value and a greater id.  Documents without the field are never
    answered. *)
Theorem order_by_desc_limit_1_greatest field (c : collection) doc_id data :
  order_by_desc_limit_1 leb field c = Some (doc_id, data) ↔
  c !! doc_id = Some data ∧
  ∃ v, data !! field = Some v ∧
       ∀ id' d' v', c !! id' = Some d' → d' !! field = Some v' →
                    before_desc leb (doc_id, data, v) (id', d', v') = true.
Proof.
  split.
  - apply order_by_desc_limit_1_first.
  - intros (Hc & v & Hf & Hgreatest).
    by apply (order_by_desc_limit_1_unique _ _ _ _ v).
Qed.
End Order.

(** ** The batch the worker causes itself *)

(** Once the latest document is the one processed last, batches only
    query. *)
Lemma on_snapshots_settled cfg batches s doc_id data :
  initial_snapshot_received s = true →
  faults s = [] →
  order_by_desc_limit_1 (order_leb cfg) "timestamp"
    (collection_of (db s) (RAW_COLLECTION cfg)) = Some (doc_id, data) →
  last_processed_doc_id s = Some doc_id →
  ∃ s',
    on_snapshots cfg batches s = (Ok tt, s') ∧
    db s' = db s ∧
    last_processed_doc_id s' = last_processed_doc_id s ∧
    trace s' = trace s ++
      concat (replicate (length batches)
                [Acquire; Store (Query (RAW_COLLECTION cfg)) None; Release]).
Proof.
  revert s. induction batches as [|changes batches IH];
    intros s Hflag Hf Hlatest Hlast.
  - exists s. split_and!; try done. simpl. by rewrite app_nil_r.
  - assert (next_call_completes s) as Hnext by (left; by rewrite Hf).
    destruct (on_snapshot_same_latest cfg changes s doc_id data
                Hflag Hnext Hlatest Hlast) as (s1 & Hrun & Hl & Hdb & Htrace).
    destruct (on_snapshot_listening_trace cfg changes s Hflag)
      as (s1' & ? & ? & Hrun' & Hflag1 & _).
    rewrite Hrun in Hrun'. injection Hrun' as <-.
    pose proof (on_snapshot_no_new_faults cfg changes _ _ _ Hrun Hf) as Hf1.
    destruct (IH s1) as (s' & Hruns & Hdb' & Hl' & Htrace');
      [done|done|by rewrite Hdb|congruence|].
    exists s'. rewrite (on_snapshots_cons _ _ _ _ _ Hrun).
    split_and!; [done|congruence|congruence|].
    rewrite Htrace', Htrace, <- app_assoc. reflexivity.
Qed.

Lemma filter_process_idle coll n :
  filter (λ e, is_process e = true)
    (concat (replicate n [Acquire; Store (Query coll) None; Release])) = [].
Proof. induction n as [|n IH]; [done|]. simpl. exact IH. Qed.

(** X22. The batch the worker causes by its own update is skipped.  Under
    an ordering of the field values that is total and transitive and with
    no store fault pending: when a batch has made [last_processed_doc_id]
    advance, it is now the id of a document whose calibrated reading is
    stored, that document is still the latest although its source was
    updated, and every batch that follows, while nothing else changes the
    store, only queries: no call of [process_document], the database and
    [last_processed_doc_id] as they were. *)
Theorem on_snapshot_own_update_is_skipped cfg changes s s1 :
  (∀ a b, order_leb cfg a b = true ∨ order_leb cfg b a = true) →
  (∀ a b c, order_leb cfg a b = true → order_leb cfg b c = true →
            order_leb cfg a c = true) →
  initial_snapshot_received s = true →
  faults s = [] →
  on_snapshot cfg changes s = (Ok tt, s1) →
  last_processed_doc_id s1 ≠ last_processed_doc_id s →
  ∃ doc_id,
    last_processed_doc_id s1 = Some doc_id ∧
    is_Some (collection_of (db s1) (CALIBRATED_COLLECTION cfg) !! doc_id) ∧
    ∀ batches, ∃ s2,
      on_snapshots cfg batches s1 = (Ok tt, s2) ∧
      db s2 = db s1 ∧
      last_processed_doc_id s2 = Some doc_id ∧
      filter (λ e, is_process e = true) (events_since s1 s2) = [].
Proof.
  intros Htotal Htrans Hflag Hf Hrun Hprogress.
  assert (next_call_completes s) as Hnext by (left; by rewrite Hf).
  pose proof (on_snapshot_no_new_faults cfg changes _ _ _ Hrun Hf) as Hf1.
  destruct (on_snapshot_listening_trace cfg changes s Hflag)
    as (s1' & ? & ? & Hrun' & Hflag1 & _).
  rewrite Hrun in Hrun'. injection Hrun' as <-.
  destruct (order_by_desc_limit_1 (order_leb cfg) "timestamp"
              (collection_of (db s) (RAW_COLLECTION cfg)))
    as [[doc_id data]|] eqn:Hlatest.
  2: { exfalso. apply Hprogress.
       destruct (on_snapshot_listening cfg changes s Hflag)
         as (s_q & r & q & s_r & Hdb & Hfq & _ & _ & Hl & _ & _ & Hget & _ & Hrun').
       destruct (get_latest_document_by_timestamp_cases cfg s_q)
         as (r' & q' & s_r' & Hget' & _ & _ & _ & Hlast' & _ & _ & Hok).
       rewrite Hget in Hget'. injection Hget' as <- <-.
       destruct Hok as (-> & _);
         [unfold next_call_completes in *; by rewrite Hfq|].
       rewrite Hdb, Hlatest in Hrun'. rewrite Hrun in Hrun'.
       injection Hrun' as ->. simpl. congruence. }
  destruct (decide (last_processed_doc_id s = Some doc_id)) as [Hlast|Hlast].
  { exfalso. apply Hprogress.
    destruct (on_snapshot_same_latest cfg changes s doc_id data
                Hflag Hnext Hlatest Hlast) as (s1' & Hrun' & Hl & _).
    rewrite Hrun in Hrun'. by injection Hrun' as <-. }
  destruct (on_snapshot_new_latest cfg changes s doc_id data
              Hflag Hnext Hlatest Hlast)
    as (s_call & success & s_ret & rest & s1' & Hdbc & _ & _ & _ & Hp & _
        & Hrun' & Hdb1 & _ & Hl1).
  rewrite Hrun in Hrun'. injection Hrun' as <-.
  destruct success; [|by rewrite Hl1 in Hprogress].
  destruct (process_document_success _ _ _ _ _ Hp)
    as (row & out & c0 & c1 & c2 & c3 & c4 & old & _ & _ & _ & _ & _ & _ & _
        & Hfree & _ & Hafter).
  cbv zeta in Hafter. destruct Hafter as (_ & _ & Hold & Hdbr).
  apply order_by_desc_limit_1_stored in Hlatest as Hstored.
  destruct Hstored as [Hstored _].
  assert (RAW_COLLECTION cfg ≠ CALIBRATED_COLLECTION cfg) as Hne.
  { intros Heq. rewrite Hdbc, <- Heq, Hstored in Hfree. discriminate. }
  rewrite collection_of_insert_ne in Hold, Hdbr by done.
  rewrite Hdbc in Hold, Hdbr. rewrite Hstored in Hold. injection Hold as <-.
  exists doc_id. split; [done|]. split.
  { rewrite Hdb1, Hdbr, collection_of_insert_ne, collection_of_insert_eq by done.
    rewrite lookup_insert_eq. eauto. }
  intros batches.
  destruct (on_snapshots_settled cfg batches s1 doc_id
              (resolve (server_time s_call + 1) processed_fields ∪ data))
    as (s2 & Hruns & Hdb2 & Hl2 & Htrace); [done|done| |done|].
  { rewrite Hdb1, Hdbr, collection_of_insert_eq.
    apply (order_by_desc_limit_1_update _ Htotal Htrans _ _ _ data); [done|].
    rewrite lookup_union_r; [done|].
    rewrite lookup_resolve. unfold processed_fields. by simplify_map_eq. }
  exists s2. split_and!; [done|done|congruence|].
  rewrite (events_since_app _ _ _ Htrace). apply filter_process_idle.
Qed.

Lemma timestamp_leb_total a b :
  timestamp_leb a b = true ∨ timestamp_leb b a = true.
Proof.
  destruct a, b; simpl; auto.
  destruct (Z.leb_spec t t0); [by left|right]. apply Z.leb_le. lia.
Qed.

Lemma timestamp_leb_trans a b c :
  timestamp_leb a b = true → timestamp_leb b c = true → timestamp_leb a c = true.
Proof.
  destruct a, b, c; simpl; try done.
  rewrite !Z.leb_le. lia.
Qed.

(** ** A delivered batch, handled without interference *)

(** A step of thread [t] moves thread [t] only. *)
Lemma thread_step_threads cfg t p sys sys' :
  thread_step cfg t p sys = Some sys' →
  ∃ p', threads sys' = <[t := p']> (threads sys).
Proof.
  intros Hstep.
  destruct (run_statement_cases cfg t p sys) as (r & s' & Hcode & Hrun).
  assert (∃ p', threads (run_statement cfg t p sys) = <[t := p']> (threads sys))
    as [p' Hp'].
  { destruct r as [p'|e]; [|destruct Hrun as [_ Hrun]]; rewrite Hrun; eauto. }
  exists p'. rewrite <- Hp'.
  destruct p; simpl in Hstep; try discriminate;
    try (destruct (processing_lock sys); try discriminate);
    by injection Hstep as <-.
Qed.

Lemma run_thread_others cfg n t t' sys :
  t' ≠ t → threads (run_thread cfg n t sys) !! t' = threads sys !! t'.
Proof.
  intros Hne. revert sys. induction n as [|n IH]; intros sys; [done|]. simpl.
  destruct (threads sys !! t) as [p|]; [|done].
  destruct (thread_step cfg t p sys) as [sys'|] eqn:Hstep; [|done].
  rewrite IH. destruct (thread_step_threads _ _ _ _ _ Hstep) as [p' ->].
  by apply list_lookup_insert_ne.
Qed.

(** Running a thread alone is one of the interleavings. *)
Lemma run_thread_reachable cfg n t sys :
  reachable cfg sys → reachable cfg (run_thread cfg n t sys).
Proof.
  revert sys. induction n as [|n IH]; intros sys Hreach; [done|]. simpl.
  destruct (threads sys !! t) as [p|] eqn:Ht; [|done].
  destruct (thread_step cfg t p sys) as [sys'|] eqn:Hstep; [|done].
  apply IH. eapply reachable_step; [exact Hreach|].
  by eapply step_thread.
Qed.

(** X23. A batch delivered while the lock is free and handled without
    another thread moving: the callback thread ends within seven
    statements, the module state is then the one [on_snapshot] leaves, the
    lock is free again, no other thread has moved and [running] is what it
    was; the state reached is one the interleavings reach. *)
Theorem delivered_batch_runs_on_snapshot cfg changes sys :
  reachable cfg sys →
  (0 < watches (st sys))%nat →
  processing_lock sys = None →
  let t := length (threads sys) in
  let delivered := (spawn (S_check changes) sys).2 in
  let final := run_thread cfg 7 t delivered in
  step cfg sys (Deliver changes) delivered ∧
  reachable cfg final ∧
  on_snapshot cfg changes (st sys) = (Ok tt, st final) ∧
  threads final !! t = Some Done ∧
  processing_lock final = None ∧
  (∀ t' p, threads sys !! t' = Some p → threads final !! t' = Some p) ∧
  running final = running sys.
Proof.
  intros Hreach Hwatch Hlock. cbv zeta.
  assert (threads (spawn (S_check changes) sys).2 !! length (threads sys)
          = Some (S_check changes)) as Ht.
  { simpl. by rewrite lookup_app_r, Nat.sub_diag. }
  assert (step cfg sys (Deliver changes) (spawn (S_check changes) sys).2)
    as Hstep by (by constructor).
  destruct (callback_thread_runs_on_snapshot cfg (length (threads sys)) changes
              (spawn (S_check changes) sys).2 Ht Hlock)
    as (Hrun & Hdone & Hfree).
  split_and!; try done.
  - apply run_thread_reachable. by eapply reachable_step.
  - intros t' p Ht'.
    rewrite run_thread_others
      by (apply lookup_lt_Some in Ht'; lia).
    simpl. by rewrite lookup_app_l by (by eapply lookup_lt_Some).
  - by rewrite run_thread_running.
Qed.

(** ** When a reading is calibrated *)

(** What is enough for [process_document] to succeed, and what it then
    leaves. *)
Lemma process_document_succeeds cfg doc_id data s row c0 c1 c2 c3 c4 rest old :
  faults s = [] →
  collection_of (db s) (CALIBRATED_COLLECTION cfg) !! doc_id = None →
  eq_True (data !! "processed") = false →
  prepare_input data = Ok row →
  model_predict cfg row = Ok (c0 :: c1 :: c2 :: c3 :: c4 :: rest) →
  let merged := merge data (calibrated_dict c0 c1 c2 c3 c4) in
  let db1 := db_put (db s) (CALIBRATED_COLLECTION cfg) doc_id
               (resolve (server_time s) merged) in
  collection_of db1 (RAW_COLLECTION cfg) !! doc_id = Some old →
  ∃ s',
    process_document cfg doc_id data s = (Ok true, s') ∧
    db s' = db_put db1 (RAW_COLLECTION cfg) doc_id
              (resolve (server_time s + 1) processed_fields ∪ old) ∧
    stdout s' = stdout s ++ [LogProcessing doc_id; LogSaved doc_id].
Proof.
  intros Hf Hfree Hproc Hrow Hout. cbv zeta. unfold db_put. intros Hold.
  unfold_processor. simpl. rewrite Hf. simpl.
  rewrite Hfree, bool_decide_eq_false_2 by (by intros [? ?]). simpl.
  rewrite Hproc, Hrow. simpl. rewrite Hout. simpl. rewrite Hf. simpl.
  rewrite Hf. simpl. rewrite Hold. simpl.
  eexists; split_and!; try reflexivity.
  simpl. by rewrite <- app_assoc.
Qed.

(** X24. With no store fault pending, [process_document] returns [True]
    exactly when no calibrated reading is stored under the id, the reading
    is not flagged as processed, it holds the five channels, the model
    answers at least five values for its row, and the source document is
    there when it is updated: it is stored in the raw collection, or the
    two collections are the same one. *)
Theorem process_document_succeeds_iff cfg doc_id data s :
  faults s = [] →
  (∃ s', process_document cfg doc_id data s = (Ok true, s')) ↔
  collection_of (db s) (CALIBRATED_COLLECTION cfg) !! doc_id = None ∧
  eq_True (data !! "processed") = false ∧
  ∃ row c0 c1 c2 c3 c4 rest,
    prepare_input data = Ok row ∧
    model_predict cfg row = Ok (c0 :: c1 :: c2 :: c3 :: c4 :: rest) ∧
    is_Some
      (collection_of
         (db_put (db s) (CALIBRATED_COLLECTION cfg) doc_id
            (resolve (server_time s)
               (merge data (calibrated_dict c0 c1 c2 c3 c4))))
         (RAW_COLLECTION cfg) !! doc_id).
Proof.
  intros Hf. split.
  - intros [s' Hrun].
    destruct (process_document_success _ _ _ _ _ Hrun)
      as (row & out & c0 & c1 & c2 & c3 & c4 & old & Hrow & Hout & H0 & H1 & H2
          & H3 & H4 & Hfree & Hproc & Hafter).
    cbv zeta in Hafter. destruct Hafter as (_ & _ & Hold & _).
    destruct (list_lookup_five out c0 c1 c2 c3 c4 H0 H1 H2 H3 H4) as [rest ->].
    split_and!; try done.
    exists row, c0, c1, c2, c3, c4, rest. split_and!; try done.
  - intros (Hfree & Hproc & row & c0 & c1 & c2 & c3 & c4 & rest & Hrow & Hout
            & [old Hold]).
    destruct (process_document_succeeds cfg doc_id data s row c0 c1 c2 c3 c4
                rest old Hf Hfree Hproc Hrow Hout Hold) as (s' & Hrun & _).
    eauto.
Qed.

(** X25. The worker end to end, for one batch.  Under an ordering of the
    field values that is total and transitive, with the initial snapshot
    seen, no store fault pending and two distinct collections: when the
    newest raw reading (none has a greater timestamp, nor the same and a
    greater id) is not the one processed last, has no calibrated reading
    yet, is not flagged, holds the five channels, and the model answers at
    least five values, then whatever batch arrives, [on_snapshot] stores
    its calibrated reading under the same id (the model's first five
    values, the server's time, the raw fields), flags the source document,
    and records the id as processed last. *)
Theorem on_snapshot_calibrates_newest cfg changes s doc_id data v row
    c0 c1 c2 c3 c4 rest :
  (∀ a b, order_leb cfg a b = true ∨ order_leb cfg b a = true) →
  (∀ a b c, order_leb cfg a b = true → order_leb cfg b c = true →
            order_leb cfg a c = true) →
  RAW_COLLECTION cfg ≠ CALIBRATED_COLLECTION cfg →
  initial_snapshot_received s = true →
  faults s = [] →
  collection_of (db s) (RAW_COLLECTION cfg) !! doc_id = Some data →
  data !! "timestamp" = Some v →
  (∀ id' d' v',
     collection_of (db s) (RAW_COLLECTION cfg) !! id' = Some d' →
     d' !! "timestamp" = Some v' →
     before_desc (order_leb cfg) (doc_id, data, v) (id', d', v') = true) →
  last_processed_doc_id s ≠ Some doc_id →
  collection_of (db s) (CALIBRATED_COLLECTION cfg) !! doc_id = None →
  eq_True (data !! "processed") = false →
  prepare_input data = Ok row →
  model_predict cfg row = Ok (c0 :: c1 :: c2 :: c3 :: c4 :: rest) →
  ∃ s',
    on_snapshot cfg changes s = (Ok tt, s') ∧
    last_processed_doc_id s' = Some doc_id ∧
    collection_of (db s') (CALIBRATED_COLLECTION cfg) !! doc_id
    = Some (resolve (server_time s)
              (merge data (calibrated_dict c0 c1 c2 c3 c4))) ∧
    collection_of (db s') (RAW_COLLECTION cfg) !! doc_id
    = Some (resolve (server_time s + 1) processed_fields ∪ data) ∧
    ∀ coll id,
      ¬ (coll = CALIBRATED_COLLECTION cfg ∧ id = doc_id) →
      ¬ (coll = RAW_COLLECTION cfg ∧ id = doc_id) →
      collection_of (db s') coll !! id = collection_of (db s) coll !! id.
Proof.
  intros Htotal Htrans Hne Hflag Hf Hstored Hts Hnewest Hlast Hfree Hproc
    Hrow Hout.
  assert (next_call_completes s) as Hnext by (left; by rewrite Hf).
  assert (order_by_desc_limit_1 (order_leb cfg) "timestamp"
            (collection_of (db s) (RAW_COLLECTION cfg)) = Some (doc_id, data))
    as Hlatest.
  { by apply (order_by_desc_limit_1_unique _ Htotal Htrans _ _ _ _ v). }
  destruct (on_snapshot_new_latest cfg changes s doc_id data
              Hflag Hnext Hlatest Hlast)
    as (s_call & success & s_ret & evs & s' & Hdbc & Htime & Hfc & _ & Hp & _
        & Hrun & Hdb' & _ & Hl').
  destruct (process_document_succeeds cfg doc_id data s_call row c0 c1 c2 c3 c4
              rest data) as (s_ret' & Hp' & Hdbr & _).
  { rewrite Hfc, Hf. done. }
  { by rewrite Hdbc. }
  { done. }
  { done. }
  { done. }
  { rewrite lookup_db_put, decide_False by (by intros [? _]).
    by rewrite Hdbc. }
  rewrite Hp in Hp'. injection Hp' as -> <-.
  exists s'. split; [done|]. split; [done|].
  rewrite Hdb', Hdbr, Hdbc, Htime.
  split_and!.
  - rewrite !lookup_db_put, decide_False by (by intros [? _]).
    by rewrite decide_True.
  - by rewrite lookup_db_put, decide_True.
  - intros coll id Hcal Hraw. rewrite !lookup_db_put.
    by rewrite !decide_False.
Qed.

(** ** Documents stored before the listener starts *)






Section Spared.
Context (cfg : config) (existing : collection).
Hypothesis leb_total :
  ∀ a b, order_leb cfg a b = true ∨ order_leb cfg b a = true.
Hypothesis leb_trans :
  ∀ a b c, order_leb cfg a b = true → order_leb cfg b c = true →
           order_leb cfg a c = true.




End Spared.


(** ** The further properties at the sample data *)

Lemma process_document_touches_two_documents_witness :
  collection_of
    (db (process_document default_config "r1" reading_r1 sample_state).2)
    "npk_readings" !! "r0"
  = collection_of (db sample_state) "npk_readings" !! "r0".
Proof.
  apply (proj1 (process_document_touches_two_documents default_config "r1"
                  reading_r1 sample_state _ _ sample_process_r1)).
  - intros [_ H]. discriminate H.
  - intros [_ H]. discriminate H.
Defined.

Lemma process_document_already_processed_witness :
  ∃ s',
    process_document default_config "r1" reading_r1_flagged sample_state
    = (Ok false, s') ∧
    db s' = db sample_state.
Proof.
  destruct (process_document_already_processed default_config "r1"
              reading_r1_flagged sample_state (VInt 1)
              (or_introl eq_refl) eq_refl eq_refl (or_intror (or_introl eq_refl)))
    as (s' & Hrun & Hdb & _).
  exists s'. split; assumption.
Defined.

Lemma process_document_update_fails_witness :
  ∃ s' stored,
    process_document default_config "r1" reading_r1 sample_state_update_fails
    = (Ok false, s') ∧
    db s' = db_put (db sample_state_update_fails)
              (CALIBRATED_COLLECTION default_config) "r1" stored.
Proof.
  destruct (process_document_update_fails default_config "r1" reading_r1
              sample_state_update_fails _ _ _ _ _ _ [] (Error "unavailable") []
              eq_refl eq_refl eq_refl prepare_input_r1 eq_refl)
    as (s' & Hrun & Hdb & _).
  exists s'. eexists. split; [exact Hrun|exact Hdb].
Defined.

Lemma process_document_source_missing_witness :
  ∃ s',
    process_document default_config "r9" reading_r1 sample_state = (Ok false, s') ∧
    collection_of (db s') (RAW_COLLECTION default_config) !! "r9" = None ∧
    is_Some (collection_of (db s') (CALIBRATED_COLLECTION default_config) !! "r9").
Proof.
  destruct (process_document_source_missing default_config "r9" reading_r1
              sample_state _ _ _ _ _ _ []
              eq_refl ltac:(discriminate) eq_refl eq_refl eq_refl
              prepare_input_r1 eq_refl)
    as (s' & Hrun & Hdb & Hraw & _).
  exists s'. split_and!; [exact Hrun|exact Hraw|].
  rewrite Hdb, lookup_db_put, decide_True by done. eauto.
Defined.

Lemma on_snapshot_ignores_batch_witness :
  (on_snapshot default_config [(ADDED, "r1")] sample_state_listening).1
  = (on_snapshot default_config [] sample_state_listening).1.
Proof.
  apply (on_snapshot_ignores_batch default_config [(ADDED, "r1")] []
           sample_state_listening sample_state_listening
           (same_effects_refl _)).
Defined.

Lemma sample_stuck_latest :
  order_by_desc_limit_1 (order_leb default_config) "timestamp"
    (collection_of (db sample_state_stuck) (RAW_COLLECTION default_config))
  = Some ("r0", reading_r0).
Proof. vm_compute. reflexivity. Qed.

Lemma on_snapshots_retry_without_progress_witness :
  ∃ s',
    on_snapshots default_config [[(ADDED, "r0")]; [(MODIFIED, "r0")]]
      sample_state_stuck = (Ok tt, s') ∧
    db s' = db sample_state_stuck ∧
    filter (λ e, is_process e = true) (events_since sample_state_stuck s')
    = [Process "r0" reading_r0; Process "r0" reading_r0].
Proof.
  destruct (on_snapshots_retry_without_progress default_config
              [[(ADDED, "r0")]; [(MODIFIED, "r0")]] sample_state_stuck
              "r0" reading_r0 eq_refl eq_refl sample_stuck_latest
              ltac:(discriminate)
              (or_intror (ex_intro _ "pH" (conj required_pH eq_refl))))
    as (s' & Hrun & Hdb & _ & Hcalls).
  exists s'. split_and!; assumption.
Defined.

Lemma same_collection_never_calibrates_witness :
  ∃ s',
    on_snapshot same_collection_config [(ADDED, "r1")] sample_state_listening
    = (Ok tt, s') ∧
    db s' = db sample_state_listening.
Proof.
  apply (same_collection_never_calibrates same_collection_config
           [(ADDED, "r1")] sample_state_listening eq_refl).
Defined.

Lemma step_undoes_nothing_witness :
  (length (threads sample_system)
   ≤ length (threads (start_worker sample_system).2))%nat.
Proof.
  apply (step_undoes_nothing default_config sample_system StartRequest
           (start_worker sample_system).2 (step_start _ _)).
Defined.

Lemma lock_held_inside_only_witness :
  ∃ p,
    threads (run_schedule default_config new_reading_schedule sample_system)
      !! 2%nat = Some p ∧
    in_critical_section p = true.
Proof.
  assert (reachable default_config
            (run_schedule default_config new_reading_schedule sample_system))
    as Hreach.
  { eapply exec_schedule_reachable; [apply reachable_init|].
    apply new_reading_schedule_runs. }
  apply (proj1 (lock_held_inside_only default_config _ Hreach) 2%nat).
  vm_compute. reflexivity.
Defined.

Lemma restart_adds_a_listener_witness :
  watches (st (run_thread default_config 3 (length (threads sample_system))
                 (start_worker (stop_worker sample_system).2).2))
  = S (watches (st sample_system)).
Proof.
  apply (restart_adds_a_listener default_config sample_system eq_refl).
Defined.

Lemma attach_failure_leaves_worker_running_witness :
  (start_worker
     (run_thread default_config 3 (length (threads sample_system_attach_fails))
        (start_worker sample_system_attach_fails).2)).1
  = "Worker already running".
Proof.
  apply (attach_failure_leaves_worker_running default_config
           sample_system_attach_fails (Error "unavailable") [] eq_refl eq_refl).
Defined.

Lemma sample_initialize_firebase :
  initialize_firebase sample_sdk sample_environ fresh_firebase
  = (Ok tt, sample_firebase).
Proof. vm_compute. reflexivity. Qed.

Lemma initialize_firebase_once_witness :
  initialize_firebase refusing_sdk ∅ sample_firebase
  = (Ok tt, init_print LogAlreadyInitialized sample_firebase).
Proof.
  apply (initialize_firebase_once sample_sdk sample_environ fresh_firebase
           sample_firebase sample_initialize_firebase).
Defined.

Lemma initialize_firebase_credentials_witness :
  ∃ cred, default_app sample_firebase = Some cred.
Proof.
  destruct (initialize_firebase_credentials sample_sdk sample_environ
              fresh_firebase sample_firebase eq_refl sample_initialize_firebase)
    as (cred & Happ & _).
  exists cred. exact Happ.
Defined.

Lemma sample_initialize_firebase_refused :
  initialize_firebase refusing_sdk sample_environ fresh_firebase
  = (Raise (Error "invalid credential"),
     (initialize_firebase refusing_sdk sample_environ fresh_firebase).2).
Proof. vm_compute. reflexivity. Qed.

Lemma initialize_firebase_failure_witness :
  default_app (initialize_firebase refusing_sdk sample_environ fresh_firebase).2
  = None.
Proof.
  apply (initialize_firebase_failure refusing_sdk sample_environ fresh_firebase
           _ _ sample_initialize_firebase_refused).
Defined.

Lemma sample_ordered_latest :
  order_by_desc_limit_1 timestamp_leb "timestamp"
    (collection_of sample_db "npk_readings") = Some ("r1", reading_r1).
Proof. vm_compute. reflexivity. Qed.

Lemma order_by_desc_limit_1_greatest_witness :
  collection_of sample_db "npk_readings" !! "r1" = Some reading_r1 ∧
  ∃ v, reading_r1 !! "timestamp" = Some v ∧
       ∀ id' d' v',
         collection_of sample_db "npk_readings" !! id' = Some d' →
         d' !! "timestamp" = Some v' →
         before_desc timestamp_leb ("r1", reading_r1, v) (id', d', v') = true.
Proof.
  apply (proj1 (order_by_desc_limit_1_greatest timestamp_leb
                  timestamp_leb_total timestamp_leb_trans "timestamp"
                  (collection_of sample_db "npk_readings") "r1" reading_r1)).
  exact sample_ordered_latest.
Defined.

Lemma sample_on_snapshot_r1 :
  on_snapshot ordered_config [(ADDED, "r1")] sample_state_listening
  = (Ok tt, sample_state_calibrated).
Proof. vm_compute. reflexivity. Qed.

Lemma sample_on_snapshot_r1_progress :
  last_processed_doc_id sample_state_calibrated
  ≠ last_processed_doc_id sample_state_listening.
Proof. vm_compute. discriminate. Qed.

Lemma on_snapshot_own_update_is_skipped_witness :
  ∃ doc_id,
    last_processed_doc_id sample_state_calibrated = Some doc_id ∧
    ∀ batches, ∃ s2,
      on_snapshots ordered_config batches sample_state_calibrated = (Ok tt, s2) ∧
      db s2 = db sample_state_calibrated ∧
      last_processed_doc_id s2 = Some doc_id ∧
      filter (λ e, is_process e = true) (events_since sample_state_calibrated s2)
      = [].
Proof.
  destruct (on_snapshot_own_update_is_skipped ordered_config [(ADDED, "r1")]
              sample_state_listening sample_state_calibrated
              timestamp_leb_total timestamp_leb_trans
              eq_refl eq_refl
              sample_on_snapshot_r1 sample_on_snapshot_r1_progress)
    as (doc_id & Hl & _ & Hrest).
  exists doc_id. split; [exact Hl|exact Hrest].
Defined.

Lemma sample_system_attached_runs :
  exec_schedule default_config
    [StartRequest; Thread 0; Thread 0; Thread 0] sample_system
  = Some sample_system_attached.
Proof. vm_compute. reflexivity. Qed.

Lemma sample_system_attached_watches :
  (0 < watches (st sample_system_attached))%nat.
Proof. vm_compute. lia. Qed.

Lemma delivered_batch_runs_on_snapshot_witness :
  threads (run_thread default_config 7 (length (threads sample_system_attached))
             (spawn (S_check [(ADDED, "r1")]) sample_system_attached).2)
    !! length (threads sample_system_attached) = Some Done.
Proof.
  assert (reachable default_config sample_system_attached) as Hreach.
  { eapply exec_schedule_reachable; [apply reachable_init|].
    apply sample_system_attached_runs. }
  destruct (delivered_batch_runs_on_snapshot default_config [(ADDED, "r1")]
              sample_system_attached Hreach sample_system_attached_watches
              eq_refl)
    as (_ & _ & _ & Hdone & _).
  exact Hdone.
Defined.

Lemma process_document_succeeds_iff_witness :
  ∃ s', process_document default_config "r1" reading_r1 sample_state = (Ok true, s').
Proof.
  apply (proj2 (process_document_succeeds_iff default_config "r1" reading_r1
                  sample_state eq_refl)).
  split; [reflexivity|]. split; [reflexivity|].
  eexists _, _, _, _, _, _, []. split; [exact prepare_input_r1|].
  split; [reflexivity|].
  rewrite lookup_db_put, decide_False by (by intros [? _]).
  by eexists.
Defined.

Lemma on_snapshot_calibrates_newest_witness :
  ∃ s',
    on_snapshot ordered_config [(ADDED, "r1")] sample_state_listening
    = (Ok tt, s') ∧
    last_processed_doc_id s' = Some "r1".
Proof.
  destruct (order_by_desc_limit_1_first timestamp_leb timestamp_leb_total
              timestamp_leb_trans _ _ _ _ sample_ordered_latest)
    as (Hstored & v & Hv & Hnewest).
  destruct (on_snapshot_calibrates_newest ordered_config [(ADDED, "r1")]
              sample_state_listening "r1" reading_r1 v _ _ _ _ _ _ []
              timestamp_leb_total timestamp_leb_trans
              ltac:(discriminate) eq_refl eq_refl Hstored Hv Hnewest
              ltac:(discriminate) eq_refl eq_refl prepare_input_r1 eq_refl)
    as (s' & Hrun & Hlast & _).
  exists s'. split; assumption.
Defined.





Lemma sample_overwritten_processed :
  processed_ids
    (events_since (start_listener_setup ordered_config sample_state).2
       (feeds ordered_config overwritten_inputs
          (start_listener_setup ordered_config sample_state).2).2)
  = ["r0"].
Proof. vm_compute. reflexivity. Qed.

Lemma sample_overwritten_stored :
  is_Some (collection_of
             (db (feed ordered_config (Batch [(ADDED, "r0"); (ADDED, "r1")])
                    (start_listener_setup ordered_config sample_state).2).2)
             (RAW_COLLECTION ordered_config) !! "r1") ∧
  is_Some (collection_of (db sample_state) (RAW_COLLECTION ordered_config)
             !! "r0").
Proof. split; apply (bool_decide_unpack _); vm_compute; exact I. Qed.

(** Nor does it hold when a stored reading is stored again: once the
    baseline [r1] is overwritten with an older timestamp, the latest
    document is [r0], which was stored before the listener started and has
    not changed, and it is handed to the processor. *)
Lemma overwritten_baseline_is_reprocessed :
  next_call_completes sample_state ∧
  ¬ only_new_ids ordered_config overwritten_inputs
      (start_listener_setup ordered_config sample_state).2 ∧
  ¬ preexisting_never_reprocessed ordered_config sample_state overwritten_inputs.
Proof.
  destruct sample_overwritten_stored as [[d1 Hd1] [d0 Hd0]].
  split; [by left|]. split.
  - intros (_ & Hnew & _). rewrite Hd1 in Hnew. discriminate.
  - intros Hnever. specialize (Hnever "r0"). cbv zeta in Hnever.
    rewrite sample_overwritten_processed, Hd0 in Hnever.
    specialize (Hnever ltac:(apply list_elem_of_here)). discriminate.
Qed.



